(** * A shallow embedding of [src/model.py] (bilevel prosumer attack model)

    The repository builds Gurobi models through [gurobipy].  The solver itself
    is an external collaborator; what is embedded here is everything the
    Python code does around it:

    - a Gurobi model as data: columns (variables with bounds and type), rows
      (constraints, each with the identity Gurobi gives it), the objective and
      its sense, and the parameters that were set;
    - the [HouseModel] methods as functions on an explicit [house] state in an
      error monad (Python exceptions become [Err]);
    - the [Control] operations as functions threading a [world]: the sequence
      of models handed to the solver, and what was printed.  The solver is an
      arbitrary oracle returning a status and, possibly, a solution.

    Floats are modelled by exact rationals [Q]. *)

From Stdlib Require Import QArith Qabs Lqa ZArith String List Bool Lia.
Import ListNotations.
Open Scope string_scope.
Open Scope list_scope.

(* ================================================================== *)
(** ** Python exceptions and the error monad *)

Inductive error :=
| KeyError (key : string)
| IndexError
| AttributeError      (* gurobipy: "Unable to retrieve attribute 'X'" *)
| GurobiError
| ZeroDivisionError
| ValueError          (* max() of an empty sequence, shape mismatch *)
| PyException (msg : string).

Inductive res (A : Type) : Type :=
| Ok (a : A)
| Err (e : error).
Arguments Ok {A} a.
Arguments Err {A} e.

Definition rbind {A B} (m : res A) (k : A -> res B) : res B :=
  match m with Ok a => k a | Err e => Err e end.

Notation "'let?' x ':=' m 'in' k" := (rbind m (fun x => k))
  (at level 200, x name, m at level 100, k at level 200).
Notation "'let?' ' p ':=' m 'in' k" :=
  (rbind m (fun x => match x with p => k end))
  (at level 200, p pattern, m at level 100, k at level 200).

(** [for x in xs: ...] collecting results, stopping at the first exception. *)
Fixpoint rmap {A B} (f : A -> res B) (xs : list A) : res (list B) :=
  match xs with
  | [] => Ok []
  | x :: xs' => let? y := f x in let? ys := rmap f xs' in Ok (y :: ys)
  end.

(* ================================================================== *)
(** ** Python dictionaries as association lists (insertion ordered) *)

Fixpoint dict_get {V} (k : string) (d : list (string * V)) : option V :=
  match d with
  | [] => None
  | (k', v) :: d' => if String.eqb k k' then Some v else dict_get k d'
  end.

(** [d[k] = v]: replaces in place when present, appends otherwise. *)
Fixpoint dict_set {V} (k : string) (v : V) (d : list (string * V)) : list (string * V) :=
  match d with
  | [] => [(k, v)]
  | (k', v') :: d' =>
      if String.eqb k k' then (k', v) :: d' else (k', v') :: dict_set k v d'
  end.

(** [del d[k]] (the key is known to be present). *)
Fixpoint dict_del {V} (k : string) (d : list (string * V)) : list (string * V) :=
  match d with
  | [] => []
  | (k', v') :: d' => if String.eqb k k' then d' else (k', v') :: dict_del k d'
  end.

(** [d[k]] raising [KeyError]. *)
Definition dict_at {V} (k : string) (d : list (string * V)) : res V :=
  match dict_get k d with Some v => Ok v | None => Err (KeyError k) end.

(** [l[i]] on a Python list, [0 <= i]. *)
Definition list_at {A} (l : list A) (i : nat) : res A :=
  match nth_error l i with Some a => Ok a | None => Err IndexError end.

(** [range(H)[i-1]] for [0 <= i < H]: Python's index -1 is the last hour. *)
Definition prev (H i : nat) : nat := if Nat.eqb i 0 then H - 1 else i - 1.

(* ================================================================== *)
(** ** gurobipy: expressions, constraints, columns, models *)

(** A variable is a column of the model, i.e. its position. *)
Definition var := nat.

(** Linear and quadratic expressions as gurobipy builds them. *)
Inductive expr :=
| EConst (q : Q)
| EVar (v : var)
| EAdd (a b : expr)
| ESub (a b : expr)
| EMul (a b : expr)
| ENeg (a : expr).

Declare Scope expr_scope.
Delimit Scope expr_scope with E.
Infix "+" := EAdd : expr_scope.
Infix "-" := ESub : expr_scope.
Infix "*" := EMul : expr_scope.
Notation "- a" := (ENeg a) : expr_scope.

(** Python's [sum(...)] starts from the integer [0]. *)
Definition py_sum (es : list expr) : expr := fold_left EAdd es (EConst 0).

Inductive constr :=
| CLe (lhs rhs : expr)          (* addConstr(lhs <= rhs) *)
| CEq (lhs rhs : expr)          (* addConstr(lhs == rhs) *)
| CAbs (resv argv : var)        (* addConstr(resv == gp.abs_(argv)) *)
| CSOS1 (vs : list var).        (* addSOS(GRB.SOS_TYPE1, vs) *)

Inductive vtype := CONTINUOUS | BINARY.

Record column := mkcol {
  c_name : string;
  c_index : option nat;         (* the key inside a tupledict *)
  c_lb : Q;
  c_ub : Q;
  c_type : vtype }.

Inductive sense := MINIMIZE | MAXIMIZE.

Record gmodel := mkmodel {
  m_cols : list column;
  m_rows : list (nat * constr); (* every constraint with its identity *)
  m_next : nat;                 (* identity of the next constraint *)
  m_obj : expr;
  m_sense : sense;
  m_params : list (string * Q) }.

(** [GRB.INFINITY] is 1e100; Gurobi treats bounds beyond 1e20 as infinite. *)
Definition GRB_INFINITY : Q := inject_Z (10 ^ 100).
Definition INF_BOUND : Q := inject_Z (10 ^ 20).

(** [gp.Model(name)]: no column, no row, the zero objective minimised. *)
Definition empty_model : gmodel :=
  mkmodel [] [] 0 (EConst 0) MINIMIZE [].

(** Per-variable bounds of [addVars]: a scalar or one value per index. *)
Inductive qparam := QScalar (q : Q) | QList (l : list Q).

Definition qparam_at (p : qparam) (n i : nat) : res Q :=
  match p with
  | QScalar q => Ok q
  | QList l => if Nat.eqb (length l) n then list_at l i else Err GurobiError
  end.

(** [model.addVars(n, lb=, ub=, vtype=, name=)]: the new columns and
    their positions. *)
Definition addVars (m : gmodel) (n : nat) (lb ub : qparam) (ty : vtype)
  (name : string) : res (gmodel * list var) :=
  let? cols := rmap (fun i => let? l := qparam_at lb n i in
                              let? u := qparam_at ub n i in
                              Ok (mkcol name (Some i) l u ty)) (seq 0 n) in
  Ok (mkmodel (m_cols m ++ cols) (m_rows m) (m_next m) (m_obj m) (m_sense m)
              (m_params m),
      seq (length (m_cols m)) n).

(** [model.addVar(lb=, ub=, vtype=, name=)]. *)
Definition addVar (m : gmodel) (lb ub : Q) (ty : vtype) (name : string)
  : gmodel * var :=
  (mkmodel (m_cols m ++ [mkcol name None lb ub ty]) (m_rows m) (m_next m)
           (m_obj m) (m_sense m) (m_params m),
   length (m_cols m)).

(** [model.addConstr(c)] and [model.addSOS(...)]. *)
Definition addConstr (m : gmodel) (c : constr) : gmodel * nat :=
  (mkmodel (m_cols m) (m_rows m ++ [(m_next m, c)]) (S (m_next m))
           (m_obj m) (m_sense m) (m_params m),
   m_next m).

Fixpoint addConstrList (m : gmodel) (cs : list constr) : gmodel * list nat :=
  match cs with
  | [] => (m, [])
  | c :: cs' => let (m1, id) := addConstr m c in
                let (m2, ids) := addConstrList m1 cs' in (m2, id :: ids)
  end.

(** [model.addConstrs(c(i) for i in range(n))]: the generator is evaluated
    first; an exception inside it adds nothing. *)
Definition addConstrs (m : gmodel) (n : nat) (c : nat -> res constr)
  : res (gmodel * list nat) :=
  let? cs := rmap c (seq 0 n) in Ok (addConstrList m cs).

(** [model.remove(constr)]. *)
Definition removeConstr (m : gmodel) (id : nat) : gmodel :=
  mkmodel (m_cols m) (filter (fun r => negb (Nat.eqb (fst r) id)) (m_rows m))
          (m_next m) (m_obj m) (m_sense m) (m_params m).

Definition setObjective (m : gmodel) (e : expr) (s : sense) : gmodel :=
  mkmodel (m_cols m) (m_rows m) (m_next m) e s (m_params m).

Definition setParam (m : gmodel) (p : string) (v : Q) : gmodel :=
  mkmodel (m_cols m) (m_rows m) (m_next m) (m_obj m) (m_sense m)
          (dict_set p v (m_params m)).

(** *** Meaning of a model *)

Definition valuation := var -> Q.

Fixpoint eval (x : valuation) (e : expr) : Q :=
  match e with
  | EConst q => q
  | EVar v => x v
  | EAdd a b => eval x a + eval x b
  | ESub a b => eval x a - eval x b
  | EMul a b => eval x a * eval x b
  | ENeg a => - eval x a
  end.

Definition sat (x : valuation) (c : constr) : Prop :=
  match c with
  | CLe a b => eval x a <= eval x b
  | CEq a b => eval x a == eval x b
  | CAbs r a => x r == Qabs (x a)
  | CSOS1 vs => (length (filter (fun v => negb (Qeq_bool (x v) 0)) vs) <= 1)%nat
  end.

Definition in_bounds (c : column) (q : Q) : Prop :=
  (c_lb c <= - INF_BOUND \/ c_lb c <= q) /\ (INF_BOUND <= c_ub c \/ q <= c_ub c) /\
  (c_type c = BINARY -> q == 0 \/ q == 1).

(** An assignment is feasible when it satisfies every row and every bound. *)
Definition feasible (m : gmodel) (x : valuation) : Prop :=
  (forall r, In r (m_rows m) -> sat x (snd r)) /\
  (forall k c, nth_error (m_cols m) k = Some c -> in_bounds c (x k)).

(** Constraint identities are fresh: every row was added before [m_next]. *)
Definition wf_model (m : gmodel) : Prop :=
  forall r, In r (m_rows m) -> (fst r < m_next m)%nat.

(** Solver statuses ([GRB.Status]). *)
Inductive status :=
| LOADED | OPTIMAL | INFEASIBLE | INF_OR_UNBD | UNBOUNDED | CUTOFF
| ITERATION_LIMIT | NODE_LIMIT | TIME_LIMIT | SOLUTION_LIMIT | INTERRUPTED
| NUMERIC | SUBOPTIMAL.

(** What [model.optimize()] leaves behind: a status and, when the solver
    found one, a solution ([var.X]). *)
Definition solve_result := (status * option valuation)%type.

(* ================================================================== *)
(** ** Parameters ([HouseParams], [AttackParams], [PADM_Params]) *)

Record HouseParams := mkHouseParams {
  life_time : Z;
  price_PV : Q;
  price_battery : Q;
  cost_buy : Q;
  sell_price : Q;
  total_demand : Q;
  demands : list Q;
  PV_availabilities : list Q }.

(** The derived properties; [price / life_time] raises on a zero lifetime. *)
Definition cost_PV (hp : HouseParams) : res Q :=
  if Z.eqb (life_time hp) 0 then Err ZeroDivisionError
  else Ok (price_PV hp / inject_Z (life_time hp)).

Definition cost_battery (hp : HouseParams) : res Q :=
  if Z.eqb (life_time hp) 0 then Err ZeroDivisionError
  else Ok (price_battery hp / inject_Z (life_time hp)).

Definition hours_num (hp : HouseParams) : nat := length (demands hp).

Record AttackParams := mkAttackParams {
  capacity_battery : option Q;
  capacity_PV : option Q;
  lb : qparam;
  ub : qparam;
  norm : Z;
  total_delta_ub : Q }.

(** [AttackParams()] with every default. *)
Definition default_attack : AttackParams :=
  mkAttackParams None None (QScalar (- GRB_INFINITY)) (QScalar GRB_INFINITY) 1
                 GRB_INFINITY.

Record PADM_Params := mkPADMParams {
  initial_mu : Q;
  increase_factor : Q;
  max_penalty_iter : Z;
  max_stationary_iter : Z;
  stationary_error : Q;
  penalty_error : Q }.

Definition default_PADM : PADM_Params :=
  mkPADMParams 1 2 15 200 (1 # 10000) (1 # 10000).

(* ================================================================== *)
(** ** [HouseModel]: the state *)

(** An entry of [self.vars[group]]: a single [Var] or a [tupledict]. *)
Inductive vslot := VOne (v : var) | VMany (vs : list var).

Record house := mkhouse {
  hm_hp : HouseParams;
  hm_model : gmodel;
  (** [self.model.status] is only read by [solve], which returns it. *)
  hm_sol : option valuation;
  hm_vars : list (string * list (string * vslot));
  hm_obj : list (string * expr);
  (** [self.constrs["fix"]]; the other entries of [self.constrs] are
      write-only records of rows that all sit in [m_rows]. *)
  hm_fix : list (string * list nat) }.

(** [HouseModel.__init__].  [self.attack_params] is read only by [add_vars]
    and [add_upper_level_constrs]; being immutable, it is passed to them. *)
Definition init_house (hp : HouseParams) : house :=
  mkhouse hp empty_model None [] [] [].

Definition with_model (hm : house) (m : gmodel) : house :=
  mkhouse (hm_hp hm) m (hm_sol hm) (hm_vars hm)
          (hm_obj hm) (hm_fix hm).

Definition with_vars (hm : house) (m : gmodel) vs : house :=
  mkhouse (hm_hp hm) m (hm_sol hm) vs
          (hm_obj hm) (hm_fix hm).

Definition with_obj (hm : house) (m : gmodel) (o : list (string * expr)) : house :=
  mkhouse (hm_hp hm) m (hm_sol hm) (hm_vars hm)
          o (hm_fix hm).

Definition with_fix (hm : house) (m : gmodel) (f : list (string * list nat)) : house :=
  mkhouse (hm_hp hm) m (hm_sol hm) (hm_vars hm)
          (hm_obj hm) f.

(** [self.vars[g][k][i]] and [self.vars[g][k]]. *)
Definition getv (hm : house) (g k : string) (i : nat) : res var :=
  let? grp := dict_at g (hm_vars hm) in
  let? s := dict_at k grp in
  match s with
  | VMany vs => match nth_error vs i with
                | Some v => Ok v | None => Err (KeyError "tupledict") end
  | VOne _ => Err (PyException "'Var' object is not subscriptable")
  end.

Definition gets (hm : house) (g k : string) : res var :=
  let? grp := dict_at g (hm_vars hm) in
  let? s := dict_at k grp in
  match s with
  | VOne v => Ok v
  | VMany _ => Err (PyException "unsupported operand type: tupledict")
  end.

Definition vA (hm : house) (g k : string) (i : nat) : res expr :=
  let? v := getv hm g k i in Ok (EVar v).

Definition vS (hm : house) (g k : string) : res expr :=
  let? v := gets hm g k in Ok (EVar v).

(** The column of [self.vars[g][k][i]] ([0] when absent), for statements. *)
Definition var_at (hm : house) (g k : string) (i : nat) : var :=
  match getv hm g k i with Ok v => v | Err _ => 0%nat end.

Definition var_s (hm : house) (g k : string) : var :=
  match gets hm g k with Ok v => v | Err _ => 0%nat end.

(* ================================================================== *)
(** ** [HouseModel.add_vars] *)

Definition addVarsD (m : gmodel) (n : nat) (name : string) :=
  addVars m n (QScalar 0) (QScalar GRB_INFINITY) CONTINUOUS name.
Definition addVarsB (m : gmodel) (n : nat) (name : string) :=
  addVars m n (QScalar 0) (QScalar 1) BINARY name.
Definition addVarD (m : gmodel) (name : string) :=
  addVar m 0 GRB_INFINITY CONTINUOUS name.
Definition addVarB (m : gmodel) (name : string) :=
  addVar m 0 1 BINARY name.

Definition add_vars (ap : AttackParams) (hm : house) : res house :=
  let H := hours_num (hm_hp hm) in
  let m := hm_model hm in
  (* upper level *)
  let? '(m, delta) := addVars m H (lb ap) (ub ap) CONTINUOUS "delta" in
  let? '(m, abs) := addVars m H (QScalar (- GRB_INFINITY)) (QScalar GRB_INFINITY)
                            CONTINUOUS "abs" in
  (* primal *)
  let? '(m, energy_PV) := addVarsD m H "energy_PV" in
  let? '(m, energy_battery) := addVarsD m H "energy_battery" in
  let? '(m, energy_battery_in) := addVarsD m H "energy_battery_in" in
  let? '(m, energy_battery_out) := addVarsD m H "energy_battery_out" in
  let? '(m, energy_buy) := addVarsD m H "energy_buy" in
  let? '(m, energy_sell) := addVarsD m H "energy_sell" in
  let '(m, cap_battery) := addVarD m "capacity_battery" in
  let '(m, cap_PV) := addVarD m "capacity_PV" in
  (* dual *)
  let? '(m, d_limit_battery) := addVars m H (QScalar (- GRB_INFINITY)) (QScalar 0)
                                        CONTINUOUS "limit_battery" in
  let? '(m, d_limit_PV) := addVars m H (QScalar (- GRB_INFINITY)) (QScalar 0)
                                   CONTINUOUS "limit_PV" in
  let? '(m, d_eq_battery) := addVars m H (QScalar (- GRB_INFINITY))
                                     (QScalar GRB_INFINITY) CONTINUOUS "eq_battery" in
  let? '(m, d_eq_demand) := addVars m H (QScalar (- GRB_INFINITY))
                                    (QScalar GRB_INFINITY) CONTINUOUS "eq_demand" in
  (* auxiliary variables for complementary slackness *)
  let? '(m, a_limit_PV) := addVarsD m H "aux_limit_PV" in
  let? '(m, a_limit_battery) := addVarsD m H "aux_limit_battery" in
  let? '(m, s_limit_PV) := addVarsD m H "slack_limit_PV" in
  let? '(m, s_limit_battery) := addVarsD m H "slack_limit_battery" in
  let? '(m, s_energy_buy) := addVarsD m H "slack_energy_buy" in
  let? '(m, s_energy_sell) := addVarsD m H "slack_energy_sell" in
  let? '(m, s_energy_battery_out) := addVarsD m H "slack_energy_battery_out" in
  let? '(m, s_energy_battery_in) := addVarsD m H "slack_energy_battery_in" in
  let? '(m, s_energy_battery) := addVarsD m H "slack_energy_battery" in
  let? '(m, s_energy_PV) := addVarsD m H "slack_energy_PV" in
  let '(m, s_capacity_PV) := addVarD m "slack_capacity_PV" in
  let '(m, s_capacity_battery) := addVarD m "slack_capacity_battery" in
  (* binary variables for complementary slackness constraints *)
  let? '(m, cs_limit_PV) := addVarsB m H "cs_limit_PV" in
  let? '(m, cs_limit_battery) := addVarsB m H "cs_limit_battery" in
  let? '(m, cs_energy_buy) := addVarsB m H "cs_energy_buy" in
  let? '(m, cs_energy_sell) := addVarsB m H "cs_energy_sell" in
  let? '(m, cs_energy_battery_out) := addVarsB m H "cs_energy_battery_out" in
  let? '(m, cs_energy_battery_in) := addVarsB m H "cs_energy_battery_in" in
  let? '(m, cs_energy_battery) := addVarsB m H "cs_energy_battery" in
  let? '(m, cs_energy_PV) := addVarsB m H "cs_energy_PV" in
  let '(m, cs_capacity_PV) := addVarB m "cs_limit_PV" in
  let '(m, cs_capacity_battery) := addVarB m "cs_limit_battery" in
  let vs := hm_vars hm in
  let vs := dict_set "upper_level"
              [("delta", VMany delta); ("abs", VMany abs)] vs in
  let vs := dict_set "primal"
              [("energy_PV", VMany energy_PV); ("energy_battery", VMany energy_battery);
               ("energy_battery_in", VMany energy_battery_in);
               ("energy_battery_out", VMany energy_battery_out);
               ("energy_buy", VMany energy_buy); ("energy_sell", VMany energy_sell);
               ("capacity_battery", VOne cap_battery); ("capacity_PV", VOne cap_PV)] vs in
  let vs := dict_set "dual"
              [("limit_battery", VMany d_limit_battery); ("limit_PV", VMany d_limit_PV);
               ("eq_battery", VMany d_eq_battery); ("eq_demand", VMany d_eq_demand)] vs in
  let vs := dict_set "aux"
              [("limit_PV", VMany a_limit_PV); ("limit_battery", VMany a_limit_battery);
               ("slack_limit_PV", VMany s_limit_PV);
               ("slack_limit_battery", VMany s_limit_battery);
               ("slack_energy_buy", VMany s_energy_buy);
               ("slack_energy_sell", VMany s_energy_sell);
               ("slack_energy_battery_out", VMany s_energy_battery_out);
               ("slack_energy_battery_in", VMany s_energy_battery_in);
               ("slack_energy_battery", VMany s_energy_battery);
               ("slack_energy_PV", VMany s_energy_PV);
               ("slack_capacity_PV", VOne s_capacity_PV);
               ("slack_capacity_battery", VOne s_capacity_battery)] vs in
  let vs := dict_set "cs"
              [("limit_PV", VMany cs_limit_PV); ("limit_battery", VMany cs_limit_battery);
               ("energy_buy", VMany cs_energy_buy); ("energy_sell", VMany cs_energy_sell);
               ("energy_battery_out", VMany cs_energy_battery_out);
               ("energy_battery_in", VMany cs_energy_battery_in);
               ("energy_battery", VMany cs_energy_battery);
               ("energy_PV", VMany cs_energy_PV);
               ("capacity_PV", VOne cs_capacity_PV);
               ("capacity_battery", VOne cs_capacity_battery)] vs in
  Ok (with_vars hm m vs).

(* ================================================================== *)
(** ** [HouseModel.add_upper_level_constrs] *)

Local Open Scope expr_scope.

Definition demand_change_term (hm : house) (i : nat) : res expr :=
  let? dv := vA hm "upper_level" "delta" i in
  let? d := list_at (demands (hm_hp hm)) i in
  Ok (dv * EConst d).

Definition abs_row (hm : house) (i : nat) : res constr :=
  let? a := getv hm "upper_level" "abs" i in
  let? d := getv hm "upper_level" "delta" i in
  Ok (CAbs a d).

(** [self.obj["upper_level"]]. *)
Definition upper_level_obj (hm : house) : res expr :=
  let? absl := rmap (vA hm "upper_level" "abs") (seq 0 (hours_num (hm_hp hm))) in
  Ok (py_sum absl).

Definition add_upper_level_constrs (ap : AttackParams) (hm : house) : res house :=
  let H := hours_num (hm_hp hm) in
  let? terms := rmap (demand_change_term hm) (seq 0 H) in
  let '(m, _) := addConstr (hm_model hm) (CEq (py_sum terms) (EConst 0)) in
  let? '(m, _) := addConstrs m H (abs_row hm) in
  let? m := match capacity_battery ap with
            | None => Ok m
            | Some c => let? cb := vS hm "primal" "capacity_battery" in
                        Ok (fst (addConstr m (CEq (EConst c) cb)))
            end in
  let? m := match capacity_PV ap with
            | None => Ok m
            | Some c => let? cp := vS hm "primal" "capacity_PV" in
                        Ok (fst (addConstr m (CEq (EConst c) cp)))
            end in
  let? o := upper_level_obj hm in
  Ok (with_obj hm m (dict_set "upper_level" o (hm_obj hm))).

(* ================================================================== *)
(** ** [HouseModel.add_primal_constrs] *)

Definition eq_demand_row (hm : house) (i : nat) : res constr :=
  let hp := hm_hp hm in
  let? buy := vA hm "primal" "energy_buy" i in
  let? sell := vA hm "primal" "energy_sell" i in
  let? bout := vA hm "primal" "energy_battery_out" i in
  let? bin := vA hm "primal" "energy_battery_in" i in
  let? pv := vA hm "primal" "energy_PV" i in
  let? d := list_at (demands hp) i in
  let? dv := vA hm "upper_level" "delta" i in
  Ok (CEq (buy - sell + bout - bin + pv)
          (EConst (d * total_demand hp)%Q * (EConst 1 + dv))).

Definition eq_battery_row (hm : house) (i : nat) : res constr :=
  let H := hours_num (hm_hp hm) in
  let? bprev := vA hm "primal" "energy_battery" (prev H i) in
  let? bin := vA hm "primal" "energy_battery_in" i in
  let? bout := vA hm "primal" "energy_battery_out" i in
  let? b := vA hm "primal" "energy_battery" i in
  Ok (CEq (bprev + bin - bout) b).

Definition limit_PV_row (hm : house) (i : nat) : res constr :=
  let? pv := vA hm "primal" "energy_PV" i in
  let? cap := vS hm "primal" "capacity_PV" in
  let? a := list_at (PV_availabilities (hm_hp hm)) i in
  Ok (CLe pv (cap * EConst a)).

Definition limit_battery_row (hm : house) (i : nat) : res constr :=
  let? b := vA hm "primal" "energy_battery" i in
  let? cap := vS hm "primal" "capacity_battery" in
  Ok (CLe b cap).

(** [self.obj["primal"]]. *)
Definition primal_obj (hm : house) : res expr :=
  let hp := hm_hp hm in
  let H := hours_num hp in
  let? cPV := cost_PV hp in
  let? capPV := vS hm "primal" "capacity_PV" in
  let? cB := cost_battery hp in
  let? capB := vS hm "primal" "capacity_battery" in
  let? buys := rmap (vA hm "primal" "energy_buy") (seq 0 H) in
  let? sells := rmap (vA hm "primal" "energy_sell") (seq 0 H) in
  Ok (EConst cPV * capPV + EConst cB * capB + EConst (cost_buy hp) * py_sum buys
      - EConst (sell_price hp) * py_sum sells).

Definition add_primal_constrs (hm : house) : res house :=
  let H := hours_num (hm_hp hm) in
  let? '(m, _) := addConstrs (hm_model hm) H (eq_demand_row hm) in
  let? '(m, _) := addConstrs m H (eq_battery_row hm) in
  let? '(m, _) := addConstrs m H (limit_PV_row hm) in
  let? '(m, _) := addConstrs m H (limit_battery_row hm) in
  let? o := primal_obj hm in
  Ok (with_obj hm m (dict_set "primal" o (hm_obj hm))).

(* ================================================================== *)
(** ** [HouseModel.add_dual_constrs] *)

Definition d_energy_buy_row (hm : house) (i : nat) : res constr :=
  let? l := vA hm "dual" "eq_demand" i in
  Ok (CLe l (EConst (cost_buy (hm_hp hm)))).

Definition d_energy_sell_row (hm : house) (i : nat) : res constr :=
  let? l := vA hm "dual" "eq_demand" i in
  Ok (CLe (- l) (EConst (- sell_price (hm_hp hm))%Q)).

Definition d_energy_battery_out_row (hm : house) (i : nat) : res constr :=
  let? l := vA hm "dual" "eq_demand" i in
  let? b := vA hm "dual" "eq_battery" i in
  Ok (CLe (l - b) (EConst 0)).

Definition d_energy_battery_in_row (hm : house) (i : nat) : res constr :=
  let? l := vA hm "dual" "eq_demand" i in
  let? b := vA hm "dual" "eq_battery" i in
  Ok (CLe (- l + b) (EConst 0)).

Definition d_energy_battery_row (hm : house) (i : nat) : res constr :=
  let H := hours_num (hm_hp hm) in
  let? b := vA hm "dual" "eq_battery" i in
  let? bprev := vA hm "dual" "eq_battery" (prev H i) in
  let? lprev := vA hm "dual" "limit_battery" (prev H i) in
  Ok (CLe (b - bprev + lprev) (EConst 0)).

Definition d_energy_PV_row (hm : house) (i : nat) : res constr :=
  let? l := vA hm "dual" "eq_demand" i in
  let? p := vA hm "dual" "limit_PV" i in
  Ok (CLe (l + p) (EConst 0)).

Definition neg_limit_battery_term (hm : house) (i : nat) : res expr :=
  let? p := vA hm "dual" "limit_battery" i in Ok (- p).

Definition neg_limit_PV_term (hm : house) (i : nat) : res expr :=
  let? p := vA hm "dual" "limit_PV" i in
  let? a := list_at (PV_availabilities (hm_hp hm)) i in
  Ok (- p * EConst a).

(** The [i]-th term of the dual objective, with [1 + delta[i]] given. *)
Definition dual_obj_term (hm : house) (i : nat) (one_plus : expr) : res expr :=
  let hp := hm_hp hm in
  let? l := vA hm "dual" "eq_demand" i in
  let? d := list_at (demands hp) i in
  Ok (l * EConst d * EConst (total_demand hp) * one_plus).

(** [self.obj["dual"]]. *)
Definition dual_obj (hm : house) : res expr :=
  let? ts := rmap (fun i => let? dv := vA hm "upper_level" "delta" i in
                            dual_obj_term hm i (EConst 1 + dv))
                  (seq 0 (hours_num (hm_hp hm))) in
  Ok (py_sum ts).

Definition add_dual_constrs (hm : house) : res house :=
  let hp := hm_hp hm in
  let H := hours_num hp in
  let? '(m, _) := addConstrs (hm_model hm) H (d_energy_buy_row hm) in
  let? '(m, _) := addConstrs m H (d_energy_sell_row hm) in
  let? '(m, _) := addConstrs m H (d_energy_battery_out_row hm) in
  let? '(m, _) := addConstrs m H (d_energy_battery_in_row hm) in
  let? '(m, _) := addConstrs m H (d_energy_battery_row hm) in
  let? '(m, _) := addConstrs m H (d_energy_PV_row hm) in
  let? tb := rmap (neg_limit_battery_term hm) (seq 0 H) in
  let? cB := cost_battery hp in
  let '(m, _) := addConstr m (CLe (py_sum tb) (EConst cB)) in
  let? tp := rmap (neg_limit_PV_term hm) (seq 0 H) in
  let? cPV := cost_PV hp in
  let '(m, _) := addConstr m (CLe (py_sum tp) (EConst cPV)) in
  let? o := dual_obj hm in
  Ok (with_obj hm m (dict_set "dual" o (hm_obj hm))).

(* ================================================================== *)
(** ** [HouseModel.add_aux_constrs] *)

Definition aux_limit_PV_row (hm : house) (i : nat) : res constr :=
  let? a := vA hm "aux" "limit_PV" i in
  let? p := vA hm "dual" "limit_PV" i in
  Ok (CEq a (- p)).

Definition aux_limit_battery_row (hm : house) (i : nat) : res constr :=
  let? a := vA hm "aux" "limit_battery" i in
  let? p := vA hm "dual" "limit_battery" i in
  Ok (CEq a (- p)).

Definition slack_limit_PV_row (hm : house) (i : nat) : res constr :=
  let? cap := vS hm "primal" "capacity_PV" in
  let? a := list_at (PV_availabilities (hm_hp hm)) i in
  let? pv := vA hm "primal" "energy_PV" i in
  let? s := vA hm "aux" "slack_limit_PV" i in
  Ok (CEq (cap * EConst a - pv) s).

Definition slack_limit_battery_row (hm : house) (i : nat) : res constr :=
  let? cap := vS hm "primal" "capacity_battery" in
  let? b := vA hm "primal" "energy_battery" i in
  let? s := vA hm "aux" "slack_limit_battery" i in
  Ok (CEq (cap - b) s).

Definition slack_energy_buy_row (hm : house) (i : nat) : res constr :=
  let? l := vA hm "dual" "eq_demand" i in
  let? s := vA hm "aux" "slack_energy_buy" i in
  Ok (CEq (EConst (cost_buy (hm_hp hm)) - l) s).

Definition slack_energy_sell_row (hm : house) (i : nat) : res constr :=
  let? l := vA hm "dual" "eq_demand" i in
  let? s := vA hm "aux" "slack_energy_sell" i in
  Ok (CEq (l - EConst (sell_price (hm_hp hm))) s).

Definition slack_energy_battery_out_row (hm : house) (i : nat) : res constr :=
  let? b := vA hm "dual" "eq_battery" i in
  let? l := vA hm "dual" "eq_demand" i in
  let? s := vA hm "aux" "slack_energy_battery_out" i in
  Ok (CEq (b - l) s).

Definition slack_energy_battery_in_row (hm : house) (i : nat) : res constr :=
  let? l := vA hm "dual" "eq_demand" i in
  let? b := vA hm "dual" "eq_battery" i in
  let? s := vA hm "aux" "slack_energy_battery_in" i in
  Ok (CEq (l - b) s).

Definition slack_energy_battery_row (hm : house) (i : nat) : res constr :=
  let H := hours_num (hm_hp hm) in
  let? b := vA hm "dual" "eq_battery" i in
  let? bprev := vA hm "dual" "eq_battery" (prev H i) in
  let? lprev := vA hm "dual" "limit_battery" (prev H i) in
  let? s := vA hm "aux" "slack_energy_battery" i in
  Ok (CEq (- b + bprev - lprev) s).

Definition slack_energy_PV_row (hm : house) (i : nat) : res constr :=
  let? l := vA hm "dual" "eq_demand" i in
  let? p := vA hm "dual" "limit_PV" i in
  let? s := vA hm "aux" "slack_energy_PV" i in
  Ok (CEq (- l - p) s).

Definition limit_PV_term (hm : house) (i : nat) : res expr :=
  let? p := vA hm "dual" "limit_PV" i in
  let? a := list_at (PV_availabilities (hm_hp hm)) i in
  Ok (p * EConst a).

Definition add_aux_constrs (hm : house) : res house :=
  let hp := hm_hp hm in
  let H := hours_num hp in
  let? '(m, _) := addConstrs (hm_model hm) H (aux_limit_PV_row hm) in
  let? '(m, _) := addConstrs m H (aux_limit_battery_row hm) in
  let? '(m, _) := addConstrs m H (slack_limit_PV_row hm) in
  let? '(m, _) := addConstrs m H (slack_limit_battery_row hm) in
  let? '(m, _) := addConstrs m H (slack_energy_buy_row hm) in
  let? '(m, _) := addConstrs m H (slack_energy_sell_row hm) in
  let? '(m, _) := addConstrs m H (slack_energy_battery_out_row hm) in
  let? '(m, _) := addConstrs m H (slack_energy_battery_in_row hm) in
  let? '(m, _) := addConstrs m H (slack_energy_battery_row hm) in
  let? '(m, _) := addConstrs m H (slack_energy_PV_row hm) in
  let? tb := rmap (vA hm "dual" "limit_battery") (seq 0 H) in
  let? cB := cost_battery hp in
  let? sb := vS hm "aux" "slack_capacity_battery" in
  let '(m, _) := addConstr m (CEq (py_sum tb + EConst cB) sb) in
  let? tp := rmap (limit_PV_term hm) (seq 0 H) in
  let? cPV := cost_PV hp in
  let? sp := vS hm "aux" "slack_capacity_PV" in
  let '(m, _) := addConstr m (CEq (py_sum tp + EConst cPV) sp) in
  Ok (with_model hm m).

(* ================================================================== *)
(** ** The ten complementarity pairs, in the order the source lists them *)

(** A pair: the [cs]/[sos] key, the non-negative quantity (group, key, and
    whether it is taken at hour [range(H)[i-1]]), and its slack in [aux]. *)
Inductive cs_pair :=
| PerHour (key : string) (ga ka : string) (at_prev : bool) (ks : string)
| Scalar (key : string) (ga ka : string) (ks : string).

Definition cs_pairs : list cs_pair :=
  [ PerHour "limit_PV" "aux" "limit_PV" false "slack_limit_PV";
    PerHour "limit_battery" "aux" "limit_battery" false "slack_limit_battery";
    PerHour "energy_buy" "primal" "energy_buy" false "slack_energy_buy";
    PerHour "energy_sell" "primal" "energy_sell" false "slack_energy_sell";
    PerHour "energy_battery_out" "primal" "energy_battery_out" false
            "slack_energy_battery_out";
    PerHour "energy_battery_in" "primal" "energy_battery_in" false
            "slack_energy_battery_in";
    PerHour "energy_battery" "primal" "energy_battery" true "slack_energy_battery";
    PerHour "energy_PV" "primal" "energy_PV" false "slack_energy_PV";
    Scalar "capacity_battery" "primal" "capacity_battery" "slack_capacity_battery";
    Scalar "capacity_PV" "primal" "capacity_PV" "slack_capacity_PV" ].

(** [add_bigM_constrs(M)]: per pair, all "var" rows, then all "con" rows. *)
Definition bigM_pair (hm : house) (M : Q) (m : gmodel) (p : cs_pair) : res gmodel :=
  let H := hours_num (hm_hp hm) in
  match p with
  | PerHour key ga ka pr ks =>
      let? '(m, _) := addConstrs m H (fun i =>
           let? a := vA hm ga ka (if pr then prev H i else i) in
           let? z := vA hm "cs" key i in
           Ok (CLe a (z * EConst M))) in
      let? '(m, _) := addConstrs m H (fun i =>
           let? s := vA hm "aux" ks i in
           let? z := vA hm "cs" key i in
           Ok (CLe s ((EConst 1 - z) * EConst M))) in
      Ok m
  | Scalar key ga ka ks =>
      let? a := vS hm ga ka in
      let? z := vS hm "cs" key in
      let '(m, _) := addConstr m (CLe a (z * EConst M)) in
      let? s := vS hm "aux" ks in
      let '(m, _) := addConstr m (CLe s ((EConst 1 - z) * EConst M)) in
      Ok m
  end.

Fixpoint fold_pairs (f : gmodel -> cs_pair -> res gmodel) (m : gmodel)
  (ps : list cs_pair) : res gmodel :=
  match ps with
  | [] => Ok m
  | p :: ps' => let? m := f m p in fold_pairs f m ps'
  end.

Definition add_bigM_constrs (hm : house) (M : Q) : res house :=
  let? m := fold_pairs (bigM_pair hm M) (hm_model hm) cs_pairs in
  Ok (with_model hm (setParam m "IntFeasTol" (1 # 1000000000))).

(** [add_sos_constrs]: one SOS1 set per pair and hour. *)
Definition sos_pair (hm : house) (m : gmodel) (p : cs_pair) : res gmodel :=
  let H := hours_num (hm_hp hm) in
  match p with
  | PerHour key ga ka pr ks =>
      let? '(m, _) := addConstrs m H (fun i =>
           let? a := getv hm ga ka (if pr then prev H i else i) in
           let? s := getv hm "aux" ks i in
           Ok (CSOS1 [a; s])) in
      Ok m
  | Scalar key ga ka ks =>
      let? a := gets hm ga ka in
      let? s := gets hm "aux" ks in
      Ok (fst (addConstr m (CSOS1 [a; s])))
  end.

Definition add_sos_constrs (hm : house) : res house :=
  let? m := fold_pairs (sos_pair hm) (hm_model hm) cs_pairs in
  Ok (with_model hm (setParam m "PreSOS1BigM" 0)).

(* ================================================================== *)
(** ** [add_valid_ineq_constr], [fix_vars], [release_vars] *)

(** The cut [obj["primal"] <= sum(eq_demand[i]*demands[i]*total_demand*(1+ub[i]))]. *)
Definition valid_ineq_rhs (hm : house) (ubs : list Q) : res expr :=
  let? ts := rmap (fun i => let? u := list_at ubs i in
                            dual_obj_term hm i (EConst (1 + u)%Q))
                  (seq 0 (hours_num (hm_hp hm))) in
  Ok (py_sum ts).

Definition add_valid_ineq_constr (hm : house) (ubs : list Q) : res house :=
  let? po := dict_at "primal" (hm_obj hm) in
  let? rhs := valid_ineq_rhs hm ubs in
  Ok (with_model hm (fst (addConstr (hm_model hm) (CLe po rhs)))).

(** The variables of a group, flattened in dictionary order. *)
Definition slot_vars (s : vslot) : list var :=
  match s with VOne v => [v] | VMany vs => vs end.

Definition group_vars (grp : list (string * vslot)) : list var :=
  flat_map (fun kv => slot_vars (snd kv)) grp.

(** [var.X]. *)
Definition var_X (hm : house) (v : var) : res Q :=
  match hm_sol hm with Some x => Ok (x v) | None => Err AttributeError end.

(** The pinning row of one variable. *)
Definition fix_row (hm : house) (fix_value : option Q) (v : var) : res constr :=
  match fix_value with
  | None => let? x := var_X hm v in Ok (CEq (EConst x) (EVar v))
  | Some q => Ok (CEq (EConst q) (EVar v))
  end.

Definition fix_vars (hm : house) (name : string) (fix_value : option Q) : res house :=
  let? grp := dict_at name (hm_vars hm) in
  let? cs := rmap (fix_row hm fix_value) (group_vars grp) in
  let '(m, ids) := addConstrList (hm_model hm) cs in
  Ok (with_fix hm m (dict_set name ids (hm_fix hm))).

Definition release_vars (hm : house) (name : string) : res house :=
  let? ids := dict_at name (hm_fix hm) in
  let m := fold_left removeConstr ids (hm_model hm) in
  Ok (with_fix hm m (dict_del name (hm_fix hm))).

(* ================================================================== *)
(** ** Objectives and solution read-out *)

Definition set_obj (hm : house) (name : string) : res house :=
  let? s := if existsb (String.eqb name) ["primal"; "upper_level"; "PADM"]
            then Ok MINIMIZE
            else if existsb (String.eqb name) ["dual"] then Ok MAXIMIZE
            else Err (PyException (String.append name
                                     " objective function isn't defined")) in
  let? o := dict_at name (hm_obj hm) in
  Ok (with_model hm (setObjective (hm_model hm) o s)).

Definition set_PADM_obj (hm : house) (mu : Q) : res house :=
  let? u := dict_at "upper_level" (hm_obj hm) in
  let? p := dict_at "primal" (hm_obj hm) in
  let? d := dict_at "dual" (hm_obj hm) in
  Ok (with_model hm (setObjective (hm_model hm) (u + EConst mu * (p - d)) MINIMIZE)).

Definition set_valid_ineq_obj (hm : house) (i : nat) : res house :=
  let? dv := vA hm "upper_level" "delta" i in
  Ok (with_model hm (setObjective (hm_model hm) dv MAXIMIZE)).

(** [get_obj_value(name)]: the model objective ([None]) or [self.obj[name]]
    at the last solution. *)
Definition get_obj_value (hm : house) (name : option string) : res Q :=
  let? e := match name with
            | None => Ok (m_obj (hm_model hm))
            | Some n => dict_at n (hm_obj hm)
            end in
  match hm_sol hm with
  | Some x => Ok (eval x e)
  | None => Err AttributeError
  end.

(** Python values returned by [get_values] and printed. *)
Inductive pyval := PFloat (q : Q) | PList (l : list Q).

Definition get_values (hm : house) (name : string) : res (list (string * pyval)) :=
  let? grp := dict_at name (hm_vars hm) in
  rmap (fun kv => match snd kv with
                  | VOne v => let? x := var_X hm v in Ok (fst kv, PFloat x)
                  | VMany vs => let? xs := rmap (var_X hm) vs in Ok (fst kv, PList xs)
                  end) grp.

Definition get_demands (hm : house) : res (list Q) :=
  let hp := hm_hp hm in
  rmap (fun i => let? d := list_at (demands hp) i in Ok (total_demand hp * d)%Q)
       (seq 0 (hours_num hp)).

Definition get_changed_demands (hm : house) : res (list Q) :=
  let hp := hm_hp hm in
  rmap (fun i => let? d := list_at (demands hp) i in
                 let? v := getv hm "upper_level" "delta" i in
                 let? x := var_X hm v in
                 Ok (total_demand hp * (d * (1 + x)))%Q)
       (seq 0 (hours_num hp)).

Local Close Scope expr_scope.

(* ================================================================== *)
(** ** The world: the solver calls and the console *)

Inductive printed :=
| PrVal (v : pyval)                (* print(value) *)
| PrCounter (label : string) (n : Z). (* print(f"j = {j}") *)

Record world := mkworld {
  w_solves : list gmodel;          (* every model handed to optimize(), in order *)
  w_out : list printed }.

Definition M (A : Type) : Type := world -> res (A * world).

Definition mret {A} (a : A) : M A := fun w => Ok (a, w).
Definition mbind {A B} (m : M A) (k : A -> M B) : M B :=
  fun w => match m w with Ok (a, w') => k a w' | Err e => Err e end.
Definition lift {A} (r : res A) : M A :=
  fun w => match r with Ok a => Ok (a, w) | Err e => Err e end.
Definition print (p : printed) : M unit :=
  fun w => Ok (tt, mkworld (w_solves w) (w_out w ++ [p])).
Definition print_val (r : res pyval) : M unit := mbind (lift r) (fun v => print (PrVal v)).

Notation "x <- m ;; k" := (mbind m (fun x => k))
  (at level 61, m at next level, right associativity).
Notation "' p <- m ;; k" := (mbind m (fun x => match x with p => k end))
  (at level 61, p pattern, m at next level, right associativity).

Definition Qltb (a b : Q) : bool := negb (Qle_bool b a).

Section Solving.

(** The external solver: for a model, a status and possibly a solution. *)
Variable solver : gmodel -> solve_result.

(** [HouseModel.solve]: [self.model.optimize(); return self.model.status]. *)
Definition solve (hm : house) : M (house * status) :=
  fun w =>
    let r := solver (hm_model hm) in
    Ok ((mkhouse (hm_hp hm) (hm_model hm) (snd r) (hm_vars hm)
                 (hm_obj hm) (hm_fix hm), fst r),
        mkworld (w_solves w ++ [hm_model hm]) (w_out w)).

Definition value_of (r : res (list (string * pyval))) (k : string) : res pyval :=
  let? d := r in dict_at k d.

(* ------------------------------------------------------------------ *)
(** *** [Control.primal_model], [Control.dual_model] *)

Definition primal_model_build (hp : HouseParams) (ap : AttackParams) : res house :=
  let? hm := add_vars ap (init_house hp) in
  let? hm := add_primal_constrs hm in
  let? hm := fix_vars hm "upper_level" (Some 0) in
  set_obj hm "primal".

Definition primal_model (hp : HouseParams) (ap : AttackParams) : M unit :=
  hm <- lift (primal_model_build hp ap) ;;
  '(hm, _) <- solve hm ;;
  _ <- print_val (value_of (get_values hm "primal") "capacity_battery") ;;
  _ <- print_val (value_of (get_values hm "primal") "capacity_PV") ;;
  mret tt.

Definition dual_model_build (hp : HouseParams) (ap : AttackParams) : res house :=
  let? hm := add_vars ap (init_house hp) in
  let? hm := add_dual_constrs hm in
  let? hm := fix_vars hm "upper_level" (Some 0) in
  set_obj hm "dual".

Definition dual_model (hp : HouseParams) (ap : AttackParams) : M unit :=
  hm <- lift (dual_model_build hp ap) ;;
  '(hm, _) <- solve hm ;;
  _ <- lift (get_values hm "dual") ;;
  mret tt.

(* ------------------------------------------------------------------ *)
(** *** [Control.bigM_attack], [Control.sos_attack] *)

(** The KKT reformulation without the complementarity encoding. *)
Definition kkt_build (hp : HouseParams) (ap : AttackParams) : res house :=
  let? hm := add_vars ap (init_house hp) in
  let? hm := add_upper_level_constrs ap hm in
  let? hm := add_primal_constrs hm in
  let? hm := add_dual_constrs hm in
  add_aux_constrs hm.

Definition bigM_attack_build (hp : HouseParams) (ap : AttackParams) (bigM : Q)
  : res house :=
  let? hm := kkt_build hp ap in
  let? hm := add_bigM_constrs hm bigM in
  set_obj hm "upper_level".

Definition bigM_attack (hp : HouseParams) (ap : AttackParams) (bigM : Q)
  : M (list (string * pyval)) :=
  hm <- lift (bigM_attack_build hp ap bigM) ;;
  '(hm, _) <- solve hm ;;
  _ <- print_val (let? q := get_obj_value hm (Some "primal") in Ok (PFloat q)) ;;
  _ <- print_val (let? q := get_obj_value hm (Some "dual") in Ok (PFloat q)) ;;
  _ <- print_val (value_of (get_values hm "primal") "capacity_battery") ;;
  _ <- print_val (value_of (get_values hm "primal") "capacity_PV") ;;
  ds <- lift (get_demands hm) ;;
  cds <- lift (get_changed_demands hm) ;;
  pv <- lift (value_of (get_values hm "primal") "energy_PV") ;;
  bat <- lift (value_of (get_values hm "primal") "energy_battery") ;;
  buy <- lift (value_of (get_values hm "primal") "energy_buy") ;;
  sell <- lift (value_of (get_values hm "primal") "energy_sell") ;;
  mret [("demands", PList ds); ("changed_demands", PList cds); ("PV", pv);
        ("battery", bat); ("buy", buy); ("sell", sell)].

Definition sos_attack_build (hp : HouseParams) (ap : AttackParams) : res house :=
  let? hm := kkt_build hp ap in
  let? hm := add_sos_constrs hm in
  set_obj hm "upper_level".

Definition sos_attack (hp : HouseParams) (ap : AttackParams)
  : M (list (string * pyval)) :=
  hm <- lift (sos_attack_build hp ap) ;;
  '(hm, _) <- solve hm ;;
  _ <- print_val (let? q := get_obj_value hm (Some "primal") in Ok (PFloat q)) ;;
  _ <- print_val (let? q := get_obj_value hm (Some "dual") in Ok (PFloat q)) ;;
  ds <- lift (get_demands hm) ;;
  cds <- lift (get_changed_demands hm) ;;
  pv <- lift (value_of (get_values hm "primal") "energy_PV") ;;
  bat <- lift (value_of (get_values hm "primal") "energy_battery") ;;
  buy <- lift (value_of (get_values hm "primal") "energy_buy") ;;
  mret [("demands", PList ds); ("changed_demands", PList cds); ("PV", pv);
        ("battery", bat); ("buy", buy)].

(* ------------------------------------------------------------------ *)
(** *** [Control.get_ub_valid_ineq], [Control.sos_valid_ineq_attack] *)

Definition ub_model_build (hp : HouseParams) (ap : AttackParams) : res house :=
  let hm := init_house hp in
  let hm := with_model hm (setParam (hm_model hm) "LogToConsole" 0) in
  let? hm := add_vars ap hm in
  let? hm := add_upper_level_constrs ap hm in
  add_primal_constrs hm.

(** [for i in range(len(demands)): set_valid_ineq_obj(i); solve(); ub.append(...)]. *)
Fixpoint ub_loop (hm : house) (is : list nat) : M (house * list Q) :=
  match is with
  | [] => mret (hm, [])
  | i :: is' =>
      hm <- lift (set_valid_ineq_obj hm i) ;;
      '(hm, _) <- solve hm ;;
      u <- lift (get_obj_value hm None) ;;
      '(hm, us) <- ub_loop hm is' ;;
      mret (hm, u :: us)
  end.

Definition get_ub_valid_ineq (hp : HouseParams) (ap : AttackParams) : M (list Q) :=
  hm <- lift (ub_model_build hp ap) ;;
  '(_, us) <- ub_loop hm (seq 0 (length (demands hp))) ;;
  mret us.

Definition sos_valid_ineq_build (hp : HouseParams) (ap : AttackParams) : res house :=
  let? hm := kkt_build hp ap in
  add_sos_constrs hm.

Definition sos_valid_ineq_attack (hp : HouseParams) (ap : AttackParams) : M unit :=
  hm <- lift (sos_valid_ineq_build hp ap) ;;
  ubs <- get_ub_valid_ineq hp ap ;;
  hm <- lift (add_valid_ineq_constr hm ubs) ;;
  '(hm, _) <- solve hm ;;
  _ <- print_val (let? q := get_obj_value hm (Some "primal") in Ok (PFloat q)) ;;
  _ <- print_val (let? q := get_obj_value hm (Some "dual") in Ok (PFloat q)) ;;
  mret tt.

(* ------------------------------------------------------------------ *)
(** *** [Control.diff_values] and [Control.PADM_attack] *)

(** Python floats compared against [-float('inf')]. *)
Inductive xq := NegInf | Fin (q : Q).

Definition xmax (a b : xq) : xq :=
  match a, b with
  | NegInf, _ => b
  | _, NegInf => a
  | Fin x, Fin y => if Qle_bool y x then a else b
  end.

Definition xltb (a : xq) (b : Q) : bool :=
  match a with NegInf => true | Fin x => Qltb x b end.

(** [max(...)] of a non-empty sequence. *)
Definition py_max (l : list Q) : res Q :=
  match l with
  | [] => Err ValueError
  | x :: l' => Ok (fold_left (fun m y => if Qle_bool y m then m else y) l' x)
  end.

(** [np.array(values[key])] (a float is wrapped into a one-element array). *)
Definition as_array (v : pyval) : list Q :=
  match v with PFloat q => [q] | PList l => l end.

(** [list_A - list_B]; both snapshots come from one model, a shape mismatch
    raises. *)
Definition array_sub (a b : list Q) : res (list Q) :=
  if Nat.eqb (length a) (length b) then Ok (map (fun p => fst p - snd p) (combine a b))
  else Err ValueError.

Definition diff_values (A B : list (string * pyval)) : res xq :=
  fold_left (fun acc kv =>
               let? max_diff := acc in
               let? b := dict_at (fst kv) B in
               let? d := array_sub (as_array (snd kv)) (as_array b) in
               let? list_diff := py_max d in
               Ok (xmax max_diff (Fin list_diff)))
            A (Ok NegInf).

Definition snapshot := list (string * pyval).

(** A record of one inner iteration and of one outer iteration.  [PADM_attack]
    returns [None]; the embedding returns this log of the loop decisions. *)
Record inner_iter := mkinner {
  ii_i : Z;
  ii_old : snapshot * snapshot * snapshot;   (* primal, dual, upper level *)
  ii_new : snapshot * snapshot * snapshot;
  ii_diff : xq }.

Record outer_iter := mkouter {
  oi_j : Z;
  oi_mu : Q;
  oi_inner : list inner_iter;
  oi_primal : Q;
  oi_dual : Q;
  oi_gap : Q }.

Variable pp : PADM_Params.

Fixpoint inner_loop (fuel : nat) (mu : Q) (i : Z) (hm : house)
  (pv dv uv : snapshot) : M (house * snapshot * snapshot * snapshot * list inner_iter) :=
  match fuel with
  | O => lift (Err (PyException "iteration bound"))
  | S fuel' =>
      let i := (i + 1)%Z in
      _ <- print (PrCounter "i" i) ;;
      hm <- lift (set_PADM_obj hm mu) ;;
      (* fix dual and solve *)
      hm <- lift (fix_vars hm "dual" None) ;;
      '(hm, _) <- solve hm ;;
      npv <- lift (get_values hm "primal") ;;
      nuv <- lift (get_values hm "upper_level") ;;
      hm <- lift (release_vars hm "dual") ;;
      (* fix primal and upper_level and solve *)
      hm <- lift (fix_vars hm "primal" None) ;;
      hm <- lift (fix_vars hm "upper_level" None) ;;
      '(hm, _) <- solve hm ;;
      ndv <- lift (get_values hm "dual") ;;
      hm <- lift (release_vars hm "primal") ;;
      hm <- lift (release_vars hm "upper_level") ;;
      primal_diff <- lift (diff_values pv npv) ;;
      dual_diff <- lift (diff_values dv ndv) ;;
      upper_level_diff <- lift (diff_values uv nuv) ;;
      let diff := xmax (xmax primal_diff dual_diff) upper_level_diff in
      let r := mkinner i (pv, dv, uv) (npv, ndv, nuv) diff in
      if xltb diff (stationary_error pp) || Z.leb (max_stationary_iter pp) i
      then mret (hm, npv, ndv, nuv, [r])
      else '(hm, pv', dv', uv', rs) <- inner_loop fuel' mu i hm npv ndv nuv ;;
           mret (hm, pv', dv', uv', r :: rs)
  end.

(** [abs((primal_obj_value - dual_obj_value)/primal_obj_value)]. *)
Definition rel_gap (p d : Q) : res Q :=
  if Qeq_bool p 0 then Err ZeroDivisionError else Ok (Qabs ((p - d) / p)).

Fixpoint outer_loop (fuel : nat) (mu : Q) (j : Z) (hm : house)
  (pv dv uv : snapshot) : M (house * list outer_iter) :=
  match fuel with
  | O => lift (Err (PyException "iteration bound"))
  | S fuel' =>
      let j := (j + 1)%Z in
      _ <- print (PrCounter "j" j) ;;
      '(hm, pv, dv, uv, inner) <-
          inner_loop (S (Z.to_nat (max_stationary_iter pp))) mu 0 hm pv dv uv ;;
      p <- lift (get_obj_value hm (Some "primal")) ;;
      d <- lift (get_obj_value hm (Some "dual")) ;;
      gap <- lift (rel_gap p d) ;;
      let r := mkouter j mu inner p d gap in
      if Qltb gap (penalty_error pp) || Z.leb (max_penalty_iter pp) j
      then mret (hm, [r])
      else '(hm, rs) <- outer_loop fuel' (mu * increase_factor pp) j hm pv dv uv ;;
           mret (hm, r :: rs)
  end.

Definition PADM_start (hp : HouseParams) (ap : AttackParams) : res house :=
  let hm := init_house hp in
  let hm := with_model hm (setParam (hm_model hm) "LogToConsole" 0) in
  let? hm := add_vars ap hm in
  let? hm := add_upper_level_constrs ap hm in
  let? hm := add_primal_constrs hm in
  let? hm := add_dual_constrs hm in
  set_obj hm "upper_level".

Definition PADM_attack (hp : HouseParams) (ap : AttackParams) : M (list outer_iter) :=
  hm <- lift (PADM_start hp ap) ;;
  '(hm, _) <- solve hm ;;
  pv <- lift (get_values hm "primal") ;;
  dv <- lift (get_values hm "dual") ;;
  uv <- lift (get_values hm "upper_level") ;;
  '(hm, log) <- outer_loop (S (Z.to_nat (max_penalty_iter pp))) (initial_mu pp) 0
                           hm pv dv uv ;;
  _ <- print_val (let? q := get_obj_value hm (Some "upper_level") in Ok (PFloat q)) ;;
  _ <- print_val (let? q := get_obj_value hm (Some "primal") in Ok (PFloat q)) ;;
  _ <- print_val (let? q := get_obj_value hm (Some "dual") in Ok (PFloat q)) ;;
  _ <- print_val (value_of (get_values hm "primal") "capacity_battery") ;;
  _ <- print_val (value_of (get_values hm "primal") "capacity_PV") ;;
  mret log.

End Solving.

(* ================================================================== *)
(** * Auxiliary definitions and scenarios of the verification *)

Definition satb (x : valuation) (c : constr) : bool :=
  match c with
  | CLe a b => Qle_bool (eval x a) (eval x b)
  | CEq a b => Qeq_bool (eval x a) (eval x b)
  | CAbs r a => Qeq_bool (x r) (Qabs (x a))
  | CSOS1 vs => Nat.leb (length (filter (fun v => negb (Qeq_bool (x v) 0)) vs)) 1
  end.

Definition rows_satb (x : valuation) (m : gmodel) : bool :=
  forallb (fun r => satb x (snd r)) (m_rows m).

(** The model only grows: rows and columns are appended, the objective is
    untouched and identities stay fresh. *)
Definition grows (m m' : gmodel) : Prop :=
  (exists rs, m_rows m' = m_rows m ++ rs /\
              Forall (fun r => (m_next m <= fst r < m_next m')%nat) rs) /\
  (exists cs, m_cols m' = m_cols m ++ cs) /\
  m_obj m' = m_obj m /\ m_sense m' = m_sense m /\ (m_next m <= m_next m')%nat.

(** The state after the KKT part of an attack. *)
Definition objs_ok (hm : house) : Prop :=
  (exists o, dict_get "upper_level" (hm_obj hm) = Some o /\ upper_level_obj hm = Ok o) /\
  (exists o, dict_get "primal" (hm_obj hm) = Some o /\ primal_obj hm = Ok o) /\
  (exists o, dict_get "dual" (hm_obj hm) = Some o /\ dual_obj hm = Ok o).

(** The value [fix_vars] pins a variable to. *)
Definition pin_value (hm : house) (fix_value : option Q) (v : var) : Q :=
  match fix_value with
  | Some q => q
  | None => match hm_sol hm with Some x => x v | None => 0 end
  end.

Definition block (name : string) (H : nat) (l u : Q) (ty : vtype) : list column :=
  map (fun i => mkcol name (Some i) l u ty) (seq 0 H).

Definition single (name : string) (l u : Q) (ty : vtype) : list column :=
  [mkcol name None l u ty].

(** The columns [add_vars] creates on a fresh model, for scalar bounds. *)
Definition layout_cols (H : nat) (l u : Q) : list column :=
  let NI := (- GRB_INFINITY)%Q in
  let I := GRB_INFINITY in
  block "delta" H l u CONTINUOUS ++ block "abs" H NI I CONTINUOUS ++
  block "energy_PV" H 0 I CONTINUOUS ++ block "energy_battery" H 0 I CONTINUOUS ++
  block "energy_battery_in" H 0 I CONTINUOUS ++ block "energy_battery_out" H 0 I CONTINUOUS ++
  block "energy_buy" H 0 I CONTINUOUS ++ block "energy_sell" H 0 I CONTINUOUS ++
  single "capacity_battery" 0 I CONTINUOUS ++ single "capacity_PV" 0 I CONTINUOUS ++
  block "limit_battery" H NI 0 CONTINUOUS ++ block "limit_PV" H NI 0 CONTINUOUS ++
  block "eq_battery" H NI I CONTINUOUS ++ block "eq_demand" H NI I CONTINUOUS ++
  block "aux_limit_PV" H 0 I CONTINUOUS ++ block "aux_limit_battery" H 0 I CONTINUOUS ++
  block "slack_limit_PV" H 0 I CONTINUOUS ++ block "slack_limit_battery" H 0 I CONTINUOUS ++
  block "slack_energy_buy" H 0 I CONTINUOUS ++ block "slack_energy_sell" H 0 I CONTINUOUS ++
  block "slack_energy_battery_out" H 0 I CONTINUOUS ++
  block "slack_energy_battery_in" H 0 I CONTINUOUS ++
  block "slack_energy_battery" H 0 I CONTINUOUS ++ block "slack_energy_PV" H 0 I CONTINUOUS ++
  single "slack_capacity_PV" 0 I CONTINUOUS ++ single "slack_capacity_battery" 0 I CONTINUOUS ++
  block "cs_limit_PV" H 0 1 BINARY ++ block "cs_limit_battery" H 0 1 BINARY ++
  block "cs_energy_buy" H 0 1 BINARY ++ block "cs_energy_sell" H 0 1 BINARY ++
  block "cs_energy_battery_out" H 0 1 BINARY ++ block "cs_energy_battery_in" H 0 1 BINARY ++
  block "cs_energy_battery" H 0 1 BINARY ++ block "cs_energy_PV" H 0 1 BINARY ++
  single "cs_limit_PV" 0 1 BINARY ++ single "cs_limit_battery" 0 1 BINARY.

Definition layout_vars (H : nat) : list (string * list (string * vslot)) :=
  [("upper_level", [("delta", VMany (seq 0 H)); ("abs", VMany (seq H H))]);
   ("primal", [("energy_PV", VMany (seq (2*H) H)); ("energy_battery", VMany (seq (3*H) H));
               ("energy_battery_in", VMany (seq (4*H) H));
               ("energy_battery_out", VMany (seq (5*H) H));
               ("energy_buy", VMany (seq (6*H) H)); ("energy_sell", VMany (seq (7*H) H));
               ("capacity_battery", VOne (8*H)%nat); ("capacity_PV", VOne (8*H+1)%nat)]);
   ("dual", [("limit_battery", VMany (seq (8*H+2) H)); ("limit_PV", VMany (seq (9*H+2) H));
             ("eq_battery", VMany (seq (10*H+2) H)); ("eq_demand", VMany (seq (11*H+2) H))]);
   ("aux", [("limit_PV", VMany (seq (12*H+2) H)); ("limit_battery", VMany (seq (13*H+2) H));
            ("slack_limit_PV", VMany (seq (14*H+2) H));
            ("slack_limit_battery", VMany (seq (15*H+2) H));
            ("slack_energy_buy", VMany (seq (16*H+2) H));
            ("slack_energy_sell", VMany (seq (17*H+2) H));
            ("slack_energy_battery_out", VMany (seq (18*H+2) H));
            ("slack_energy_battery_in", VMany (seq (19*H+2) H));
            ("slack_energy_battery", VMany (seq (20*H+2) H));
            ("slack_energy_PV", VMany (seq (21*H+2) H));
            ("slack_capacity_PV", VOne (22*H+2)%nat); ("slack_capacity_battery", VOne (22*H+3)%nat)]);
   ("cs", [("limit_PV", VMany (seq (22*H+4) H)); ("limit_battery", VMany (seq (23*H+4) H));
           ("energy_buy", VMany (seq (24*H+4) H)); ("energy_sell", VMany (seq (25*H+4) H));
           ("energy_battery_out", VMany (seq (26*H+4) H));
           ("energy_battery_in", VMany (seq (27*H+4) H));
           ("energy_battery", VMany (seq (28*H+4) H)); ("energy_PV", VMany (seq (29*H+4) H));
           ("capacity_PV", VOne (30*H+4)%nat); ("capacity_battery", VOne (30*H+5)%nat)])].

Definition hp_two : HouseParams :=
  mkHouseParams 10 1 1 (1#4) (1#20) 3500 [1#2; 1#2] [0; 1#2].

Definition hp_short_PV : HouseParams :=
  mkHouseParams 10 1 1 (1#4) (1#20) 3500 [1#2; 1#2] [0].

Definition hp_long_PV : HouseParams :=
  mkHouseParams 10 1 1 (1#4) (1#20) 3500 [1#2; 1#2] [0; 1#2; 1].

Definition ap_inverted : AttackParams :=
  mkAttackParams None None (QScalar 1) (QScalar 0) 1 GRB_INFINITY.

Definition solver_zero (st : status) : gmodel -> solve_result :=
  fun _ => (st, Some (fun _ => 0%Q)).

Definition world0 : world := mkworld [] [].

Definition norm_solver (s : gmodel -> solve_result) : gmodel -> solve_result :=
  fun m => (LOADED, snd (s m)).

Definition zero_sol_house (r : res house) : house :=
  match r with
  | Ok hm => mkhouse (hm_hp hm) (hm_model hm) (Some (fun _ => 0%Q)) (hm_vars hm)
                     (hm_obj hm) (hm_fix hm)
  | Err _ => init_house hp_two
  end.

Definition padm_house : house :=
  Eval vm_compute in zero_sol_house (PADM_start hp_two default_attack).

Definition snap (r : res snapshot) : snapshot :=
  match r with Ok s => s | Err _ => [] end.

Definition house_of (r : res house) : house :=
  match r with Ok hm => hm | Err _ => init_house hp_two end.

Definition hp_two_vars : house :=
  Eval vm_compute in house_of (add_vars default_attack (init_house hp_two)).

Definition hp_two_primal : house :=
  Eval vm_compute in house_of (add_primal_constrs hp_two_vars).

(** A dispatch for [hp_two]: the battery holds 3 then 5, charging 2 in hour 1
    and discharging 2 in hour 0; the purchases cover the rest. *)
Definition x_battery (v : var) : Q :=
  match v with
  | 6%nat => 3 | 7%nat => 5 | 9%nat => 2 | 10%nat => 2
  | 12%nat => 1748 | 13%nat => 1752 | 16%nat => 5
  | _ => 0
  end.

Definition hp_two_fixed : house :=
  Eval vm_compute in house_of (fix_vars hp_two_primal "upper_level" (Some 0)).

Definition ub_model_for (hm : house) (i : nat) : gmodel :=
  setObjective (hm_model hm) (EVar (var_at hm "upper_level" "delta" i)) MAXIMIZE.

(** [d] is the largest value satisfying [S] ([NegInf]: none does). *)
Definition xq_is_max (S : Q -> Prop) (d : xq) : Prop :=
  match d with
  | NegInf => forall q, ~ S q
  | Fin q => S q /\ forall q', S q' -> q' <= q
  end.

(** [q] is the decrease [A[k][j] - B[k][j]] of one component. *)
Definition decrease_of (A B : snapshot) (q : Q) : Prop :=
  exists k a b j u v, In (k, a) A /\ dict_get k B = Some b /\
    nth_error (as_array a) j = Some u /\ nth_error (as_array b) j = Some v /\ q = u - v.

Definition snaps : Type := (snapshot * snapshot * snapshot)%type.

(** The exit test of the inner loop, [diff < stationary_error]. *)
Definition diff_below (d : xq) (se : Q) : Prop :=
  match d with NegInf => True | Fin q => q < se end.

(** The largest decrease over the primal, dual and upper-level snapshots. *)
Definition diff_ok (old new : snaps) (d : xq) : Prop :=
  let '(p, du, u) := old in
  let '(p', du', u') := new in
  xq_is_max (fun q => decrease_of p p' q \/ decrease_of du du' q \/ decrease_of u u' q) d.

Fixpoint inner_ok (se : Q) (msi i0 : Z) (old : snaps) (rs : list inner_iter) : Prop :=
  match rs with
  | [] => False
  | r :: rs' =>
      ii_i r = (i0 + 1)%Z /\ ii_old r = old /\ diff_ok (ii_old r) (ii_new r) (ii_diff r) /\
      match rs' with
      | [] => diff_below (ii_diff r) se \/ (msi <= ii_i r)%Z
      | _ => ~ (diff_below (ii_diff r) se \/ (msi <= ii_i r)%Z) /\
             inner_ok se msi (ii_i r) (ii_new r) rs'
      end
  end.

Definition last_new (old : snaps) (rs : list inner_iter) : snaps := last (map ii_new rs) old.

Fixpoint outer_ok (pp : PADM_Params) (mu : Q) (j0 : Z) (old : snaps) (rs : list outer_iter)
  : Prop :=
  match rs with
  | [] => False
  | r :: rs' =>
      oi_j r = (j0 + 1)%Z /\ oi_mu r = mu /\
      inner_ok (stationary_error pp) (max_stationary_iter pp) 0 old (oi_inner r) /\
      ~ (oi_primal r == 0) /\
      oi_gap r == Qabs (oi_primal r - oi_dual r) / Qabs (oi_primal r) /\
      match rs' with
      | [] => oi_gap r < penalty_error pp \/ (max_penalty_iter pp <= oi_j r)%Z
      | _ => ~ (oi_gap r < penalty_error pp \/ (max_penalty_iter pp <= oi_j r)%Z) /\
             outer_ok pp (mu * increase_factor pp) (oi_j r) (last_new old (oi_inner r)) rs'
      end
  end.

Definition solver_const (c : Q) : gmodel -> solve_result :=
  fun _ => (OPTIMAL, Some (fun _ => c)).

Definition PADM_three : PADM_Params := mkPADMParams 1 2 3 15 (1#10000) (1#10000).

(** [q_0 + q_1 + ... + q_(n-1)], summed from the left as [sum] does. *)
Fixpoint qsum (f : nat -> Q) (n : nat) : Q :=
  match n with
  | O => 0
  | S n' => qsum f n' + f n'
  end.

(** *** Every row of the primal model, and only those *)

Definition primal_row (hm : house) (c : constr) : Prop :=
  exists i, (i < hours_num (hm_hp hm))%nat /\
    (eq_demand_row hm i = Ok c \/ eq_battery_row hm i = Ok c \/
     limit_PV_row hm i = Ok c \/ limit_battery_row hm i = Ok c).

(** The dispatch that buys every hour's demand and does nothing else. *)
Definition baseline_point (hp : HouseParams) (v : var) : Q :=
  let H := hours_num hp in
  if andb (Nat.leb (6 * H) v) (Nat.ltb v (7 * H))
  then nth (v - 6 * H) (demands hp) 0 * total_demand hp
  else 0.

(** The regression scenario of the specification: 24 hours, a uniform
    demand share, no PV, and prices of 0.25 and 0.05. *)
Definition baseline_house (L : Z) (pPV pB : Q) : HouseParams :=
  mkHouseParams L pPV pB (1 # 4) (1 # 20) 3500 (repeat (1 # 24) 24) (repeat 0 24).

Definition ap_no_attack : AttackParams :=
  mkAttackParams None None (QScalar 0) (QScalar 0) 1 GRB_INFINITY.

Definition baseline_model : house :=
  house_of (primal_model_build (baseline_house 10 1 1) ap_no_attack).

(* ------------------------------------------------------------------ *)
(** *** Duality gap, complementarity and bounds checking *)

(** The rows of a model hold at [x]. *)
Definition rows_sat (m : gmodel) (x : valuation) : Prop :=
  forall r, In r (m_rows m) -> sat x (snd r).

(** The value at [x] of [self.vars[g][k][i]] and of [self.vars[g][k]]. *)
Definition xv (x : valuation) (hm : house) (g k : string) (i : nat) : Q :=
  x (var_at hm g k i).

Definition xs (x : valuation) (hm : house) (g k : string) : Q :=
  x (var_s hm g k).

(** The product of the two members of a complementarity pair, summed over
    the hours for a per-hour pair. *)
Definition pair_product (x : valuation) (hm : house) (p : cs_pair) : Q :=
  let H := hours_num (hm_hp hm) in
  match p with
  | PerHour _ ga ka pr ks =>
      qsum (fun i => xv x hm ga ka (if pr then prev H i else i) * xv x hm "aux" ks i) H
  | Scalar _ ga ka ks => xs x hm ga ka * xs x hm "aux" ks
  end.

(** The complementarity products of the ten pairs, summed. *)
Definition cs_gap (x : valuation) (hm : house) : Q :=
  fold_right (fun p acc => pair_product x hm p + acc) 0 cs_pairs.

(** What the two big-M rows of a pair say at an assignment. *)
Definition bigM_rows_hold (x : valuation) (hm : house) (M : Q) (p : cs_pair) : Prop :=
  let H := hours_num (hm_hp hm) in
  match p with
  | PerHour key ga ka pr ks => forall i, (i < H)%nat ->
      xv x hm ga ka (if pr then prev H i else i) <= xv x hm "cs" key i * M /\
      xv x hm "aux" ks i <= (1 - xv x hm "cs" key i) * M
  | Scalar key ga ka ks =>
      xs x hm ga ka <= xs x hm "cs" key * M /\ xs x hm "aux" ks <= (1 - xs x hm "cs" key) * M
  end.

Definition x_kkt (v : var) : Q :=
  match v with
  | 5%nat => 1750 | 12%nat => 1750 | 17%nat => 3500
  | 19%nat => -(1#20) | 20%nat => -(1#4) | 21%nat => -(1#5)
  | 22%nat => 1#4 | 23%nat => 1#5 | 24%nat => 1#4 | 25%nat => 1#5
  | 26%nat => 1#4 | 27%nat => 1#5 | 29%nat => 1#20
  | 35%nat => 1#20 | 36%nat => 1#5 | 37%nat => 3#20 | 43%nat => 1#20 | 47%nat => 1#20
  | 48%nat => 1 | 49%nat => 1 | 51%nat => 1 | 52%nat => 1 | 63%nat => 1 | 64%nat => 1
  | _ => 0
  end.

Definition hp_two_sos : house :=
  Eval vm_compute in house_of (sos_attack_build hp_two default_attack).

Definition hp_two_bigM : house :=
  Eval vm_compute in house_of (bigM_attack_build hp_two default_attack 10000).

Definition hp_two_kkt : house :=
  Eval vm_compute in house_of (kkt_build hp_two default_attack).

Definition in_boundsb (c : column) (q : Q) : bool :=
  (Qle_bool (c_lb c) (- INF_BOUND) || Qle_bool (c_lb c) q) &&
  (Qle_bool INF_BOUND (c_ub c) || Qle_bool q (c_ub c)) &&
  match c_type c with BINARY => Qeq_bool q 0 || Qeq_bool q 1 | CONTINUOUS => true end.

Fixpoint cols_boundsb (x : valuation) (k : nat) (cs : list column) : bool :=
  match cs with
  | [] => true
  | c :: cs => in_boundsb c (x k) && cols_boundsb x (S k) cs
  end.

Definition feasibleb (m : gmodel) (x : valuation) : bool :=
  rows_satb x m && cols_boundsb x 0 (m_cols m).

Definition hp_two_P : house := Eval vm_compute in house_of (primal_model_build hp_two default_attack).

Definition hp_two_D : house := Eval vm_compute in house_of (dual_model_build hp_two default_attack).

Definition solver_kkt : gmodel -> solve_result := fun _ => (OPTIMAL, Some x_kkt).

Definition hp_zero_life : HouseParams :=
  mkHouseParams 0 1 1 (1#4) (1#20) 3500 [1#2; 1#2] [0; 1#2].

Definition snap_upper : snapshot := [("delta", PList [1#10; 0]); ("abs", PList [1#10; 0])].


(* ================================================================== *)
(** * Lemmas and the properties of the specification *)

(* ------------------------------------------------------------------ *)

Lemma satb_sat x c : satb x c = true -> sat x c.
Proof.
  destruct c; simpl; intro H.
  - now apply Qle_bool_imp_le.
  - now apply Qeq_bool_eq.
  - now apply Qeq_bool_eq.
  - now apply Nat.leb_le.
Qed.

Lemma rows_satb_sat x m :
  rows_satb x m = true -> forall r, In r (m_rows m) -> sat x (snd r).
Proof.
  unfold rows_satb; rewrite forallb_forall; intros H r Hr; apply satb_sat; auto.
Qed.

Lemma rbind_ok {A B} (r : res A) (k : A -> res B) b :
  rbind r k = Ok b -> exists a, r = Ok a /\ k a = Ok b.
Proof. destruct r; simpl; [eauto | discriminate]. Qed.

Lemma rmap_ok_nth {A B} (f : A -> res B) xs ys :
  rmap f xs = Ok ys ->
  length ys = length xs /\
  forall k d d', (k < length xs)%nat -> f (nth k xs d) = Ok (nth k ys d').
Proof.
  revert ys; induction xs as [|x xs IH]; simpl; intros ys H.
  - inversion H; subst; split; [reflexivity | intros; lia].
  - apply rbind_ok in H as [y [Hy H]]; apply rbind_ok in H as [ys' [Hys H]].
    inversion H; subst; clear H.
    destruct (IH _ Hys) as [Hl Hn]; split; [simpl; lia|].
    intros [|k] d d' Hk; simpl; [exact Hy|apply Hn; simpl in Hk; lia].
Qed.

Lemma rmap_seq_ok {B} (f : nat -> res B) n ys :
  rmap f (seq 0 n) = Ok ys ->
  length ys = n /\ forall i d, (i < n)%nat -> f i = Ok (nth i ys d).
Proof.
  intro H; apply rmap_ok_nth in H as [Hl Hn]; rewrite length_seq in Hl.
  split; [exact Hl|]; intros i d Hi.
  specialize (Hn i 0%nat d); rewrite length_seq, seq_nth in Hn by lia; auto.
Qed.

Lemma rmap_ok_pure {A B} (g : A -> B) xs :
  rmap (fun x => Ok (g x)) xs = Ok (map g xs).
Proof. induction xs; simpl; [reflexivity | now rewrite IHxs]. Qed.

Lemma rmap_err_at {A B} (f : A -> res B) xs k d e :
  (k < length xs)%nat ->
  (forall j, (j < k)%nat -> exists y, f (nth j xs d) = Ok y) ->
  f (nth k xs d) = Err e -> rmap f xs = Err e.
Proof.
  revert k; induction xs as [|x xs IH]; simpl; intros k Hk Hok He; [lia|].
  destruct k as [|k].
  - simpl in He; now rewrite He.
  - destruct (Hok 0%nat ltac:(lia)) as [y Hy]; simpl in Hy; rewrite Hy; simpl.
    rewrite (IH k); [reflexivity|lia| |exact He].
    intros j Hj; apply (Hok (S j)); lia.
Qed.

Lemma addConstrList_spec m cs m' ids :
  addConstrList m cs = (m', ids) ->
  m_rows m' = m_rows m ++ combine ids cs /\ ids = seq (m_next m) (length cs) /\
  m_next m' = (m_next m + length cs)%nat /\ m_cols m' = m_cols m /\
  m_obj m' = m_obj m /\ m_sense m' = m_sense m /\ m_params m' = m_params m.
Proof.
  revert m m' ids; induction cs as [|c cs IH]; intros m m' ids H; simpl in H.
  - inversion H; subst; rewrite app_nil_r, Nat.add_0_r; repeat split.
  - simpl in H.
    match type of H with context [addConstrList ?m1 cs] =>
      destruct (addConstrList m1 cs) as [m2 ids2] eqn:E end.
    inversion H; subst; clear H.
    apply IH in E as (Hr & Hi & Hn & Hc & Ho & Hs & Hp); simpl in *.
    rewrite Hr, <- app_assoc, Hi, Hn, Hc, Ho, Hs, Hp; simpl.
    repeat split; lia.
Qed.

Lemma addConstrs_spec m n c m' ids :
  addConstrs m n c = Ok (m', ids) ->
  exists cs, rmap c (seq 0 n) = Ok cs /\
  m_rows m' = m_rows m ++ combine ids cs /\ ids = seq (m_next m) (length cs) /\
  m_next m' = (m_next m + length cs)%nat /\ m_cols m' = m_cols m /\
  m_obj m' = m_obj m /\ m_sense m' = m_sense m /\ m_params m' = m_params m.
Proof.
  unfold addConstrs; intro H; apply rbind_ok in H as [cs [Hcs H]].
  exists cs; split; [exact Hcs|]; inversion H.
  apply addConstrList_spec; assumption.
Qed.

(** Each generated row is in the model. *)
Lemma addConstrs_in m n c m' ids :
  addConstrs m n c = Ok (m', ids) ->
  forall i, (i < n)%nat -> exists cst id, c i = Ok cst /\ In (id, cst) (m_rows m').
Proof.
  intros H i Hi; apply addConstrs_spec in H as (cs & Hcs & Hr & Hids & _).
  apply rmap_seq_ok in Hcs as [Hl Hn].
  exists (nth i cs (CSOS1 [])), (nth i ids 0%nat); split; [apply Hn; exact Hi|].
  rewrite Hr; apply in_or_app; right.
  assert (Hli : length ids = length cs) by (rewrite Hids, length_seq; reflexivity).
  rewrite <- combine_nth by exact Hli.
  apply nth_In; rewrite length_combine; lia.
Qed.

Lemma grows_refl m : grows m m.
Proof.
  split; [exists []; rewrite app_nil_r; auto|].
  split; [exists []; now rewrite app_nil_r|]; auto.
Qed.

Lemma grows_trans m1 m2 m3 : grows m1 m2 -> grows m2 m3 -> grows m1 m3.
Proof.
  intros ([rs1 [R1 F1]] & [cs1 C1] & O1 & S1 & N1) ([rs2 [R2 F2]] & [cs2 C2] & O2 & S2 & N2).
  repeat split; try congruence; try lia.
  - exists (rs1 ++ rs2); rewrite R2, R1, app_assoc; split; [reflexivity|].
    apply Forall_app; split; eapply Forall_impl; try eassumption; simpl; intros; lia.
  - exists (cs1 ++ cs2); now rewrite C2, C1, app_assoc.
Qed.

Lemma grows_addConstrs m n c m' ids :
  addConstrs m n c = Ok (m', ids) -> grows m m'.
Proof.
  intro H; apply addConstrs_spec in H as (cs & _ & Hr & Hi & Hn & Hc & Ho & Hs & _).
  repeat split; try congruence; try lia.
  - exists (combine ids cs); split; [exact Hr|].
    apply Forall_forall; intros [id c'] Hin; apply in_combine_l in Hin.
    rewrite Hi in Hin; apply in_seq in Hin; simpl; lia.
  - exists []; now rewrite app_nil_r.
Qed.

Lemma grows_addConstrList m cs m' ids :
  addConstrList m cs = (m', ids) -> grows m m'.
Proof.
  intro H; apply addConstrList_spec in H as (Hr & Hi & Hn & Hc & Ho & Hs & _).
  repeat split; try congruence; try lia.
  - exists (combine ids cs); split; [exact Hr|].
    apply Forall_forall; intros [id c'] Hin; apply in_combine_l in Hin.
    rewrite Hi in Hin; apply in_seq in Hin; simpl; lia.
  - exists []; now rewrite app_nil_r.
Qed.

Lemma grows_snoc m0 m c :
  grows m0 m ->
  grows m0 (mkmodel (m_cols m) (m_rows m ++ [(m_next m, c)]) (S (m_next m))
                    (m_obj m) (m_sense m) (m_params m)).
Proof.
  intro G; eapply grows_trans; [exact G|].
  repeat split; simpl; try lia.
  - exists [(m_next m, c)]; split; [reflexivity|]; constructor; simpl; [lia|constructor].
  - exists []; now rewrite app_nil_r.
Qed.

Lemma grows_param m0 m p :
  grows m0 m ->
  grows m0 (mkmodel (m_cols m) (m_rows m) (m_next m) (m_obj m) (m_sense m) p).
Proof.
  intro G; eapply grows_trans; [exact G|].
  repeat split; simpl; try lia.
  - exists []; rewrite app_nil_r; split; auto.
  - exists []; now rewrite app_nil_r.
Qed.

Lemma grows_cols m0 m cs :
  grows m0 m ->
  grows m0 (mkmodel (m_cols m ++ cs) (m_rows m) (m_next m) (m_obj m) (m_sense m)
                    (m_params m)).
Proof.
  intro G; eapply grows_trans; [exact G|].
  repeat split; simpl; try lia.
  - exists []; rewrite app_nil_r; split; auto.
  - exists cs; reflexivity.
Qed.

(** Taking a chain of [let?] apart. *)
Ltac res_crush H :=
  repeat (simpl in H;
    match type of H with
    | rbind ?r _ = Ok _ =>
        let E := fresh "E" in
        let a := fresh "a" in
        destruct r as [a|] eqn:E; [simpl in H | discriminate H];
        try (match type of a with prod _ _ => destruct a as [? ?]; simpl in H end)
    | match ?o with Some _ => _ | None => _ end = Ok _ =>
        let E := fresh "E" in destruct o eqn:E
    | Ok _ = Ok _ => injection H as H
    end).

Ltac grow_chain :=
  repeat match goal with
  | |- grows ?m ?m => apply grows_refl
  | E : addConstrs ?m1 _ _ = Ok (?m2, _) |- grows _ ?m2 =>
      apply (grows_trans _ m1 m2); [|exact (grows_addConstrs _ _ _ _ _ E)]
  | |- grows _ (mkmodel (m_cols ?m) (m_rows ?m ++ [(m_next ?m, _)]) _ _ _ _) =>
      apply grows_snoc
  | |- grows _ (mkmodel (m_cols ?m) (m_rows ?m) (m_next ?m) (m_obj ?m) (m_sense ?m) _) =>
      apply grows_param
  end.

Lemma add_primal_constrs_shape hm hm' :
  add_primal_constrs hm = Ok hm' ->
  exists m o, hm' = with_obj hm m (dict_set "primal" o (hm_obj hm)) /\
              primal_obj hm = Ok o /\ grows (hm_model hm) m.
Proof.
  unfold add_primal_constrs; intro H; res_crush H.
  subst hm'; do 2 eexists; split; [reflexivity|split; [first [reflexivity|eassumption]|]].
  grow_chain.
Qed.

Lemma grows_addVars m n lb ub ty name m' vs :
  addVars m n lb ub ty name = Ok (m', vs) -> grows m m'.
Proof.
  unfold addVars; intro H; apply rbind_ok in H as [cols [_ H]]; injection H as <- _.
  apply grows_cols, grows_refl.
Qed.

Lemma grows_cols' m0 m cs ps :
  grows m0 m -> (exists ext, cs = m_cols m ++ ext) ->
  grows m0 (mkmodel cs (m_rows m) (m_next m) (m_obj m) (m_sense m) ps).
Proof.
  intros G [ext ->]; eapply grows_trans; [exact G|].
  repeat split; simpl; try lia.
  - exists []; rewrite app_nil_r; split; auto.
  - exists ext; reflexivity.
Qed.

Lemma grows_lit m0 m (cs : list column) (rs : list (nat * constr)) nx ps :
  grows m0 m -> (exists ext, cs = m_cols m ++ ext) ->
  (exists nrs, rs = m_rows m ++ nrs /\
     Forall (fun r : nat * constr => (m_next m <= fst r < nx)%nat) nrs) ->
  (m_next m <= nx)%nat ->
  grows m0 (mkmodel cs rs nx (m_obj m) (m_sense m) ps).
Proof.
  intros G [ext ->] [nrs [-> F]] N; eapply grows_trans; [exact G|].
  repeat split; simpl; try lia; eauto.
Qed.

Ltac grow_chain2 :=
  unfold addVarsD, addVarsB, addVarD, addVarB, addVar in *;
  repeat match goal with
  | |- grows ?m ?m => apply grows_refl
  | |- context [?f (mkmodel _ _ _ _ _ _)] =>
      progress cbn [m_cols m_rows m_next m_obj m_sense m_params]
  | E : mkmodel _ _ _ _ _ _ = ?a |- _ => subst a
  | E : ?g = ?a |- _ => is_var g; is_var a; subst a
  | E : addConstrs ?m1 _ _ = Ok (?m2, _) |- grows _ ?m2 =>
      apply (grows_trans _ m1 m2); [|exact (grows_addConstrs _ _ _ _ _ E)]
  | E : addVars ?m1 _ _ _ _ _ = Ok (?m2, _) |- grows _ ?m2 =>
      apply (grows_trans _ m1 m2); [|exact (grows_addVars _ _ _ _ _ _ _ _ E)]
  | |- grows _ (mkmodel _ _ _ (m_obj ?m) (m_sense ?m) _) =>
      apply (grows_lit _ m);
      [ | first [ exists []; rewrite app_nil_r; reflexivity
                | eexists; rewrite <- ?app_assoc; reflexivity ]
        | first [ exists []; rewrite app_nil_r; split; [reflexivity|constructor]
                | eexists; split; [rewrite <- ?app_assoc; reflexivity
                                  | repeat constructor; simpl; lia] ]
        | lia ]
  end.

Lemma add_vars_shape ap hm hm' :
  add_vars ap hm = Ok hm' ->
  exists m vs, hm' = with_vars hm m vs /\ grows (hm_model hm) m.
Proof.
  unfold add_vars; intro H; res_crush H.
  subst hm'; do 2 eexists; split; [reflexivity|].
  grow_chain2.
Qed.

Lemma add_upper_level_constrs_shape ap hm hm' :
  add_upper_level_constrs ap hm = Ok hm' ->
  exists m o, hm' = with_obj hm m (dict_set "upper_level" o (hm_obj hm)) /\
              upper_level_obj hm = Ok o /\ grows (hm_model hm) m.
Proof.
  unfold add_upper_level_constrs; intro H; res_crush H.
  all: subst hm'; do 2 eexists; split; [reflexivity|split; [first [reflexivity|eassumption]|]].
  all: repeat match goal with
         | E : (match ?o with Some _ => _ | None => _ end) = Ok _ |- _ =>
             destruct o; res_crush E; try (injection E as <-)
         end.
  all: grow_chain2.
Qed.

Lemma add_dual_constrs_shape hm hm' :
  add_dual_constrs hm = Ok hm' ->
  exists m o, hm' = with_obj hm m (dict_set "dual" o (hm_obj hm)) /\
              dual_obj hm = Ok o /\ grows (hm_model hm) m.
Proof.
  unfold add_dual_constrs; intro H; res_crush H.
  subst hm'; do 2 eexists; split; [reflexivity|split; [first [reflexivity|eassumption]|]].
  grow_chain2.
Qed.

Lemma add_aux_constrs_shape hm hm' :
  add_aux_constrs hm = Ok hm' ->
  exists m, hm' = with_model hm m /\ grows (hm_model hm) m.
Proof.
  unfold add_aux_constrs; intro H; res_crush H.
  subst hm'; eexists; split; [reflexivity|].
  grow_chain2.
Qed.

Lemma fold_pairs_grows f m ps m' :
  (forall m1 p m2, In p ps -> f m1 p = Ok m2 -> grows m1 m2) ->
  fold_pairs f m ps = Ok m' -> grows m m'.
Proof.
  revert m; induction ps as [|p ps IH]; simpl; intros m Hf H.
  - injection H as <-; apply grows_refl.
  - apply rbind_ok in H as [m1 [H1 H2]].
    eapply grows_trans; [eapply Hf; [left; reflexivity|exact H1]|].
    apply IH; [|exact H2]; intros; eapply Hf; [right|]; eauto.
Qed.

Lemma bigM_pair_grows hm M m p m' : bigM_pair hm M m p = Ok m' -> grows m m'.
Proof.
  destruct p; unfold bigM_pair; intro H; res_crush H; subst; grow_chain2.
Qed.

Lemma sos_pair_grows hm m p m' : sos_pair hm m p = Ok m' -> grows m m'.
Proof.
  destruct p; unfold sos_pair; intro H; res_crush H; subst; grow_chain2.
Qed.

Lemma add_bigM_constrs_shape hm M hm' :
  add_bigM_constrs hm M = Ok hm' ->
  exists m, hm' = with_model hm m /\ grows (hm_model hm) m.
Proof.
  unfold add_bigM_constrs; intro H; apply rbind_ok in H as [m [Hm H]].
  injection H as <-; eexists; split; [reflexivity|].
  apply grows_param, (fold_pairs_grows _ _ _ _ (fun m1 p m2 _ => bigM_pair_grows hm M m1 p m2) Hm).
Qed.

Lemma add_sos_constrs_shape hm hm' :
  add_sos_constrs hm = Ok hm' ->
  exists m, hm' = with_model hm m /\ grows (hm_model hm) m.
Proof.
  unfold add_sos_constrs; intro H; apply rbind_ok in H as [m [Hm H]].
  injection H as <-; eexists; split; [reflexivity|].
  apply grows_param, (fold_pairs_grows _ _ _ _ (fun m1 p m2 _ => sos_pair_grows hm m1 p m2) Hm).
Qed.

Lemma fix_vars_shape hm name v hm' :
  fix_vars hm name v = Ok hm' ->
  exists grp cs m ids,
    dict_get name (hm_vars hm) = Some grp /\
    rmap (fix_row hm v) (group_vars grp) = Ok cs /\
    addConstrList (hm_model hm) cs = (m, ids) /\
    hm' = with_fix hm m (dict_set name ids (hm_fix hm)).
Proof.
  unfold fix_vars, dict_at; intro H.
  destruct (dict_get name (hm_vars hm)) as [grp|] eqn:Eg; [|discriminate]; simpl in H.
  apply rbind_ok in H as [cs [Hcs H]].
  destruct (addConstrList (hm_model hm) cs) as [m ids] eqn:Em.
  injection H as <-; exists grp, cs, m, ids; auto.
Qed.

Lemma set_obj_shape hm name hm' :
  set_obj hm name = Ok hm' ->
  exists s o, dict_get name (hm_obj hm) = Some o /\
    hm' = with_model hm (setObjective (hm_model hm) o s) /\
    (s = MINIMIZE <-> In name ["primal"; "upper_level"; "PADM"]).
Proof.
  unfold set_obj, dict_at; intro H.
  remember (existsb (String.eqb name) ["primal"; "upper_level"; "PADM"]) as b1 eqn:E1.
  remember (existsb (String.eqb name) ["dual"]) as b2 eqn:E2.
  destruct (dict_get name (hm_obj hm)) as [o|] eqn:Eo;
    [|destruct b1, b2; discriminate H].
  destruct b1.
  - simpl in H; injection H as <-.
    exists MINIMIZE, o; split; [reflexivity|split; [reflexivity|]].
    symmetry in E1; apply existsb_exists in E1 as [x [Hx Hx']].
    apply String.eqb_eq in Hx'; subst x; tauto.
  - destruct b2; [|discriminate H]; simpl in H; injection H as <-.
    exists MAXIMIZE, o; split; [reflexivity|split; [reflexivity|]].
    split; [discriminate|]; intro Hin; exfalso.
    assert (existsb (String.eqb name) ["primal"; "upper_level"; "PADM"] = true)
      by (apply existsb_exists; exists name; split; [exact Hin|apply String.eqb_refl]).
    congruence.
Qed.

Lemma dict_get_set_same {V} k (v : V) d : dict_get k (dict_set k v d) = Some v.
Proof.
  induction d as [|[k' v'] d IH]; simpl.
  - now rewrite String.eqb_refl.
  - destruct (String.eqb k k') eqn:E; simpl.
    + apply String.eqb_eq in E; subst; now rewrite String.eqb_refl.
    + now rewrite E.
Qed.

Lemma dict_get_set_other {V} k k' (v : V) d :
  k <> k' -> dict_get k (dict_set k' v d) = dict_get k d.
Proof.
  intro Hne; induction d as [|[k2 v2] d IH]; simpl.
  - destruct (String.eqb k k') eqn:E; [apply String.eqb_eq in E; congruence|reflexivity].
  - destruct (String.eqb k' k2) eqn:E2; simpl.
    + apply String.eqb_eq in E2; subst k2.
      destruct (String.eqb k k') eqn:E; [apply String.eqb_eq in E; congruence|reflexivity].
    + destruct (String.eqb k k2); [reflexivity|exact IH].
Qed.

(** Everything read through [self.vars] depends only on the parameters and
    on the variable dictionary. *)
Section Congruence.
Variables a b : house.
Hypothesis Hhp : hm_hp a = hm_hp b.
Hypothesis Hvs : hm_vars a = hm_vars b.

Lemma getv_congr : getv a = getv b.
Proof. unfold getv; now rewrite Hvs. Qed.
Lemma gets_congr : gets a = gets b.
Proof. unfold gets; now rewrite Hvs. Qed.
Lemma vA_congr : vA a = vA b.
Proof. unfold vA; now rewrite getv_congr. Qed.
Lemma vS_congr : vS a = vS b.
Proof. unfold vS; now rewrite gets_congr. Qed.
Lemma var_at_congr : var_at a = var_at b.
Proof. unfold var_at; now rewrite getv_congr. Qed.

Lemma upper_level_obj_congr : upper_level_obj a = upper_level_obj b.
Proof. unfold upper_level_obj; now rewrite vA_congr, Hhp. Qed.
Lemma primal_obj_congr : primal_obj a = primal_obj b.
Proof. unfold primal_obj; now rewrite vA_congr, vS_congr, Hhp. Qed.
Lemma dual_obj_term_congr : dual_obj_term a = dual_obj_term b.
Proof. unfold dual_obj_term; now rewrite vA_congr, Hhp. Qed.
Lemma dual_obj_congr : dual_obj a = dual_obj b.
Proof. unfold dual_obj; now rewrite vA_congr, dual_obj_term_congr, Hhp. Qed.
Lemma valid_ineq_rhs_congr : valid_ineq_rhs a = valid_ineq_rhs b.
Proof. unfold valid_ineq_rhs; now rewrite dual_obj_term_congr, Hhp. Qed.
End Congruence.

Lemma kkt_build_shape hp ap hm :
  kkt_build hp ap = Ok hm ->
  exists hm0, add_vars ap (init_house hp) = Ok hm0 /\
    hm_hp hm = hp /\ hm_vars hm = hm_vars hm0 /\ hm_sol hm = None /\ hm_fix hm = [] /\
    objs_ok hm /\ grows empty_model (hm_model hm).
Proof.
  unfold kkt_build; intro H.
  apply rbind_ok in H as [h0 [H0 H]]; apply rbind_ok in H as [h1 [H1 H]].
  apply rbind_ok in H as [h2 [H2 H]]; apply rbind_ok in H as [h3 [H3 H4]].
  exists h0; split; [exact H0|].
  apply add_vars_shape in H0 as (m0 & vs & -> & G0).
  apply add_upper_level_constrs_shape in H1 as (m1 & o1 & -> & Ho1 & G1).
  apply add_primal_constrs_shape in H2 as (m2 & o2 & -> & Ho2 & G2).
  apply add_dual_constrs_shape in H3 as (m3 & o3 & -> & Ho3 & G3).
  apply add_aux_constrs_shape in H4 as (m4 & -> & G4).
  cbn in *.
  refine (conj eq_refl (conj eq_refl (conj eq_refl (conj eq_refl (conj _ _))))).
  - split; [|split].
    + exists o1; split; [reflexivity|].
      rewrite <- Ho1; apply upper_level_obj_congr; reflexivity.
    + exists o2; split; [reflexivity|].
      rewrite <- Ho2; apply primal_obj_congr; reflexivity.
    + exists o3; split; [reflexivity|].
      rewrite <- Ho3; apply dual_obj_congr; reflexivity.
  - apply (grows_trans _ _ _ G0), (grows_trans _ _ _ G1), (grows_trans _ _ _ G2),
      (grows_trans _ _ _ G3), G4.
Qed.

Lemma filter_none {A} (f : A -> bool) l :
  (forall a, In a l -> f a = false) -> filter f l = [].
Proof.
  induction l as [|a l IH]; simpl; intro H; [reflexivity|].
  rewrite H by (left; reflexivity); apply IH; intros; apply H; right; assumption.
Qed.

Lemma filter_filter_and {A} (f g : A -> bool) l :
  filter f (filter g l) = filter (fun a => g a && f a) l.
Proof.
  induction l as [|a l IH]; simpl; [reflexivity|].
  destruct (g a); simpl; [destruct (f a); simpl; now rewrite IH|exact IH].
Qed.

Lemma removeConstrs_spec ids m :
  m_rows (fold_left removeConstr ids m) =
    filter (fun r => negb (existsb (Nat.eqb (fst r)) ids)) (m_rows m) /\
  m_cols (fold_left removeConstr ids m) = m_cols m /\
  m_next (fold_left removeConstr ids m) = m_next m /\
  m_obj (fold_left removeConstr ids m) = m_obj m /\
  m_sense (fold_left removeConstr ids m) = m_sense m.
Proof.
  revert m; induction ids as [|id ids IH]; intro m; simpl.
  - repeat split; symmetry; apply forallb_filter_id, forallb_forall; reflexivity.
  - destruct (IH (removeConstr m id)) as (Hr & Hc & Hn & Ho & Hs); simpl in *.
    repeat split; try assumption.
    rewrite Hr, filter_filter_and; apply filter_ext; intros [k c]; simpl.
    destruct (Nat.eqb k id); reflexivity.
Qed.

Lemma dict_del_set {V} k (v : V) d : dict_del k (dict_set k v d) = dict_del k d.
Proof.
  induction d as [|[k' v'] d IH]; simpl.
  - now rewrite String.eqb_refl.
  - destruct (String.eqb k k') eqn:E; simpl; rewrite E; [reflexivity|now rewrite IH].
Qed.

Lemma fix_rows_spec hm fv vs cs :
  rmap (fix_row hm fv) vs = Ok cs ->
  cs = map (fun v => CEq (EConst (pin_value hm fv v)) (EVar v)) vs.
Proof.
  revert cs; induction vs as [|v vs IH]; simpl; intros cs H.
  - now injection H as <-.
  - apply rbind_ok in H as [c [Hc H]]; apply rbind_ok in H as [cs' [Hcs H]].
    injection H as <-; rewrite (IH _ Hcs); f_equal.
    unfold fix_row, pin_value, var_X in *; destruct fv.
    + now injection Hc as <-.
    + destruct (hm_sol hm); simpl in Hc; [now injection Hc as <-|discriminate].
Qed.

(** C7: [fix_vars name v] adds one row per variable of the group, pinning it
    to [v] (to its last solved value when [v] is [None]); [release_vars name]
    then removes exactly those rows and the bookkeeping entry, so the rows
    after the pair are the rows before it. *)
Theorem fix_release_roundtrip hm name fv hm1 :
  wf_model (hm_model hm) -> fix_vars hm name fv = Ok hm1 ->
  (exists grp ids,
     dict_get name (hm_vars hm) = Some grp /\
     m_rows (hm_model hm1) = m_rows (hm_model hm) ++
       combine ids (map (fun v => CEq (EConst (pin_value hm fv v)) (EVar v))
                        (group_vars grp)) /\
     length ids = length (group_vars grp) /\
     dict_get name (hm_fix hm1) = Some ids) /\
  (exists hm2, release_vars hm1 name = Ok hm2 /\
     m_rows (hm_model hm2) = m_rows (hm_model hm) /\
     m_cols (hm_model hm2) = m_cols (hm_model hm) /\
     m_obj (hm_model hm2) = m_obj (hm_model hm) /\
     m_sense (hm_model hm2) = m_sense (hm_model hm) /\
     hm_vars hm2 = hm_vars hm /\
     hm_fix hm2 = dict_del name (hm_fix hm)).
Proof.
  intros Hwf H.
  apply fix_vars_shape in H as (grp & cs & m & ids & Hg & Hcs & Hadd & ->).
  apply fix_rows_spec in Hcs; subst cs.
  pose proof (addConstrList_spec _ _ _ _ Hadd) as (Hr & Hids & _ & Hc & Ho & Hs & _).
  split.
  - exists grp, ids; cbn; rewrite Hr, dict_get_set_same, Hids, length_seq, length_map.
    repeat split; assumption.
  - unfold release_vars, dict_at; cbn; rewrite dict_get_set_same; cbn.
    eexists; split; [reflexivity|]; cbn.
    destruct (removeConstrs_spec ids m) as (Hr' & Hc' & _ & Ho' & Hs').
    rewrite Hr', Hc', Ho', Hs', Hc, Ho, Hs, dict_del_set, Hr, filter_app.
    repeat split; try reflexivity.
    rewrite (filter_none _ (combine _ _)), app_nil_r.
    + apply forallb_filter_id, forallb_forall; intros [k c] Hin; simpl.
      apply Hwf in Hin; simpl in Hin.
      apply negb_true_iff, not_true_iff_false; intro He.
      apply existsb_exists in He as [k' [Hk' Hkk]]; apply Nat.eqb_eq in Hkk; subst k'.
      rewrite Hids in Hk'; apply in_seq in Hk'; lia.
    + intros [k c] Hin; simpl; apply negb_false_iff, existsb_exists.
      exists k; split; [eapply in_combine_l; exact Hin|apply Nat.eqb_refl].
Qed.

Lemma grows_rows_incl m m' r : grows m m' -> In r (m_rows m) -> In r (m_rows m').
Proof. intros ([rs [Hr _]] & _) Hin; rewrite Hr; apply in_or_app; left; exact Hin. Qed.

Lemma vA_var_at hm g k i e : vA hm g k i = Ok e -> e = EVar (var_at hm g k i).
Proof.
  unfold vA, var_at; destruct (getv hm g k i); simpl; [congruence|discriminate].
Qed.

Lemma vS_var_s hm g k e : vS hm g k = Ok e -> e = EVar (var_s hm g k).
Proof.
  unfold vS, var_s; destruct (gets hm g k); simpl; [congruence|discriminate].
Qed.

Lemma prev_mod H i : (i < H)%nat -> prev H i = ((i + H - 1) mod H)%nat.
Proof.
  intro Hi; unfold prev; destruct (Nat.eqb_spec i 0) as [->|Hne].
  - rewrite Nat.mod_small; lia.
  - replace (i + H - 1)%nat with ((i - 1) + 1 * H)%nat by lia.
    rewrite Nat.Div0.mod_add, Nat.mod_small; lia.
Qed.

(** Rows of [add_primal_constrs], one family at a time. *)
Lemma add_primal_constrs_rows hm hm' :
  add_primal_constrs hm = Ok hm' ->
  hm_hp hm' = hm_hp hm /\ hm_vars hm' = hm_vars hm /\
  forall i, (i < hours_num (hm_hp hm))%nat ->
    (exists c id, eq_demand_row hm i = Ok c /\ In (id, c) (m_rows (hm_model hm'))) /\
    (exists c id, eq_battery_row hm i = Ok c /\ In (id, c) (m_rows (hm_model hm'))) /\
    (exists c id, limit_PV_row hm i = Ok c /\ In (id, c) (m_rows (hm_model hm'))) /\
    (exists c id, limit_battery_row hm i = Ok c /\ In (id, c) (m_rows (hm_model hm'))).
Proof.
  intro H; unfold add_primal_constrs in H; res_crush H; subst hm'; cbn.
  split; [reflexivity|split; [reflexivity|]].
  assert (G1 : grows g g2) by grow_chain2.
  assert (G2 : grows g0 g2) by grow_chain2.
  assert (G3 : grows g1 g2) by grow_chain2.
  intros i Hi; repeat split.
  - destruct (addConstrs_in _ _ _ _ _ E i Hi) as (c & id & Hc & Hin).
    exists c, id; split; [exact Hc|exact (grows_rows_incl _ _ _ G1 Hin)].
  - destruct (addConstrs_in _ _ _ _ _ E0 i Hi) as (c & id & Hc & Hin).
    exists c, id; split; [exact Hc|exact (grows_rows_incl _ _ _ G2 Hin)].
  - destruct (addConstrs_in _ _ _ _ _ E1 i Hi) as (c & id & Hc & Hin).
    exists c, id; split; [exact Hc|exact (grows_rows_incl _ _ _ G3 Hin)].
  - destruct (addConstrs_in _ _ _ _ _ E2 i Hi) as (c & id & Hc & Hin).
    exists c, id; split; [exact Hc|exact Hin].
Qed.

Lemma eq_battery_row_sat hm i c x :
  eq_battery_row hm i = Ok c -> sat x c ->
  x (var_at hm "primal" "energy_battery" i) ==
    x (var_at hm "primal" "energy_battery" (prev (hours_num (hm_hp hm)) i))
    + x (var_at hm "primal" "energy_battery_in" i)
    - x (var_at hm "primal" "energy_battery_out" i).
Proof.
  unfold eq_battery_row; intro H; res_crush H; subst c.
  repeat match goal with E : vA _ _ _ _ = Ok _ |- _ => apply vA_var_at in E; subst end.
  simpl; intro Hs; rewrite <- Hs; reflexivity.
Qed.

(** C4: every assignment satisfying the rows of [add_primal_constrs] obeys
    the circular battery balance: the charge of hour [i] is the charge of
    hour [(i + H - 1) mod H] plus the inflow minus the outflow of hour [i],
    hour [H - 1] preceding hour [0]. *)
Theorem battery_balance_circular hm0 hm1 x :
  add_primal_constrs hm0 = Ok hm1 ->
  (forall r, In r (m_rows (hm_model hm1)) -> sat x (snd r)) ->
  forall i, (i < hours_num (hm_hp hm1))%nat ->
  let H := hours_num (hm_hp hm1) in
  x (var_at hm1 "primal" "energy_battery" i) ==
    x (var_at hm1 "primal" "energy_battery" ((i + H - 1) mod H))
    + x (var_at hm1 "primal" "energy_battery_in" i)
    - x (var_at hm1 "primal" "energy_battery_out" i).
Proof.
  intros Hadd Hsat i Hi H.
  destruct (add_primal_constrs_rows _ _ Hadd) as (Hhp & Hvs & Hrows).
  subst H; rewrite Hhp in *.
  rewrite (var_at_congr hm1 hm0 Hvs), <- prev_mod by exact Hi.
  destruct (Hrows i Hi) as (_ & (c & id & Hc & Hin) & _).
  exact (eq_battery_row_sat _ _ _ _ Hc (Hsat _ Hin)).
Qed.

(* ------------------------------------------------------------------ *)

Lemma addVars_scalar m n l u ty name :
  addVars m n (QScalar l) (QScalar u) ty name =
  Ok (mkmodel (m_cols m ++ map (fun i => mkcol name (Some i) l u ty) (seq 0 n))
              (m_rows m) (m_next m) (m_obj m) (m_sense m) (m_params m),
      seq (length (m_cols m)) n).
Proof. unfold addVars; cbn; now rewrite rmap_ok_pure. Qed.

Lemma rbind_Ok_l {A B} (r : res A) (k : A -> res B) a b :
  r = Ok a -> k a = b -> rbind r k = b.
Proof. intros -> <-; reflexivity. Qed.

Lemma add_vars_layout ap hp l u :
  lb ap = QScalar l -> ub ap = QScalar u ->
  let H := hours_num hp in
  add_vars ap (init_house hp) =
  Ok (mkhouse hp (mkmodel (layout_cols H l u) [] 0 (EConst 0) MINIMIZE [])
              None (layout_vars H) [] []).
Proof.
  intros Hl Hu H; unfold add_vars; rewrite Hl, Hu.
  unfold addVarsD, addVarsB.
  repeat (eapply rbind_Ok_l; [apply addVars_scalar|];
          cbv beta iota delta [addVarD addVarB addVar m_cols m_rows m_next m_obj m_sense
                               m_params hm_model init_house empty_model]).
  unfold with_vars; cbv beta iota delta [hm_hp hm_sol hm_obj hm_fix hm_vars init_house].
  f_equal; f_equal.
  - f_equal; unfold layout_cols, block, single; rewrite <- ?app_assoc; reflexivity.
  - rewrite ?length_app, ?length_map, ?length_seq; cbn [length].
    cbn [dict_set String.eqb Ascii.eqb Bool.eqb andb].
    unfold layout_vars; subst H.
    repeat match goal with
    | |- cons _ _ = cons _ _ => apply (f_equal2 (@cons _))
    | |- pair _ _ = pair _ _ => apply (f_equal2 (@pair _ _))
    | |- VMany _ = VMany _ => apply (f_equal VMany)
    | |- VOne _ = VOne _ => apply (f_equal VOne)
    | |- seq _ _ = seq _ _ => apply (f_equal2 seq); [lia|reflexivity]
    | |- @eq nat _ _ => lia
    | |- @eq var _ _ => unfold var; lia
    | |- @eq string _ _ => reflexivity
    | |- @eq (list _) [] [] => reflexivity
    end.
Qed.

Lemma nth_error_seq' s n i : (i < n)%nat -> nth_error (seq s n) i = Some (s + i)%nat.
Proof.
  revert s i; induction n as [|n IH]; intros s i Hi; [lia|].
  destruct i as [|i]; simpl; [f_equal; lia|].
  rewrite IH by lia; f_equal; lia.
Qed.

Lemma layout_getv hm H g k grp base i :
  hm_vars hm = layout_vars H ->
  dict_get g (layout_vars H) = Some grp ->
  dict_get k grp = Some (VMany (seq base H)) ->
  (i < H)%nat -> getv hm g k i = Ok (base + i)%nat.
Proof.
  intros Hv Hg Hk Hi; unfold getv, dict_at; rewrite Hv, Hg; simpl; rewrite Hk; simpl.
  now rewrite nth_error_seq'.
Qed.

Lemma layout_gets hm H g k grp v :
  hm_vars hm = layout_vars H ->
  dict_get g (layout_vars H) = Some grp ->
  dict_get k grp = Some (VOne v) -> gets hm g k = Ok v.
Proof.
  intros Hv Hg Hk; unfold gets, dict_at; rewrite Hv, Hg; simpl; now rewrite Hk.
Qed.

Ltac layout_lookup :=
  first [ eapply layout_getv; [eassumption|reflexivity|reflexivity|try lia]
        | eapply layout_gets; [eassumption|reflexivity|reflexivity] ].

(* ------------------------------------------------------------------ *)

Lemma list_at_ok {A} (l : list A) i : (i < length l)%nat -> exists a, list_at l i = Ok a.
Proof.
  intro Hi; unfold list_at; destruct (nth_error l i) eqn:E; [eauto|].
  apply nth_error_None in E; lia.
Qed.

Lemma list_at_err {A} (l : list A) i : (length l <= i)%nat -> list_at l i = Err IndexError.
Proof. intro Hi; unfold list_at; now rewrite (proj2 (nth_error_None l i) Hi). Qed.

Lemma rmap_ok_all {A B} (f : A -> res B) xs :
  (forall x, In x xs -> exists y, f x = Ok y) -> exists ys, rmap f xs = Ok ys.
Proof.
  induction xs as [|x xs IH]; intro Hf; simpl; [eauto|].
  destruct (Hf x (or_introl eq_refl)) as [y ->]; simpl.
  destruct IH as [ys ->]; [intros; apply Hf; now right|]; simpl; eauto.
Qed.

Lemma prev_lt H i : (i < H)%nat -> (prev H i < H)%nat.
Proof. unfold prev; destruct (Nat.eqb_spec i 0); lia. Qed.

Ltac lookups Hv H :=
  repeat (first
    [ erewrite (layout_getv _ H _ _ _ _ _ Hv) by (reflexivity || lia)
    | erewrite (layout_gets _ H _ _ _ _ Hv) by reflexivity ]; cbn [rbind]).

Section Rows.
Variable hm : house.
Hypothesis Hv : hm_vars hm = layout_vars (hours_num (hm_hp hm)).
Variable i : nat.
Hypothesis Hi : (i < hours_num (hm_hp hm))%nat.

Lemma eq_demand_row_ok : exists c, eq_demand_row hm i = Ok c.
Proof.
  unfold eq_demand_row, vA; lookups Hv (hours_num (hm_hp hm)).
  destruct (list_at_ok (demands (hm_hp hm)) i) as [a ->]; [exact Hi|]; cbn [rbind].
  lookups Hv (hours_num (hm_hp hm)); eauto.
Qed.

Lemma eq_battery_row_ok : exists c, eq_battery_row hm i = Ok c.
Proof.
  pose proof (prev_lt _ _ Hi).
  unfold eq_battery_row, vA; lookups Hv (hours_num (hm_hp hm)); eauto.
Qed.

Lemma limit_battery_row_ok : exists c, limit_battery_row hm i = Ok c.
Proof. unfold limit_battery_row, vA, vS; lookups Hv (hours_num (hm_hp hm)); eauto. Qed.

Lemma limit_PV_row_ok : (i < length (PV_availabilities (hm_hp hm)))%nat ->
  exists c, limit_PV_row hm i = Ok c.
Proof.
  intro Hp; unfold limit_PV_row, vA, vS; lookups Hv (hours_num (hm_hp hm)).
  destruct (list_at_ok _ i Hp) as [a ->]; cbn [rbind]; eauto.
Qed.

Lemma limit_PV_row_err : (length (PV_availabilities (hm_hp hm)) <= i)%nat ->
  limit_PV_row hm i = Err IndexError.
Proof.
  intro Hp; unfold limit_PV_row, vA, vS; lookups Hv (hours_num (hm_hp hm)).
  now rewrite list_at_err.
Qed.
End Rows.

Lemma add_primal_constrs_short_PV hm :
  hm_vars hm = layout_vars (hours_num (hm_hp hm)) ->
  (length (PV_availabilities (hm_hp hm)) < hours_num (hm_hp hm))%nat ->
  add_primal_constrs hm = Err IndexError.
Proof.
  intros Hv Hs; unfold add_primal_constrs, addConstrs.
  destruct (rmap_ok_all (eq_demand_row hm) (seq 0 (hours_num (hm_hp hm)))) as [cs1 E1].
  { intros i Hin; apply in_seq in Hin; apply eq_demand_row_ok; [exact Hv|lia]. }
  rewrite E1; cbn [rbind]; destruct (addConstrList (hm_model hm) cs1) as [m1 ids1].
  destruct (rmap_ok_all (eq_battery_row hm) (seq 0 (hours_num (hm_hp hm)))) as [cs2 E2].
  { intros i Hin; apply in_seq in Hin; apply eq_battery_row_ok; [exact Hv|lia]. }
  rewrite E2; cbn [rbind]; destruct (addConstrList m1 cs2) as [m2 ids2].
  rewrite (rmap_err_at (limit_PV_row hm) (seq 0 (hours_num (hm_hp hm)))
             (length (PV_availabilities (hm_hp hm))) 0%nat IndexError).
  - reflexivity.
  - now rewrite length_seq.
  - intros j Hj; rewrite seq_nth by lia; apply limit_PV_row_ok; [exact Hv|lia|lia].
  - rewrite seq_nth by lia; apply limit_PV_row_err; [exact Hv|lia|lia].
Qed.

Lemma cost_PV_ok hp : life_time hp <> 0%Z -> exists c, cost_PV hp = Ok c.
Proof. unfold cost_PV; intro H; apply Z.eqb_neq in H; rewrite H; eauto. Qed.

Lemma cost_battery_ok hp : life_time hp <> 0%Z -> exists c, cost_battery hp = Ok c.
Proof. unfold cost_battery; intro H; apply Z.eqb_neq in H; rewrite H; eauto. Qed.

Ltac build_ok Hv Hpv Hlt :=
  unfold addConstrs, vA, vS in *;
  repeat (cbn [rbind fst snd] in *; first
    [ eexists; reflexivity
    | erewrite (layout_getv _ _ _ _ _ _ _ Hv) by (reflexivity || lia || (apply prev_lt; lia))
    | erewrite (layout_gets _ _ _ _ _ _ Hv) by reflexivity
    | match goal with
      | |- context [rmap ?f (seq 0 ?n)] =>
          let ys := fresh "ys" in let E := fresh "E" in
          destruct (rmap_ok_all f (seq 0 n)) as [ys E];
          [ let j := fresh "j" in let Hj := fresh "Hj" in
            intros j Hj; apply in_seq in Hj; cbv beta; build_ok Hv Hpv Hlt
          | rewrite E ]
      | |- context [list_at (demands ?hp) ?i] =>
          let a := fresh "a" in let E := fresh "E" in
          destruct (list_at_ok (demands hp) i) as [a E]; [unfold hours_num in *; lia|rewrite E]
      | |- context [list_at (PV_availabilities ?hp) ?i] =>
          let a := fresh "a" in let E := fresh "E" in
          destruct (list_at_ok (PV_availabilities hp) i) as [a E]; [lia|rewrite E]
      | |- context [cost_PV ?hp] =>
          let a := fresh "c" in let E := fresh "E" in
          destruct (cost_PV_ok hp Hlt) as [a E]; rewrite E
      | |- context [cost_battery ?hp] =>
          let a := fresh "c" in let E := fresh "E" in
          destruct (cost_battery_ok hp Hlt) as [a E]; rewrite E
      | |- context [match ?p with pair _ _ => _ end] => destruct p
      end ]).

Section Total.
Variable hm : house.
Hypothesis Hv : hm_vars hm = layout_vars (hours_num (hm_hp hm)).
Hypothesis Hpv : (hours_num (hm_hp hm) <= length (PV_availabilities (hm_hp hm)))%nat.
Hypothesis Hlt : life_time (hm_hp hm) <> 0%Z.

Lemma add_upper_level_constrs_total ap : exists hm', add_upper_level_constrs ap hm = Ok hm'.
Proof using Hv Hpv Hlt.
  unfold add_upper_level_constrs, upper_level_obj, demand_change_term, abs_row.
  destruct (capacity_battery ap), (capacity_PV ap); build_ok Hv Hpv Hlt.
Qed.

Lemma add_primal_constrs_total : exists hm', add_primal_constrs hm = Ok hm'.
Proof using Hv Hpv Hlt.
  unfold add_primal_constrs, primal_obj, eq_demand_row, eq_battery_row, limit_PV_row,
    limit_battery_row.
  build_ok Hv Hpv Hlt.
Qed.

Lemma add_dual_constrs_total : exists hm', add_dual_constrs hm = Ok hm'.
Proof using Hv Hpv Hlt.
  unfold add_dual_constrs, dual_obj, dual_obj_term, d_energy_buy_row, d_energy_sell_row,
    d_energy_battery_out_row, d_energy_battery_in_row, d_energy_battery_row, d_energy_PV_row,
    neg_limit_battery_term, neg_limit_PV_term.
  build_ok Hv Hpv Hlt.
Qed.

Lemma add_aux_constrs_total : exists hm', add_aux_constrs hm = Ok hm'.
Proof using Hv Hpv Hlt.
  unfold add_aux_constrs, aux_limit_PV_row, aux_limit_battery_row, slack_limit_PV_row,
    slack_limit_battery_row, slack_energy_buy_row, slack_energy_sell_row,
    slack_energy_battery_out_row, slack_energy_battery_in_row, slack_energy_battery_row,
    slack_energy_PV_row, limit_PV_term.
  build_ok Hv Hpv Hlt.
Qed.

Lemma add_sos_constrs_total : exists hm', add_sos_constrs hm = Ok hm'.
Proof using Hv Hpv Hlt.
  unfold add_sos_constrs, cs_pairs, fold_pairs, sos_pair.
  build_ok Hv Hpv Hlt.
Qed.

Lemma add_bigM_constrs_total M : exists hm', add_bigM_constrs hm M = Ok hm'.
Proof using Hv Hpv Hlt.
  unfold add_bigM_constrs, cs_pairs, fold_pairs, bigM_pair.
  build_ok Hv Hpv Hlt.
Qed.
End Total.

Lemma set_obj_upper_level_total hm :
  (exists o, dict_get "upper_level" (hm_obj hm) = Some o) ->
  exists hm', set_obj hm "upper_level" = Ok hm'.
Proof. intros [o Ho]; unfold set_obj, dict_at; cbn; rewrite Ho; cbn; eauto. Qed.

Lemma kkt_build_total hp ap l u :
  lb ap = QScalar l -> ub ap = QScalar u ->
  (hours_num hp <= length (PV_availabilities hp))%nat -> life_time hp <> 0%Z ->
  exists hk, kkt_build hp ap = Ok hk.
Proof.
  intros Hl Hu Hpv Hlt; unfold kkt_build; rewrite (add_vars_layout ap hp l u Hl Hu); cbn [rbind].
  set (h0 := mkhouse hp _ None (layout_vars (hours_num hp)) [] []).
  destruct (add_upper_level_constrs_total h0 eq_refl Hpv Hlt ap) as [h1 E1]; rewrite E1; cbn [rbind].
  pose proof (add_upper_level_constrs_shape _ _ _ E1) as (m1 & o1 & -> & _).
  match goal with |- context [add_primal_constrs ?h] =>
    destruct (add_primal_constrs_total h eq_refl Hpv Hlt) as [h2 E2] end; rewrite E2; cbn [rbind].
  pose proof (add_primal_constrs_shape _ _ E2) as (m2 & o2 & -> & _).
  match goal with |- context [add_dual_constrs ?h] =>
    destruct (add_dual_constrs_total h eq_refl Hpv Hlt) as [h3 E3] end; rewrite E3; cbn [rbind].
  pose proof (add_dual_constrs_shape _ _ E3) as (m3 & o3 & -> & _).
  match goal with |- context [add_aux_constrs ?h] =>
    exact (add_aux_constrs_total h eq_refl Hpv Hlt) end.
Qed.

Lemma attack_builds_total hp ap l u :
  lb ap = QScalar l -> ub ap = QScalar u ->
  (hours_num hp <= length (PV_availabilities hp))%nat -> life_time hp <> 0%Z ->
  (forall M, exists hb, bigM_attack_build hp ap M = Ok hb) /\
  (exists hs, sos_attack_build hp ap = Ok hs).
Proof.
  intros Hl Hu Hpv Hlt.
  destruct (kkt_build_total hp ap l u Hl Hu Hpv Hlt) as [hk Ek].
  pose proof (kkt_build_shape _ _ _ Ek) as (h0 & E0 & Hhp & Hvk & _ & _ & [[o [Ho _]] _] & _).
  rewrite (add_vars_layout ap hp l u Hl Hu) in E0; injection E0 as <-.
  cbn [hm_vars] in Hvk.
  assert (Hv : hm_vars hk = layout_vars (hours_num (hm_hp hk))) by (rewrite Hhp; exact Hvk).
  rewrite <- Hhp in Hpv, Hlt.
  split; [intro M; unfold bigM_attack_build|unfold sos_attack_build]; rewrite Ek; cbn [rbind].
  - destruct (add_bigM_constrs_total hk Hv Hpv Hlt M) as [hb Eb]; rewrite Eb; cbn [rbind].
    apply add_bigM_constrs_shape in Eb as (m & -> & _).
    apply set_obj_upper_level_total; exists o; exact Ho.
  - destruct (add_sos_constrs_total hk Hv Hpv Hlt) as [hs Es]; rewrite Es; cbn [rbind].
    apply add_sos_constrs_shape in Es as (m & -> & _).
    apply set_obj_upper_level_total; exists o; exact Ho.
Qed.

(** C8 (corrected): nothing checks the configuration.  For scalar attack
    bounds, [add_vars] builds every column whatever the lengths of the
    vectors and whatever the order of the two bounds.  A PV vector shorter
    than the demand vector makes [add_primal_constrs] fail with an
    [IndexError], after the columns exist; a PV vector at least as long as
    the demand vector gives fully built big-M and SOS1 attack models, for
    any non-zero lifetime, even when the lower bound exceeds the upper one. *)
Theorem config_not_checked hp ap l u :
  lb ap = QScalar l -> ub ap = QScalar u ->
  exists hm, add_vars ap (init_house hp) = Ok hm /\
    m_cols (hm_model hm) = layout_cols (hours_num hp) l u /\
    ((length (PV_availabilities hp) < hours_num hp)%nat ->
     add_primal_constrs hm = Err IndexError) /\
    ((hours_num hp <= length (PV_availabilities hp))%nat -> life_time hp <> 0%Z ->
     (forall M, exists hb, bigM_attack_build hp ap M = Ok hb) /\
     (exists hs, sos_attack_build hp ap = Ok hs)).
Proof.
  intros Hl Hu; eexists; split; [apply (add_vars_layout ap hp l u Hl Hu)|].
  split; [reflexivity|]; split.
  - intro Hs; apply add_primal_constrs_short_PV; [reflexivity|exact Hs].
  - intros Hpv Hlt; exact (attack_builds_total hp ap l u Hl Hu Hpv Hlt).
Qed.

Lemma config_not_checked_witness :
  lb default_attack = QScalar (- GRB_INFINITY) /\ ub default_attack = QScalar GRB_INFINITY /\
  add_primal_constrs (house_of (add_vars default_attack (init_house hp_short_PV)))
    = Err IndexError /\
  lb ap_inverted = QScalar 1 /\ ub ap_inverted = QScalar 0 /\
  (exists hb, bigM_attack_build hp_long_PV ap_inverted 1000 = Ok hb) /\
  (exists hs, sos_attack_build hp_long_PV ap_inverted = Ok hs).
Proof.
  destruct (config_not_checked hp_short_PV default_attack (- GRB_INFINITY) GRB_INFINITY
              eq_refl eq_refl) as (hm & Ehm & _ & Short & _).
  destruct (config_not_checked hp_long_PV ap_inverted 1 0 eq_refl eq_refl)
    as (hm' & _ & _ & _ & Long).
  destruct (Long ltac:(vm_compute; lia) ltac:(vm_compute; discriminate)) as [B S].
  split; [reflexivity|]; split; [reflexivity|]; split.
  - rewrite Ehm; apply Short; vm_compute; lia.
  - split; [reflexivity|]; split; [reflexivity|]; split; [exact (B 1000)|exact S].
Defined.

Lemma config_not_checked_cex :
  (exists hm, sos_attack_build hp_long_PV default_attack = Ok hm) /\
  (exists hm, sos_attack_build hp_two ap_inverted = Ok hm) /\
  (exists hm, add_vars default_attack (init_house hp_short_PV) = Ok hm /\
              m_cols (hm_model hm) <> [] /\ add_primal_constrs hm = Err IndexError).
Proof.
  split; [eexists; vm_compute; reflexivity|].
  split; [eexists; vm_compute; reflexivity|].
  eexists; split; [vm_compute; reflexivity|].
  split; [vm_compute; discriminate|vm_compute; reflexivity].
Qed.

Lemma attack_upper_level_minimized hm hm' :
  objs_ok hm -> set_obj hm "upper_level" = Ok hm' ->
  m_sense (hm_model hm') = MINIMIZE /\ upper_level_obj hm' = Ok (m_obj (hm_model hm')).
Proof.
  intros [[o [Ho Hu]] _] Hs.
  apply set_obj_shape in Hs as (s & o' & Ho' & -> & Hs).
  rewrite Ho in Ho'; injection Ho' as <-.
  cbn; split; [apply Hs; simpl; tauto|].
  rewrite <- Hu; apply upper_level_obj_congr; reflexivity.
Qed.

Lemma objs_ok_with_model hm m : objs_ok hm -> objs_ok (with_model hm m).
Proof.
  intros (U & P & D); split; [|split].
  - destruct U as [o [Ho Hu]]; exists o; split; [exact Ho|].
    rewrite <- Hu; apply upper_level_obj_congr; reflexivity.
  - destruct P as [o [Ho Hu]]; exists o; split; [exact Ho|].
    rewrite <- Hu; apply primal_obj_congr; reflexivity.
  - destruct D as [o [Ho Hu]]; exists o; split; [exact Ho|].
    rewrite <- Hu; apply dual_obj_congr; reflexivity.
Qed.

(** C1 (corrected): the big-M and SOS1 attack models minimise.
    [bigM_attack_build] and [sos_attack_build] set the upper-level objective
    (the sum of the [abs] variables) with sense MINIMIZE. *)
Theorem attack_objective_sense hp ap bigM :
  (forall hm, bigM_attack_build hp ap bigM = Ok hm ->
     m_sense (hm_model hm) = MINIMIZE /\ upper_level_obj hm = Ok (m_obj (hm_model hm))) /\
  (forall hm, sos_attack_build hp ap = Ok hm ->
     m_sense (hm_model hm) = MINIMIZE /\ upper_level_obj hm = Ok (m_obj (hm_model hm))).
Proof.
  split.
  - intros hm H; unfold bigM_attack_build in H.
    apply rbind_ok in H as [h0 [H0 H]]; apply rbind_ok in H as [h1 [H1 H]].
    apply kkt_build_shape in H0 as (_ & _ & _ & _ & _ & _ & Ok0 & _).
    apply add_bigM_constrs_shape in H1 as (m & -> & _).
    exact (attack_upper_level_minimized _ _ (objs_ok_with_model _ _ Ok0) H).
  - intros hm H; unfold sos_attack_build in H.
    apply rbind_ok in H as [h0 [H0 H]]; apply rbind_ok in H as [h1 [H1 H]].
    apply kkt_build_shape in H0 as (_ & _ & _ & _ & _ & _ & Ok0 & _).
    apply add_sos_constrs_shape in H1 as (m & -> & _).
    exact (attack_upper_level_minimized _ _ (objs_ok_with_model _ _ Ok0) H).
Qed.

Lemma attack_objective_sense_witness :
  (exists hm, bigM_attack_build hp_two default_attack 1000 = Ok hm /\
     m_sense (hm_model hm) = MINIMIZE /\ upper_level_obj hm = Ok (m_obj (hm_model hm))) /\
  (exists hm, sos_attack_build hp_two default_attack = Ok hm /\
     m_sense (hm_model hm) = MINIMIZE /\ upper_level_obj hm = Ok (m_obj (hm_model hm))).
Proof.
  destruct (attack_objective_sense hp_two default_attack 1000) as (A & B).
  split.
  - eexists; split; [vm_compute; reflexivity|]; apply A; vm_compute; reflexivity.
  - eexists; split; [vm_compute; reflexivity|]; apply B; vm_compute; reflexivity.
Defined.

Lemma attack_objective_sense_cex :
  (exists r w, sos_attack (solver_zero OPTIMAL) hp_two default_attack world0 = Ok (r, w) /\
     map m_sense (w_solves w) = [MINIMIZE]) /\
  (exists r w, bigM_attack (solver_zero OPTIMAL) hp_two default_attack 1000 world0 = Ok (r, w) /\
     map m_sense (w_solves w) = [MINIMIZE]) /\
  (exists w, sos_valid_ineq_attack (solver_zero OPTIMAL) hp_two default_attack world0 = Ok (tt, w) /\
     map (fun m => (m_obj m, m_sense m)) (skipn 2 (w_solves w)) = [(EConst 0, MINIMIZE)]).
Proof.
  split; [|split].
  - do 2 eexists; split; [vm_compute; reflexivity|vm_compute; reflexivity].
  - do 2 eexists; split; [vm_compute; reflexivity|vm_compute; reflexivity].
  - eexists; split; [vm_compute; reflexivity|vm_compute; reflexivity].
Qed.

(** C2 (corrected): no solve operation of [Control] looks at the solver
    status: each of the six operations returns the same result and output
    whether the solver reports its status or always reports LOADED. *)
Theorem status_ignored s pp hp ap bigM w :
  primal_model s hp ap w = primal_model (norm_solver s) hp ap w /\
  dual_model s hp ap w = dual_model (norm_solver s) hp ap w /\
  bigM_attack s hp ap bigM w = bigM_attack (norm_solver s) hp ap bigM w /\
  sos_attack s hp ap w = sos_attack (norm_solver s) hp ap w /\
  sos_valid_ineq_attack s hp ap w = sos_valid_ineq_attack (norm_solver s) hp ap w /\
  PADM_attack s pp hp ap w = PADM_attack (norm_solver s) pp hp ap w.
Proof. repeat split; reflexivity. Qed.

Lemma status_ignored_cex :
  exists r w, sos_attack (solver_zero TIME_LIMIT) hp_two default_attack world0 = Ok (r, w) /\
    r <> [] /\ w_out w <> [].
Proof. do 2 eexists; split; [vm_compute; reflexivity|split; vm_compute; discriminate]. Qed.

(** C9: [total_delta_ub] is never read: two attack parameter values that
    differ only there give the same result for every model-building
    function and every operation of [Control]. *)
Theorem total_delta_ub_unused s pp hp cb cp l u n t t' bigM w hm :
  let ap := mkAttackParams cb cp l u n t in
  let ap' := mkAttackParams cb cp l u n t' in
  add_vars ap hm = add_vars ap' hm /\
  add_upper_level_constrs ap hm = add_upper_level_constrs ap' hm /\
  kkt_build hp ap = kkt_build hp ap' /\
  get_ub_valid_ineq s hp ap w = get_ub_valid_ineq s hp ap' w /\
  primal_model s hp ap w = primal_model s hp ap' w /\
  dual_model s hp ap w = dual_model s hp ap' w /\
  bigM_attack s hp ap bigM w = bigM_attack s hp ap' bigM w /\
  sos_attack s hp ap w = sos_attack s hp ap' w /\
  sos_valid_ineq_attack s hp ap w = sos_valid_ineq_attack s hp ap' w /\
  PADM_attack s pp hp ap w = PADM_attack s pp hp ap' w.
Proof. intros; repeat split; reflexivity. Qed.

(** C10: when the primal objective value at the end of an inner loop is
    zero, the outer check of [PADM_attack] divides by it and the run stops
    with [ZeroDivisionError]. *)
Theorem PADM_zero_primal_division s pp fuel mu j hm pv dv uv w
    hm' pv' dv' uv' inner w' p d :
  inner_loop s pp (S (Z.to_nat (max_stationary_iter pp))) mu 0 hm pv dv uv
    (mkworld (w_solves w) (w_out w ++ [PrCounter "j" (j + 1)])) =
    Ok ((hm', pv', dv', uv', inner), w') ->
  get_obj_value hm' (Some "primal") = Ok p -> p == 0 ->
  get_obj_value hm' (Some "dual") = Ok d ->
  outer_loop s pp (S fuel) mu j hm pv dv uv w = Err ZeroDivisionError.
Proof.
  intros Hin Hp Hz Hd.
  cbn [outer_loop]; unfold mbind at 1; unfold print; cbv beta iota.
  unfold mbind at 1; rewrite Hin.
  cbv beta iota; unfold mbind at 1, lift at 1; rewrite Hp.
  unfold mbind at 1, lift at 1; rewrite Hd.
  unfold mbind at 1, lift at 1, rel_gap.
  apply Qeq_bool_iff in Hz; now rewrite Hz.
Qed.

Lemma PADM_zero_primal_division_witness :
  exists hm' pv' dv' uv' inner w' p d,
    inner_loop (solver_zero OPTIMAL) default_PADM
      (S (Z.to_nat (max_stationary_iter default_PADM))) 1 0 padm_house
      (snap (get_values padm_house "primal")) (snap (get_values padm_house "dual"))
      (snap (get_values padm_house "upper_level"))
      (mkworld (w_solves world0) (w_out world0 ++ [PrCounter "j" (0 + 1)])) =
      Ok ((hm', pv', dv', uv', inner), w') /\
    get_obj_value hm' (Some "primal") = Ok p /\ p == 0 /\
    get_obj_value hm' (Some "dual") = Ok d /\
    outer_loop (solver_zero OPTIMAL) default_PADM 200 1 0 padm_house
      (snap (get_values padm_house "primal")) (snap (get_values padm_house "dual"))
      (snap (get_values padm_house "upper_level")) world0 = Err ZeroDivisionError.
Proof.
  do 8 eexists.
  split; [vm_compute; reflexivity|].
  split; [vm_compute; reflexivity|].
  split; [vm_compute; reflexivity|].
  split; [vm_compute; reflexivity|].
  eapply PADM_zero_primal_division; vm_compute; reflexivity.
Defined.

Lemma battery_balance_circular_witness :
  add_primal_constrs hp_two_vars = Ok hp_two_primal /\
  (forall r, In r (m_rows (hm_model hp_two_primal)) -> sat x_battery (snd r)) /\
  (0 < hours_num (hm_hp hp_two_primal))%nat /\
  x_battery (var_at hp_two_primal "primal" "energy_battery" 0) ==
    x_battery (var_at hp_two_primal "primal" "energy_battery"
                 ((0 + hours_num (hm_hp hp_two_primal) - 1) mod hours_num (hm_hp hp_two_primal)))
    + x_battery (var_at hp_two_primal "primal" "energy_battery_in" 0)
    - x_battery (var_at hp_two_primal "primal" "energy_battery_out" 0).
Proof.
  assert (Ha : add_primal_constrs hp_two_vars = Ok hp_two_primal) by (vm_compute; reflexivity).
  assert (Hs : forall r, In r (m_rows (hm_model hp_two_primal)) -> sat x_battery (snd r))
    by (apply rows_satb_sat; vm_compute; reflexivity).
  assert (Hi : (0 < hours_num (hm_hp hp_two_primal))%nat) by (vm_compute; lia).
  split; [exact Ha|split; [exact Hs|split; [exact Hi|]]].
  exact (battery_balance_circular hp_two_vars hp_two_primal x_battery Ha Hs 0 Hi).
Defined.

Lemma fix_release_roundtrip_witness :
  wf_model (hm_model hp_two_primal) /\
  fix_vars hp_two_primal "upper_level" (Some 0) = Ok hp_two_fixed /\
  (exists grp ids,
     dict_get "upper_level" (hm_vars hp_two_primal) = Some grp /\
     m_rows (hm_model hp_two_fixed) = m_rows (hm_model hp_two_primal) ++
       combine ids (map (fun v => CEq (EConst (pin_value hp_two_primal (Some 0) v)) (EVar v))
                        (group_vars grp)) /\
     length ids = length (group_vars grp) /\
     dict_get "upper_level" (hm_fix hp_two_fixed) = Some ids) /\
  (exists hm2, release_vars hp_two_fixed "upper_level" = Ok hm2 /\
     m_rows (hm_model hm2) = m_rows (hm_model hp_two_primal) /\
     m_cols (hm_model hm2) = m_cols (hm_model hp_two_primal) /\
     m_obj (hm_model hm2) = m_obj (hm_model hp_two_primal) /\
     m_sense (hm_model hm2) = m_sense (hm_model hp_two_primal) /\
     hm_vars hm2 = hm_vars hp_two_primal /\
     hm_fix hm2 = dict_del "upper_level" (hm_fix hp_two_primal)).
Proof.
  assert (Hw : wf_model (hm_model hp_two_primal)).
  { intros r Hr; apply Nat.ltb_lt; revert r Hr; apply forallb_forall.
    vm_compute; reflexivity. }
  assert (Hf : fix_vars hp_two_primal "upper_level" (Some 0) = Ok hp_two_fixed)
    by (vm_compute; reflexivity).
  split; [exact Hw|split; [exact Hf|]].
  exact (fix_release_roundtrip hp_two_primal "upper_level" (Some 0) hp_two_fixed Hw Hf).
Defined.

(* ------------------------------------------------------------------ *)

Lemma ub_loop_trace s is : forall hm w hm' us w',
  ub_loop s hm is w = Ok ((hm', us), w') ->
  w_solves w' = w_solves w ++ map (ub_model_for hm) is /\
  length us = length is /\
  forall k, (k < length is)%nat ->
    exists x, snd (s (ub_model_for hm (nth k is 0%nat))) = Some x /\
              nth k us 0 = x (var_at hm "upper_level" "delta" (nth k is 0%nat)).
Proof.
  induction is as [|i is IH]; intros hm w hm' us w' H.
  - cbn in H; injection H as <- <- <-; rewrite app_nil_r; split; [reflexivity|].
    split; [reflexivity|]; cbn; intros; lia.
  - cbn [ub_loop] in H; unfold mbind at 1, lift at 1 in H.
    destruct (set_valid_ineq_obj hm i) as [h1|e] eqn:E1; [|discriminate].
    unfold set_valid_ineq_obj in E1; destruct (vA hm "upper_level" "delta" i) as [dv|e] eqn:Ev;
      [|discriminate]; cbn in E1; injection E1 as <-; apply vA_var_at in Ev; subst dv.
    unfold mbind at 1, solve at 1 in H; cbn [hm_model with_model] in H.
    fold (ub_model_for hm i) in H.
    destruct (s (ub_model_for hm i)) as [st [x|]] eqn:Es; cbn in H; [|discriminate].
    set (h2 := mkhouse _ _ _ _ _ _) in H.
    unfold mbind at 1 in H.
    destruct (ub_loop s h2 is (mkworld (w_solves w ++ [ub_model_for hm i]) (w_out w)))
      as [[[h3 us3] w3]|e] eqn:El; [|discriminate].
    cbn in H; injection H as <- <- <-.
    assert (Hm : forall j, ub_model_for h2 j = ub_model_for hm j)
      by (intro j; unfold ub_model_for; now rewrite (var_at_congr h2 hm eq_refl)).
    assert (Hv : forall j, var_at h2 "upper_level" "delta" j = var_at hm "upper_level" "delta" j)
      by (intro j; now rewrite (var_at_congr h2 hm eq_refl)).
    destruct (IH _ _ _ _ _ El) as (Hw & Hl & Hk).
    split; [|split].
    + rewrite Hw, (map_ext _ _ Hm); cbn; now rewrite <- app_assoc.
    + cbn; now rewrite Hl.
    + intros [|k] Hk'; cbn.
      * exists x; now rewrite Es.
      * cbn in Hk'; destruct (Hk k ltac:(lia)) as (y & Hy & Hn).
        exists y; rewrite <- Hm, <- Hv; split; assumption.
Qed.

Lemma rmap_Forall2 {A B C} (R : B -> C -> Prop) (f : A -> res B) (g : A -> res C) xs :
  forall ys zs, rmap f xs = Ok ys -> rmap g xs = Ok zs ->
  (forall a y z, In a xs -> f a = Ok y -> g a = Ok z -> R y z) -> Forall2 R ys zs.
Proof.
  induction xs as [|a xs IH]; intros ys zs Hf Hg HR; cbn in Hf, Hg.
  - injection Hf as <-; injection Hg as <-; constructor.
  - apply rbind_ok in Hf as [y [Hy Hf]]; apply rbind_ok in Hf as [ys' [Hys Hf]].
    apply rbind_ok in Hg as [z [Hz Hg]]; apply rbind_ok in Hg as [zs' [Hzs Hg]].
    injection Hf as <-; injection Hg as <-.
    constructor; [exact (HR a y z (or_introl eq_refl) Hy Hz)|].
    apply IH; auto; intros; eapply HR; eauto; now right.
Qed.

Lemma fold_add_Forall2 x es fs :
  Forall2 (fun a b => eval x a == eval x b) es fs ->
  forall a b, eval x a == eval x b ->
  eval x (fold_left EAdd es a) == eval x (fold_left EAdd fs b).
Proof.
  induction 1 as [|e f es fs Hef _ IH]; intros a b Hab; cbn; [exact Hab|].
  apply IH; cbn; rewrite Hab, Hef; reflexivity.
Qed.

Lemma py_sum_Forall2 x es fs :
  Forall2 (fun a b => eval x a == eval x b) es fs -> eval x (py_sum es) == eval x (py_sum fs).
Proof. intro H; apply fold_add_Forall2; [exact H|reflexivity]. Qed.

(** The right-hand side of the cut is the dual objective at [delta = ub]. *)
Lemma valid_ineq_rhs_dual hm ubs rhs e x :
  valid_ineq_rhs hm ubs = Ok rhs -> dual_obj hm = Ok e ->
  (forall i, (i < hours_num (hm_hp hm))%nat ->
     x (var_at hm "upper_level" "delta" i) == nth i ubs 0) ->
  eval x rhs == eval x e.
Proof.
  unfold valid_ineq_rhs, dual_obj; intros Hr He Hx.
  apply rbind_ok in Hr as [ts [Hts Hr]]; injection Hr as <-.
  apply rbind_ok in He as [ts' [Hts' He]]; injection He as <-.
  apply py_sum_Forall2.
  eapply rmap_Forall2; [exact Hts|exact Hts'|].
  intros i y z Hin Hy Hz; apply in_seq in Hin.
  apply rbind_ok in Hy as [u [Hu Hy]]; apply rbind_ok in Hz as [dv [Hdv Hz]].
  apply vA_var_at in Hdv; subst dv.
  unfold dual_obj_term in Hy, Hz.
  apply rbind_ok in Hy as [l [Hl Hy]]; apply rbind_ok in Hy as [d [Hd Hy]].
  rewrite Hl in Hz; cbn in Hz; rewrite Hd in Hz; cbn in Hz.
  injection Hy as <-; injection Hz as <-.
  unfold list_at in Hu; destruct (nth_error ubs i) as [u'|] eqn:Eu; [|discriminate].
  injection Hu as ->; apply nth_error_nth with (d := 0) in Eu.
  cbn; rewrite (Hx i ltac:(lia)), Eu; reflexivity.
Qed.

Lemma sos_valid_ineq_build_objs hp ap hk :
  sos_valid_ineq_build hp ap = Ok hk -> hm_hp hk = hp /\ objs_ok hk.
Proof.
  unfold sos_valid_ineq_build; intro H; apply rbind_ok in H as [h0 [H0 H]].
  apply kkt_build_shape in H0 as (_ & _ & Hhp & _ & _ & _ & Ok0 & _).
  apply add_sos_constrs_shape in H as (m & -> & _).
  split; [exact Hhp|exact (objs_ok_with_model _ _ Ok0)].
Qed.

(** C6: [sos_valid_ineq_attack] first solves, for every hour [i], the
    model of upper-level and primal rows with objective [delta_i] maximised,
    and reads the bound [ub_i] from it; then it adds exactly one row to the
    KKT and SOS1 model, primal objective <= the dual objective with [ub_i]
    in place of [delta_i], and solves that model. *)
Theorem valid_ineq_cut s hp ap w u w' :
  sos_valid_ineq_attack s hp ap w = Ok (u, w') ->
  exists hk hu ubs po rhs,
    sos_valid_ineq_build hp ap = Ok hk /\ ub_model_build hp ap = Ok hu /\
    w_solves w' = w_solves w ++ map (ub_model_for hu) (seq 0 (hours_num hp)) ++
                  [fst (addConstr (hm_model hk) (CLe po rhs))] /\
    length ubs = hours_num hp /\
    (forall i, (i < hours_num hp)%nat ->
       exists x, snd (s (ub_model_for hu i)) = Some x /\
                 nth i ubs 0 = x (var_at hu "upper_level" "delta" i)) /\
    dict_get "primal" (hm_obj hk) = Some po /\ primal_obj hk = Ok po /\
    valid_ineq_rhs hk ubs = Ok rhs /\
    exists e, dict_get "dual" (hm_obj hk) = Some e /\ dual_obj hk = Ok e /\
      forall x, (forall i, (i < hours_num hp)%nat ->
                   x (var_at hk "upper_level" "delta" i) == nth i ubs 0) ->
                eval x rhs == eval x e.
Proof.
  unfold sos_valid_ineq_attack, get_ub_valid_ineq; intro H.
  unfold mbind, lift, mret, print_val, print in H; cbv beta iota in H.
  destruct (sos_valid_ineq_build hp ap) as [hk|e] eqn:Ek; [|discriminate].
  destruct (ub_model_build hp ap) as [hu|e] eqn:Eu; [|discriminate].
  destruct (ub_loop s hu (seq 0 (length (demands hp))) w) as [[[hu' ubs] w1]|e] eqn:El;
    [|discriminate]; cbv beta iota in H.
  destruct (add_valid_ineq_constr hk ubs) as [hk'|e] eqn:Ec; [|discriminate].
  unfold solve in H; cbv beta iota in H.
  destruct (get_obj_value _ (Some "primal")) as [p|e]; [|discriminate]; cbn in H.
  destruct (get_obj_value _ (Some "dual")) as [d|e]; [|discriminate]; cbn in H.
  injection H as <- <-.
  destruct (ub_loop_trace _ _ _ _ _ _ _ El) as (Hw & Hl & Hx).
  rewrite length_seq in Hl, Hx.
  destruct (sos_valid_ineq_build_objs _ _ _ Ek) as (Hhp & _ & (po & Hpo & Hp) & (e & He & Hd)).
  unfold add_valid_ineq_constr, dict_at in Ec; rewrite Hpo in Ec; cbn in Ec.
  destruct (valid_ineq_rhs hk ubs) as [rhs|e'] eqn:Er; [|discriminate]; cbn in Ec.
  injection Ec as <-.
  exists hk, hu, ubs, po, rhs.
  split; [reflexivity|split; [reflexivity|]].
  split; [cbn; rewrite Hw, <- app_assoc; reflexivity|].
  split; [exact Hl|].
  split; [intros i Hi; destruct (Hx i Hi) as (x & Hs & Hn); unfold hours_num in Hi;
          rewrite seq_nth in Hs, Hn by lia;
          exists x; split; assumption|].
  split; [exact Hpo|split; [exact Hp|split; [exact Er|]]].
  exists e; split; [exact He|split; [exact Hd|]].
  intros x Hxd; apply (valid_ineq_rhs_dual hk ubs rhs e x Er Hd).
  rewrite Hhp; exact Hxd.
Qed.

(* ------------------------------------------------------------------ *)

Lemma xq_is_max_ext S S' d : (forall q, S q <-> S' q) -> xq_is_max S d -> xq_is_max S' d.
Proof.
  intro E; destruct d as [|q]; cbn.
  - intros H q' Hq; apply (H q'), E, Hq.
  - intros [H1 H2]; split; [apply E, H1|intros q' Hq; apply H2, E, Hq].
Qed.

Lemma xmax_is_max S1 S2 a b :
  xq_is_max S1 a -> xq_is_max S2 b -> xq_is_max (fun q => S1 q \/ S2 q) (xmax a b).
Proof.
  destruct a as [|x], b as [|y]; cbn.
  - intros H1 H2 q [Hq|Hq]; [apply (H1 q)|apply (H2 q)]; exact Hq.
  - intros H1 [Hy Hy']; split; [now right|intros q [Hq|Hq]; [destruct (H1 q Hq)|auto]].
  - intros [Hx Hx'] H2; split; [now left|intros q [Hq|Hq]; [auto|destruct (H2 q Hq)]].
  - intros [Hx Hx'] [Hy Hy'].
    destruct (Qle_bool y x) eqn:E; cbn.
    + apply Qle_bool_iff in E; split; [now left|].
      intros q [Hq|Hq]; [auto|apply Qle_trans with y; auto].
    + assert (x < y) by (apply Qnot_le_lt; intro Hle; apply Qle_bool_iff in Hle; congruence).
      split; [now right|].
      intros q [Hq|Hq]; [apply Qle_trans with x; [auto|apply Qlt_le_weak; auto]|auto].
Qed.

Lemma fold_max_spec (l : list Q) x :
  let r := fold_left (fun m y => if Qle_bool y m then m else y) l x in
  (r = x \/ In r l) /\ x <= r /\ forall y, In y l -> y <= r.
Proof.
  revert x; induction l as [|z l IH]; intro x; cbn.
  - split; [now left|split; [apply Qle_refl|tauto]].
  - destruct (Qle_bool z x) eqn:E.
    + destruct (IH x) as (H1 & H2 & H3); apply Qle_bool_iff in E.
      split; [destruct H1; [now left|right; now right]|split; [exact H2|]].
      intros y [<-|Hy]; [apply Qle_trans with x; auto|auto].
    + destruct (IH z) as (H1 & H2 & H3).
      assert (x < z) by (apply Qnot_le_lt; intro Hle; apply Qle_bool_iff in Hle; congruence).
      split; [destruct H1 as [->|H1]; right; [now left|now right]|].
      split; [apply Qle_trans with z; [apply Qlt_le_weak; auto|auto]|].
      intros y [<-|Hy]; auto.
Qed.

Lemma py_max_spec l q : py_max l = Ok q -> In q l /\ forall y, In y l -> y <= q.
Proof.
  destruct l as [|x l]; cbn; [discriminate|]; intro H; injection H as <-.
  destruct (fold_max_spec l x) as (H1 & H2 & H3).
  split; [destruct H1 as [->|H1]; [now left|now right]|].
  intros y [<-|Hy]; auto.
Qed.

Lemma nth_error_combine' {A B} (a : list A) (b : list B) j :
  nth_error (combine a b) j =
  match nth_error a j, nth_error b j with Some u, Some v => Some (u, v) | _, _ => None end.
Proof.
  revert b j; induction a as [|x a IH]; intros [|y b] [|j]; cbn; auto.
  destruct (nth_error a j); reflexivity.
Qed.

Lemma array_sub_spec a b d :
  array_sub a b = Ok d ->
  forall q, In q d <-> exists j u v, nth_error a j = Some u /\ nth_error b j = Some v /\ q = u - v.
Proof.
  unfold array_sub; destruct (Nat.eqb_spec (length a) (length b)) as [Hl|]; [|discriminate].
  intro H; injection H as <-; intro q; rewrite in_map_iff; split.
  - intros [[u v] [<- Hin]]; cbn.
    destruct (In_nth_error _ _ Hin) as [j Hj].
    rewrite nth_error_combine' in Hj.
    destruct (nth_error a j) eqn:Ea, (nth_error b j) eqn:Eb; try discriminate.
    injection Hj as -> ->; exists j, u, v; auto.
  - intros (j & u & v & Hu & Hv & ->); exists (u, v); split; [reflexivity|].
    apply nth_error_In with j; rewrite nth_error_combine', Hu, Hv; reflexivity.
Qed.

Lemma decrease_of_cons A B k a q :
  decrease_of ((k, a) :: A) B q <->
  (exists b j u v, dict_get k B = Some b /\ nth_error (as_array a) j = Some u /\
                   nth_error (as_array b) j = Some v /\ q = u - v) \/ decrease_of A B q.
Proof.
  split.
  - intros (k' & a' & b & j & u & v & [E|Hin] & Hb & Hu & Hv & Hq).
    + injection E as <- <-; left; exists b, j, u, v; auto.
    + right; exists k', a', b, j, u, v; auto.
  - intros [(b & j & u & v & Hb & Hu & Hv & Hq)|(k' & a' & b & j & u & v & Hin & Hb & Hu & Hv & Hq)].
    + exists k, a, b, j, u, v; split; [now left|auto].
    + exists k', a', b, j, u, v; split; [now right|auto].
Qed.

(** [diff_values A B] is the largest decrease of a component from [A] to [B]. *)
Lemma diff_values_spec A B r : diff_values A B = Ok r -> xq_is_max (decrease_of A B) r.
Proof.
  unfold diff_values.
  match goal with |- context [fold_left ?f A _] => set (step := f) end.
  assert (Herr : forall A0 e, fold_left step A0 (Err e) = Err e)
    by (induction A0; intro e; cbn; auto).
  assert (G : forall A0 S0 m, xq_is_max S0 m -> fold_left step A0 (Ok m) = Ok r ->
            xq_is_max (fun q => S0 q \/ decrease_of A0 B q) r).
  { induction A0 as [|[k a] A0 IH]; intros S0 m Hm H; cbn in H.
    - injection H as <-; revert Hm; apply xq_is_max_ext.
      intro q; split; [tauto|intros [Hq|(k & a & b & j & u & v & [] & _)]; exact Hq].
    - unfold dict_at in H; destruct (dict_get k B) as [b|] eqn:Eb;
        cbn [rbind] in H; [|rewrite Herr in H; discriminate].
      destruct (array_sub (as_array a) (as_array b)) as [d|e] eqn:Ed;
        cbn [rbind] in H; [|rewrite Herr in H; discriminate].
      destruct (py_max d) as [ld|e] eqn:El; cbn [rbind] in H; [|rewrite Herr in H; discriminate].
      apply py_max_spec in El as [Hin Hmax].
      pose proof (array_sub_spec _ _ _ Ed) as Hd.
      assert (H1 : xq_is_max (fun q => exists j u v, nth_error (as_array a) j = Some u /\
                     nth_error (as_array b) j = Some v /\ q = u - v) (Fin ld)).
      { cbn; split; [apply Hd, Hin|intros q' Hq'; apply Hmax, Hd, Hq']. }
      specialize (IH _ _ (xmax_is_max _ _ _ _ Hm H1) H).
      revert IH; apply xq_is_max_ext; intro q; rewrite decrease_of_cons; split.
      + intros [[Hq|(j & u & v & Hq)]|Hq]; [now left|right; left; exists b, j, u, v; auto|now right; right].
      + intros [Hq|[(b' & j & u & v & Hb' & Hq)|Hq]]; [now left; left| |now right].
        rewrite Eb in Hb'; injection Hb' as <-; left; right; exists j, u, v; exact Hq. }
  intro H; apply (G A (fun _ => False) NegInf) in H; [|cbn; tauto].
  revert H; apply xq_is_max_ext; intro q; tauto.
Qed.

Lemma xltb_below d se : xltb d se = true <-> diff_below d se.
Proof.
  destruct d as [|q]; cbn; [tauto|]; unfold Qltb; rewrite negb_true_iff; split.
  - intro H; apply Qnot_le_lt; intro Hle; apply Qle_bool_iff in Hle; congruence.
  - intro H; apply not_true_iff_false; intro Hle; apply Qle_bool_iff in Hle.
    apply (Qlt_not_le _ _ H Hle).
Qed.

Lemma exit_test_iff d se msi i :
  (xltb d se || Z.leb msi i)%bool = true <-> diff_below d se \/ (msi <= i)%Z.
Proof. rewrite orb_true_iff, xltb_below, Z.leb_le; tauto. Qed.

Lemma diff_ok_of p d u p' d' u' a b c :
  diff_values p p' = Ok a -> diff_values d d' = Ok b -> diff_values u u' = Ok c ->
  diff_ok (p, d, u) (p', d', u') (xmax (xmax a b) c).
Proof.
  intros Ha Hb Hc; cbn.
  pose proof (xmax_is_max _ _ _ _ (xmax_is_max _ _ _ _ (diff_values_spec _ _ _ Ha)
                (diff_values_spec _ _ _ Hb)) (diff_values_spec _ _ _ Hc)) as H.
  revert H; apply xq_is_max_ext; intro q; tauto.
Qed.

Lemma last_cons_default {A} (y : A) l d d' : last (y :: l) d = last (y :: l) d'.
Proof.
  revert y; induction l as [|z l IH]; intro y; [reflexivity|].
  change (last (z :: l) d = last (z :: l) d'); apply IH.
Qed.

Ltac destr_in H :=
  match type of H with
  | context [match ?x with _ => _ end] =>
      lazymatch x with
      | context [match _ with _ => _ end] => fail
      | _ => let E := fresh "E" in destruct x eqn:E
      end
  end; cbv beta iota in H; try discriminate H.

Lemma inner_loop_log s pp fuel : forall mu i0 hm pv dv uv w hm' pv' dv' uv' rs w',
  inner_loop s pp fuel mu i0 hm pv dv uv w = Ok ((hm', pv', dv', uv', rs), w') ->
  inner_ok (stationary_error pp) (max_stationary_iter pp) i0 (pv, dv, uv) rs /\
  last_new (pv, dv, uv) rs = (pv', dv', uv').
Proof.
  induction fuel as [|fuel IH]; intros mu i0 hm pv dv uv w hm' pv' dv' uv' rs w' H;
    [discriminate H|].
  cbn [inner_loop] in H; unfold mbind, lift, mret, print, solve in H; cbv beta iota in H.
  repeat destr_in H.
  - injection H as <- <- <- <- <- <-.
    cbn; split; [|reflexivity].
    split; [reflexivity|split; [reflexivity|split]].
    + eapply diff_ok_of; eassumption.
    + apply exit_test_iff; exact E12.
  - injection H as <- <- <- <- <- <-.
    destruct (IH _ _ _ _ _ _ _ _ _ _ _ _ _ E13) as [Hok Hlast].
    split.
    + cbn [inner_ok ii_i ii_old ii_new ii_diff].
      split; [reflexivity|split; [reflexivity|split; [eapply diff_ok_of; eassumption|]]].
      destruct l as [|r' rs0]; [destruct Hok|].
      split; [rewrite <- exit_test_iff, E12; discriminate|exact Hok].
    + destruct l as [|r' rs0]; [destruct Hok|].
      unfold last_new in *; cbn [map] in *.
      change (last (ii_new r' :: map ii_new rs0) (pv, dv, uv) = (s2, s1, s0)).
      rewrite (last_cons_default _ _ _ (a1, a6, a2)); exact Hlast.
Qed.

Lemma rel_gap_spec p d g : rel_gap p d = Ok g -> ~ (p == 0) /\ g == Qabs (p - d) / Qabs p.
Proof.
  unfold rel_gap; destruct (Qeq_bool p 0) eqn:E; [discriminate|].
  intro H; assert (Hg : Qabs ((p - d) / p) = g) by congruence; subst g; split.
  - intro Hp; apply Qeq_bool_iff in Hp; congruence.
  - unfold Qdiv; rewrite Qabs_Qmult, Qabs_Qinv; reflexivity.
Qed.

Lemma outer_test_iff g pe mpi j :
  (Qltb g pe || Z.leb mpi j)%bool = true <-> g < pe \/ (mpi <= j)%Z.
Proof.
  rewrite orb_true_iff, Z.leb_le; change (Qltb g pe = true) with (xltb (Fin g) pe = true).
  rewrite xltb_below; cbn; tauto.
Qed.

Lemma outer_loop_log s pp fuel : forall mu j hm pv dv uv w hm' rs w',
  outer_loop s pp fuel mu j hm pv dv uv w = Ok ((hm', rs), w') ->
  outer_ok pp mu j (pv, dv, uv) rs.
Proof.
  induction fuel as [|fuel IH]; intros mu j hm pv dv uv w hm' rs w' H; [discriminate H|].
  cbn [outer_loop] in H; unfold mbind, lift, mret, print in H; cbv beta iota in H.
  repeat destr_in H.
  - injection H as <- <- <-.
    destruct (inner_loop_log _ _ _ _ _ _ _ _ _ _ _ _ _ _ _ _ E) as [Hin _].
    destruct (rel_gap_spec _ _ _ E7) as [Hp Hg].
    cbn; split; [reflexivity|split; [reflexivity|split; [exact Hin|split; [exact Hp|]]]].
    split; [exact Hg|apply outer_test_iff; exact E8].
  - injection H as <- <- <-.
    destruct (inner_loop_log _ _ _ _ _ _ _ _ _ _ _ _ _ _ _ _ E) as [Hin Hlast].
    destruct (rel_gap_spec _ _ _ E7) as [Hp Hg].
    pose proof (IH _ _ _ _ _ _ _ _ _ _ E9) as Hrest.
    cbn [outer_ok oi_j oi_mu oi_inner oi_primal oi_dual oi_gap].
    split; [reflexivity|split; [reflexivity|split; [exact Hin|split; [exact Hp|]]]].
    split; [exact Hg|].
    destruct l0 as [|r' rs0]; [destruct Hrest|].
    split; [rewrite <- outer_test_iff, E8; discriminate|].
    rewrite Hlast; exact Hrest.
Qed.

(** C5: every log of a successful [PADM_attack] run follows the loop
    control: an inner loop stops exactly when the largest decrease of the
    snapshots is below [stationary_error] or its counter reaches
    [max_stationary_iter]; an outer iteration stops the run exactly when the
    relative gap is below [penalty_error] or its counter reaches
    [max_penalty_iter], and otherwise the next one runs with [mu] multiplied
    by [increase_factor]. *)
Theorem PADM_loop_control s pp hp ap w log w' :
  PADM_attack s pp hp ap w = Ok (log, w') ->
  exists pv dv uv, outer_ok pp (initial_mu pp) 0 (pv, dv, uv) log.
Proof.
  unfold PADM_attack; intro H.
  unfold mbind, lift, mret, print_val, print, solve in H; cbv beta iota in H.
  repeat destr_in H.
  injection H as <- <-; subst.
  exists a0, a1, a2; eapply outer_loop_log; exact E3.
Qed.

Lemma PADM_loop_control_witness :
  exists log w', PADM_attack (solver_const 1) PADM_three hp_two default_attack world0 = Ok (log, w') /\
    map oi_mu log = [1; 2; 4] /\
    exists pv dv uv, outer_ok PADM_three (initial_mu PADM_three) 0 (pv, dv, uv) log.
Proof.
  do 2 eexists; split; [vm_compute; reflexivity|].
  split; [vm_compute; reflexivity|].
  eapply (PADM_loop_control (solver_const 1) PADM_three hp_two default_attack world0).
  vm_compute; reflexivity.
Defined.

Lemma valid_ineq_cut_witness :
  exists w', sos_valid_ineq_attack (solver_zero OPTIMAL) hp_two default_attack world0 = Ok (tt, w') /\
  exists hk hu ubs po rhs,
    sos_valid_ineq_build hp_two default_attack = Ok hk /\ ub_model_build hp_two default_attack = Ok hu /\
    w_solves w' = w_solves world0 ++ map (ub_model_for hu) (seq 0 (hours_num hp_two)) ++
                  [fst (addConstr (hm_model hk) (CLe po rhs))] /\
    length ubs = hours_num hp_two /\
    (forall i, (i < hours_num hp_two)%nat ->
       exists x, snd (solver_zero OPTIMAL (ub_model_for hu i)) = Some x /\
                 nth i ubs 0 = x (var_at hu "upper_level" "delta" i)) /\
    dict_get "primal" (hm_obj hk) = Some po /\ primal_obj hk = Ok po /\
    valid_ineq_rhs hk ubs = Ok rhs /\
    exists e, dict_get "dual" (hm_obj hk) = Some e /\ dual_obj hk = Ok e /\
      forall x, (forall i, (i < hours_num hp_two)%nat ->
                   x (var_at hk "upper_level" "delta" i) == nth i ubs 0) ->
                eval x rhs == eval x e.
Proof.
  eexists; split; [vm_compute; reflexivity|].
  eapply (valid_ineq_cut (solver_zero OPTIMAL) hp_two default_attack world0 tt).
  vm_compute; reflexivity.
Defined.

(* ------------------------------------------------------------------ *)

Lemma eval_py_sum_seq x (g : nat -> expr) n :
  eval x (py_sum (map g (seq 0 n))) = qsum (fun i => eval x (g i)) n.
Proof.
  unfold py_sum; induction n as [|n IH]; [reflexivity|].
  rewrite seq_S, map_app, fold_left_app; simpl; now rewrite IH.
Qed.

Lemma qsum_ext f g n : (forall i, (i < n)%nat -> f i == g i) -> qsum f n == qsum g n.
Proof.
  induction n as [|n IH]; intro Hfg; simpl; [reflexivity|].
  rewrite IH by (intros; apply Hfg; lia); now rewrite (Hfg n) by lia.
Qed.

Lemma qsum_plus f g n : qsum (fun i => f i + g i) n == qsum f n + qsum g n.
Proof. induction n as [|n IH]; simpl; [reflexivity|]; rewrite IH; ring. Qed.

Lemma qsum_minus f g n : qsum (fun i => f i - g i) n == qsum f n - qsum g n.
Proof. induction n as [|n IH]; simpl; [reflexivity|]; rewrite IH; ring. Qed.

Lemma qsum_scale c f n : qsum (fun i => c * f i) n == c * qsum f n.
Proof. induction n as [|n IH]; simpl; [ring|]; rewrite IH; ring. Qed.

Lemma qsum_nonneg f n : (forall i, (i < n)%nat -> 0 <= f i) -> 0 <= qsum f n.
Proof.
  induction n as [|n IH]; intro Hf; simpl; [apply Qle_refl|].
  assert (H1 : 0 <= qsum f n) by (apply IH; intros; apply Hf; lia).
  assert (H2 : 0 <= f n) by (apply Hf; lia).
  lra.
Qed.

Lemma qsum_zero f n :
  (forall i, (i < n)%nat -> 0 <= f i) -> qsum f n == 0 -> forall i, (i < n)%nat -> f i == 0.
Proof.
  induction n as [|n IH]; intros Hf Hs i Hi; [lia|]; simpl in Hs.
  assert (H1 : 0 <= qsum f n) by (apply qsum_nonneg; intros; apply Hf; lia).
  assert (H2 : 0 <= f n) by (apply Hf; lia).
  assert (Hn : f n == 0) by lra.
  destruct (Nat.eq_dec i n) as [->|Hne]; [exact Hn|].
  apply IH; [intros; apply Hf; lia|lra|lia].
Qed.

Lemma qsum_S_l f n : qsum f (S n) == f 0%nat + qsum (fun i => f (S i)) n.
Proof.
  induction n as [|n IH]; [simpl; ring|].
  change (qsum f (S (S n))) with (qsum f (S n) + f (S n)); rewrite IH; simpl; ring.
Qed.

(** The circular predecessor permutes the hours. *)
Lemma qsum_prev f H : (0 < H)%nat -> qsum (fun i => f (prev H i)) H == qsum f H.
Proof.
  intro HH; destruct H as [|n]; [lia|].
  rewrite qsum_S_l; unfold prev at 1; simpl Nat.eqb; cbv iota.
  rewrite (qsum_ext (fun i => f (prev (S n) (S i))) f n)
    by (intros i _; unfold prev; simpl; now rewrite Nat.sub_0_r).
  simpl; rewrite Nat.sub_0_r; ring.
Qed.

Lemma rmap_pure_in {A B} (f : A -> res B) (g : A -> B) xs :
  (forall a, In a xs -> f a = Ok (g a)) -> rmap f xs = Ok (map g xs).
Proof.
  induction xs as [|a xs IH]; intro Hf; simpl; [reflexivity|].
  rewrite (Hf a (or_introl eq_refl)); simpl.
  rewrite IH by (intros; apply Hf; now right); reflexivity.
Qed.

Lemma rmap_seq_in {B} (f : nat -> res B) n ys y :
  rmap f (seq 0 n) = Ok ys -> In y ys -> exists i, (i < n)%nat /\ f i = Ok y.
Proof.
  intros Hr Hy; apply rmap_seq_ok in Hr as [Hl Hn].
  destruct (In_nth ys y y Hy) as (k & Hk & Hky).
  exists k; split; [lia|]; rewrite <- Hky; apply Hn; lia.
Qed.

Lemma in_combine_ex {A B} (ids : list A) (cs : list B) c (d : A) :
  length ids = length cs -> In c cs -> exists id, In (id, c) (combine ids cs).
Proof.
  intros Hl Hc; destruct (In_nth cs c c Hc) as (k & Hk & Hkc).
  exists (nth k ids d); rewrite <- Hkc, <- combine_nth by exact Hl.
  apply nth_In; rewrite length_combine; lia.
Qed.

Lemma list_at_nth (l : list Q) i : (i < length l)%nat -> list_at l i = Ok (nth i l 0).
Proof.
  intro Hi; unfold list_at; rewrite (nth_error_nth' l 0 Hi); reflexivity.
Qed.

(** *** The columns of the layout *)

Ltac qdec := first [ apply Qle_bool_imp_le; vm_compute; reflexivity
                   | apply Qle_refl ].

Lemma layout_cols_bounds0 H c : In c (layout_cols H 0 0) -> in_bounds c 0.
Proof.
  intro Hin; cut (c_lb c <= 0 /\ 0 <= c_ub c).
  { intros [Hl Hu]; unfold in_bounds; split; [now right|split; [now right|]].
    intros _; left; reflexivity. }
  unfold layout_cols, block, single in Hin.
  repeat (apply in_app_or in Hin; destruct Hin as [Hin|Hin]);
    try (apply in_map_iff in Hin as (j & <- & _));
    try (destruct Hin as [<-|[]]); simpl; split; qdec.
Qed.

Lemma layout_cols_mid H l u k :
  (2 * H <= k < 8 * H + 2)%nat ->
  exists c, nth_error (layout_cols H l u) k = Some c /\ c_lb c = 0 /\
            c_ub c = GRB_INFINITY /\ c_type c = CONTINUOUS.
Proof.
  intro Hk.
  set (mid := block "energy_PV" H 0 GRB_INFINITY CONTINUOUS ++
              block "energy_battery" H 0 GRB_INFINITY CONTINUOUS ++
              block "energy_battery_in" H 0 GRB_INFINITY CONTINUOUS ++
              block "energy_battery_out" H 0 GRB_INFINITY CONTINUOUS ++
              block "energy_buy" H 0 GRB_INFINITY CONTINUOUS ++
              block "energy_sell" H 0 GRB_INFINITY CONTINUOUS ++
              single "capacity_battery" 0 GRB_INFINITY CONTINUOUS ++
              single "capacity_PV" 0 GRB_INFINITY CONTINUOUS).
  assert (Hmid : forall c, In c mid ->
            c_lb c = 0 /\ c_ub c = GRB_INFINITY /\ c_type c = CONTINUOUS).
  { intros c Hin; unfold mid, block, single in Hin.
    repeat (apply in_app_or in Hin; destruct Hin as [Hin|Hin]);
      try (apply in_map_iff in Hin as (j & <- & _));
      try (destruct Hin as [<-|[]]); simpl; auto. }
  assert (Hlen : length mid = (6 * H + 2)%nat).
  { unfold mid, block, single; rewrite ?length_app, ?length_map, ?length_seq; simpl; lia. }
  assert (Hl : length (block "delta" H l u CONTINUOUS) = H)
    by (unfold block; now rewrite length_map, length_seq).
  assert (Hl' : length (block "abs" H (- GRB_INFINITY) GRB_INFINITY CONTINUOUS) = H)
    by (unfold block; now rewrite length_map, length_seq).
  assert (Hsplit : exists tl, layout_cols H l u =
            block "delta" H l u CONTINUOUS ++
            block "abs" H (- GRB_INFINITY) GRB_INFINITY CONTINUOUS ++ mid ++ tl).
  { eexists; unfold layout_cols, mid; cbv zeta; rewrite <- !app_assoc; reflexivity. }
  destruct Hsplit as [tl ->].
  destruct (nth_error mid (k - 2 * H)) as [c|] eqn:Ec;
    [|apply nth_error_None in Ec; lia].
  exists c; split; [|apply Hmid; eapply nth_error_In; exact Ec].
  rewrite nth_error_app2 by lia; rewrite Hl.
  rewrite nth_error_app2 by lia; rewrite Hl'.
  rewrite nth_error_app1 by lia.
  rewrite <- Ec; f_equal; lia.
Qed.

(** *** The primal rows on the layout, as expressions over column numbers *)

Section LayoutRows.
Variable hm : house.
Hypothesis Hv : hm_vars hm = layout_vars (hours_num (hm_hp hm)).
Variable i : nat.
Hypothesis Hi : (i < hours_num (hm_hp hm))%nat.

Local Open Scope nat_scope.

Lemma eq_demand_row_at :
  let H := hours_num (hm_hp hm) in
  eq_demand_row hm i =
  Ok (CEq (EVar (6*H+i)%nat - EVar (7*H+i)%nat + EVar (5*H+i)%nat - EVar (4*H+i)%nat + EVar (2*H+i)%nat)%E
          (EConst (nth i (demands (hm_hp hm)) 0 * total_demand (hm_hp hm))%Q
           * (EConst 1 + EVar i%nat))%E).
Proof.
  intro H; unfold eq_demand_row, vA; lookups Hv (hours_num (hm_hp hm)).
  rewrite list_at_nth by exact Hi; cbn [rbind].
  lookups Hv (hours_num (hm_hp hm)); reflexivity.
Qed.

Lemma eq_battery_row_at :
  let H := hours_num (hm_hp hm) in
  eq_battery_row hm i =
  Ok (CEq (EVar (3*H + prev H i)%nat + EVar (4*H+i)%nat - EVar (5*H+i)%nat)%E (EVar (3*H+i)%nat)).
Proof.
  intro H; pose proof (prev_lt _ _ Hi).
  unfold eq_battery_row, vA; lookups Hv (hours_num (hm_hp hm)); reflexivity.
Qed.

Lemma limit_PV_row_at :
  i < length (PV_availabilities (hm_hp hm)) ->
  let H := hours_num (hm_hp hm) in
  limit_PV_row hm i =
  Ok (CLe (EVar (2*H+i)%nat) (EVar (8*H+1)%nat * EConst (nth i (PV_availabilities (hm_hp hm)) 0%Q))%E).
Proof.
  intros Hp H; unfold limit_PV_row, vA, vS; lookups Hv (hours_num (hm_hp hm)).
  rewrite list_at_nth by exact Hp; reflexivity.
Qed.

Lemma limit_battery_row_at :
  let H := hours_num (hm_hp hm) in
  limit_battery_row hm i = Ok (CLe (EVar (3*H+i)%nat) (EVar (8*H)%nat)).
Proof.
  intro H; unfold limit_battery_row, vA, vS; lookups Hv (hours_num (hm_hp hm)); reflexivity.
Qed.

Lemma var_at_buy : var_at hm "primal" "energy_buy" i = 6 * hours_num (hm_hp hm) + i.
Proof. unfold var_at; lookups Hv (hours_num (hm_hp hm)); reflexivity. Qed.

End LayoutRows.

Section LayoutObj.
Variable hm : house.
Hypothesis Hv : hm_vars hm = layout_vars (hours_num (hm_hp hm)).

Local Open Scope nat_scope.

Lemma var_s_capacities :
  var_s hm "primal" "capacity_PV" = 8 * hours_num (hm_hp hm) + 1 /\
  var_s hm "primal" "capacity_battery" = 8 * hours_num (hm_hp hm).
Proof. unfold var_s; split; lookups Hv (hours_num (hm_hp hm)); reflexivity. Qed.

Lemma primal_obj_at cPV cB :
  cost_PV (hm_hp hm) = Ok cPV -> cost_battery (hm_hp hm) = Ok cB ->
  let H := hours_num (hm_hp hm) in
  primal_obj hm =
  Ok (EConst cPV * EVar (8*H+1)%nat + EConst cB * EVar (8*H)%nat
      + EConst (cost_buy (hm_hp hm)) * py_sum (map (fun i => EVar (6*H+i)%nat) (seq 0 H))
      - EConst (sell_price (hm_hp hm)) * py_sum (map (fun i => EVar (7*H+i)%nat) (seq 0 H)))%E.
Proof.
  intros E1 E2 H; unfold primal_obj; rewrite E1; cbn [rbind]; unfold vS.
  lookups Hv (hours_num (hm_hp hm)); rewrite E2; cbn [rbind].
  lookups Hv (hours_num (hm_hp hm)).
  rewrite (rmap_pure_in _ (fun i => EVar (6*H+i)%nat)); cbn [rbind].
  2:{ intros a Ha; apply in_seq in Ha; unfold vA.
      lookups Hv (hours_num (hm_hp hm)); reflexivity. }
  rewrite (rmap_pure_in _ (fun i => EVar (7*H+i)%nat)); cbn [rbind]; [reflexivity|].
  intros a Ha; apply in_seq in Ha; unfold vA.
  lookups Hv (hours_num (hm_hp hm)); reflexivity.
Qed.

End LayoutObj.

Lemma add_primal_constrs_cover hm hm' :
  add_primal_constrs hm = Ok hm' ->
  forall id c, In (id, c) (m_rows (hm_model hm')) ->
  In (id, c) (m_rows (hm_model hm)) \/ primal_row hm c.
Proof.
  intros H id c Hr; unfold add_primal_constrs in H; res_crush H; subst hm'; cbn in Hr.
  repeat match goal with E : addConstrs _ _ _ = Ok _ |- _ =>
    apply addConstrs_spec in E as (?cs & ?Hcs & ?Hrows & _) end.
  repeat match goal with
  | Hr : In (id, c) (m_rows ?m), Hq : m_rows ?m = _ ++ combine _ _ |- _ =>
      rewrite Hq in Hr; apply in_app_or in Hr; destruct Hr as [Hr|Hr];
      [|apply in_combine_r in Hr; right;
        match goal with Hc : rmap _ (seq 0 _) = Ok _ |- _ =>
          first [ destruct (rmap_seq_in _ _ _ _ Hc Hr) as (i & Hi & Hci);
                  exists i; split; [exact Hi|]; tauto ] end]
  end.
  left; exact Hr.
Qed.

Lemma fix_vars_cover hm name q hm' grp :
  fix_vars hm name (Some q) = Ok hm' -> dict_get name (hm_vars hm) = Some grp ->
  hm_hp hm' = hm_hp hm /\ hm_vars hm' = hm_vars hm /\ hm_obj hm' = hm_obj hm /\
  m_cols (hm_model hm') = m_cols (hm_model hm) /\
  (forall r, In r (m_rows (hm_model hm)) -> In r (m_rows (hm_model hm'))) /\
  (forall id c, In (id, c) (m_rows (hm_model hm')) ->
     In (id, c) (m_rows (hm_model hm)) \/
     exists v, In v (group_vars grp) /\ c = CEq (EConst q) (EVar v)) /\
  (forall v, In v (group_vars grp) ->
     exists id, In (id, CEq (EConst q) (EVar v)) (m_rows (hm_model hm'))).
Proof.
  intros Hf Hg; apply fix_vars_shape in Hf as (grp' & cs & m & ids & Hg' & Hcs & Ha & ->).
  rewrite Hg in Hg'; injection Hg' as <-.
  apply fix_rows_spec in Hcs; subst cs; cbn [pin_value] in *.
  apply addConstrList_spec in Ha as (Hr & Hids & _ & Hc & _).
  cbn [with_fix hm_hp hm_vars hm_obj hm_model]; rewrite Hc, Hr.
  assert (Hl : length ids = length (map (fun v => CEq (EConst q) (EVar v)) (group_vars grp)))
    by (rewrite Hids, length_seq; reflexivity).
  repeat split.
  - intros r Hin; apply in_or_app; now left.
  - intros id c Hin; apply in_app_or in Hin as [Hin|Hin]; [now left|right].
    apply in_combine_r, in_map_iff in Hin as (v & <- & Hv); eauto.
  - intros v Hv.
    destruct (in_combine_ex ids _ (CEq (EConst q) (EVar v)) 0%nat Hl) as [id Hid];
      [apply in_map_iff; eauto|].
    exists id; apply in_or_app; now right.
Qed.

Lemma add_primal_constrs_cols hm hm' :
  add_primal_constrs hm = Ok hm' -> m_cols (hm_model hm') = m_cols (hm_model hm).
Proof.
  intro H; unfold add_primal_constrs in H; res_crush H; subst hm'; cbn.
  repeat match goal with E : addConstrs _ _ _ = Ok _ |- _ =>
    apply addConstrs_spec in E as (?cs & _ & _ & _ & _ & ?Hc & _) end.
  congruence.
Qed.

Section RowCongr.
Variables a b : house.
Hypothesis Hhp : hm_hp a = hm_hp b.
Hypothesis Hvs : hm_vars a = hm_vars b.

Lemma eq_demand_row_congr : eq_demand_row a = eq_demand_row b.
Proof. unfold eq_demand_row; now rewrite (vA_congr a b Hvs), Hhp. Qed.
Lemma eq_battery_row_congr : eq_battery_row a = eq_battery_row b.
Proof. unfold eq_battery_row; now rewrite (vA_congr a b Hvs), Hhp. Qed.
Lemma limit_PV_row_congr : limit_PV_row a = limit_PV_row b.
Proof. unfold limit_PV_row; now rewrite (vA_congr a b Hvs), (vS_congr a b Hvs), Hhp. Qed.
Lemma limit_battery_row_congr : limit_battery_row a = limit_battery_row b.
Proof. unfold limit_battery_row; now rewrite (vA_congr a b Hvs), (vS_congr a b Hvs). Qed.
Lemma primal_row_congr : primal_row a = primal_row b.
Proof.
  unfold primal_row; now rewrite eq_demand_row_congr, eq_battery_row_congr,
    limit_PV_row_congr, limit_battery_row_congr, Hhp.
Qed.
End RowCongr.

(** *** The baseline model: [primal_model_build] with [delta] pinned to 0 *)

Section Baseline.
Variables (hp : HouseParams) (ap : AttackParams) (hm : house).
Hypothesis Hl : lb ap = QScalar 0.
Hypothesis Hu : ub ap = QScalar 0.
Hypothesis Hb : primal_model_build hp ap = Ok hm.

Lemma baseline_layout :
  let H := hours_num hp in
  hm_hp hm = hp /\ hm_vars hm = layout_vars H /\
  m_cols (hm_model hm) = layout_cols H 0 0 /\
  m_sense (hm_model hm) = MINIMIZE /\ primal_obj hm = Ok (m_obj (hm_model hm)) /\
  (forall id c, In (id, c) (m_rows (hm_model hm)) ->
     primal_row hm c \/ exists v, (v < 2 * H)%nat /\ c = CEq (EConst 0) (EVar v)) /\
  (forall i, (i < H)%nat ->
     (exists c id, eq_demand_row hm i = Ok c /\ In (id, c) (m_rows (hm_model hm))) /\
     (exists c id, eq_battery_row hm i = Ok c /\ In (id, c) (m_rows (hm_model hm))) /\
     (exists c id, limit_PV_row hm i = Ok c /\ In (id, c) (m_rows (hm_model hm))) /\
     (exists c id, limit_battery_row hm i = Ok c /\ In (id, c) (m_rows (hm_model hm)))) /\
  (forall v, (v < 2 * H)%nat ->
     exists id, In (id, CEq (EConst 0) (EVar v)) (m_rows (hm_model hm))).
Proof.
  intro H; unfold primal_model_build in Hb.
  pose proof (add_vars_layout ap hp 0 0 Hl Hu) as E0; cbv zeta in E0.
  rewrite E0 in Hb; cbn [rbind] in Hb.
  apply rbind_ok in Hb as [hm1 [E1 Hb']]; apply rbind_ok in Hb' as [hm2 [E2 E3]].
  pose proof (add_primal_constrs_rows _ _ E1) as (Hhp1 & Hv1 & Hrows1).
  pose proof (add_primal_constrs_cover _ _ E1) as Hcov1.
  pose proof (add_primal_constrs_cols _ _ E1) as Hc1.
  destruct (add_primal_constrs_shape _ _ E1) as (m1 & o & -> & Ho & _).
  cbn [hm_hp hm_vars hm_model hm_obj with_obj] in *.
  destruct (fix_vars_cover _ _ _ _ [("delta", VMany (seq 0 H)); ("abs", VMany (seq H H))] E2)
    as (Hhp2 & Hv2 & Ho2 & Hc2 & Hinc2 & Hcov2 & Hpin2); [cbn [hm_vars with_obj]; reflexivity|].
  cbn [hm_hp hm_vars hm_model hm_obj with_obj] in *.
  apply set_obj_shape in E3 as (s & o' & Ho' & -> & Hs).
  rewrite Ho2 in Ho'; cbn [hm_obj with_obj] in Ho'; rewrite dict_get_set_same in Ho'.
  injection Ho' as <-.
  assert (Hs' : s = MINIMIZE) by (apply Hs; simpl; auto).
  cbn [with_model hm_hp hm_vars hm_model setObjective m_cols m_rows m_obj m_sense].
  rewrite Hhp2, Hv2, Hc2, Hc1.
  set (hm0 := mkhouse hp (mkmodel (layout_cols H 0 0) [] 0 (EConst 0) MINIMIZE [])
                      None (layout_vars H) [] []) in *.
  set (hmf := with_model hm2 (setObjective (hm_model hm2) o s)).
  assert (Hvs : hm_vars hmf = hm_vars hm0) by (cbn; exact Hv2).
  assert (Hhp : hm_hp hmf = hm_hp hm0) by (cbn; exact Hhp2).
  rewrite (eq_demand_row_congr _ _ Hhp Hvs), (eq_battery_row_congr _ _ Hhp Hvs),
    (limit_PV_row_congr _ _ Hhp Hvs), (limit_battery_row_congr _ _ Hvs),
    (primal_row_congr _ _ Hhp Hvs), (primal_obj_congr _ _ Hhp Hvs).
  split; [reflexivity|split; [reflexivity|split; [reflexivity|split; [exact Hs'|]]]].
  split; [exact Ho|split; [|split]].
  - intros id c Hin; apply Hcov2 in Hin as [Hin|Hin]; [left|right].
    + apply Hcov1 in Hin as [[]|Hin]; exact Hin.
    + destruct Hin as (v & Hv & ->); exists v; split; [|reflexivity].
      cbn [group_vars flat_map slot_vars snd] in Hv; rewrite app_nil_r in Hv.
      apply in_app_or in Hv as [Hv|Hv]; apply in_seq in Hv; lia.
  - intros i Hi; destruct (Hrows1 i Hi) as (R1 & R2 & R3 & R4).
    repeat split;
      [destruct R1 as (c & id & Hc & Hin)|destruct R2 as (c & id & Hc & Hin)
      |destruct R3 as (c & id & Hc & Hin)|destruct R4 as (c & id & Hc & Hin)];
      exists c, id; (split; [exact Hc|apply Hinc2; exact Hin]).
  - intros v Hv; apply Hpin2; cbn [group_vars flat_map slot_vars snd]; rewrite app_nil_r.
    apply in_or_app; destruct (Nat.lt_ge_cases v H); [left|right]; apply in_seq; lia.
Qed.
End Baseline.

Lemma baseline_point_buy hp i :
  (i < hours_num hp)%nat ->
  baseline_point hp (6 * hours_num hp + i)%nat = nth i (demands hp) 0 * total_demand hp.
Proof.
  intro Hi; unfold baseline_point.
  replace (Nat.leb _ _) with true by (symmetry; apply Nat.leb_le; lia).
  replace (Nat.ltb _ _) with true by (symmetry; apply Nat.ltb_lt; lia).
  simpl; f_equal; f_equal; lia.
Qed.

Lemma baseline_point_out hp k :
  (k < 6 * hours_num hp \/ 7 * hours_num hp <= k)%nat -> baseline_point hp k = 0.
Proof.
  intro Hk; unfold baseline_point.
  destruct (Nat.leb_spec (6 * hours_num hp) k), (Nat.ltb_spec k (7 * hours_num hp));
    simpl; try reflexivity; lia.
Qed.

Lemma INF_BOUND_pos : ~ (0 <= - INF_BOUND).
Proof. intro H; apply Qle_bool_iff in H; vm_compute in H; discriminate H. Qed.

Lemma mid_nonneg m H x k :
  (forall k c, nth_error (m_cols m) k = Some c -> in_bounds c (x k)) ->
  m_cols m = layout_cols H 0 0 -> (2 * H <= k < 8 * H + 2)%nat -> 0 <= x k.
Proof.
  intros Hb Hc Hk; destruct (layout_cols_mid H 0 0 k Hk) as (c & Hn & Hlb & _).
  rewrite <- Hc in Hn; destruct (Hb _ _ Hn) as [[Hl|Hl] _]; rewrite Hlb in Hl;
    [exfalso; exact (INF_BOUND_pos Hl)|exact Hl].
Qed.

Section BaselineOpt.
Variables (hp : HouseParams) (ap : AttackParams) (hm : house) (cPV cB : Q).
Hypothesis Hl : lb ap = QScalar 0.
Hypothesis Hu : ub ap = QScalar 0.
Hypothesis Hb : primal_model_build hp ap = Ok hm.
Hypothesis HH : (0 < hours_num hp)%nat.
Hypothesis HPVl : (hours_num hp <= length (PV_availabilities hp))%nat.
Hypothesis HPV : forall i, (i < hours_num hp)%nat -> nth i (PV_availabilities hp) 0 == 0.
Hypothesis Hc1 : cost_PV hp = Ok cPV.
Hypothesis Hc2 : cost_battery hp = Ok cB.

Local Abbreviation H := (hours_num hp).

(** What a feasible assignment satisfies, by column number. *)
Lemma baseline_feasible_facts x :
  feasible (hm_model hm) x ->
  (forall i, (i < H)%nat ->
     x (6*H+i)%nat - x (7*H+i)%nat + x (5*H+i)%nat - x (4*H+i)%nat + x (2*H+i)%nat
       == nth i (demands hp) 0 * total_demand hp * (1 + x i) /\
     x (3*H + prev H i)%nat + x (4*H+i)%nat - x (5*H+i)%nat == x (3*H+i)%nat /\
     x (2*H+i)%nat <= x (8*H+1)%nat * nth i (PV_availabilities hp) 0 /\
     x (3*H+i)%nat <= x (8*H)%nat /\ x i == 0) /\
  (forall k, (2 * H <= k < 8 * H + 2)%nat -> 0 <= x k) /\
  eval x (m_obj (hm_model hm)) ==
    cPV * x (8*H+1)%nat + cB * x (8*H)%nat
    + cost_buy hp * qsum (fun i => x (6*H+i)%nat) H
    - sell_price hp * qsum (fun i => x (7*H+i)%nat) H.
Proof.
  intros [Hrows Hcols].
  destruct (baseline_layout hp ap hm Hl Hu Hb)
    as (Hhp & Hv & Hc & _ & Ho & _ & Hfam & Hpin).
  assert (Hv' : hm_vars hm = layout_vars (hours_num (hm_hp hm))) by (now rewrite Hhp).
  split; [|split].
  - intros i Hi; destruct (Hfam i Hi) as (R1 & R2 & R3 & R4).
    assert (Hi' : (i < hours_num (hm_hp hm))%nat) by (now rewrite Hhp).
    destruct R1 as (c1 & id1 & E1 & I1); rewrite (eq_demand_row_at hm Hv' i Hi') in E1.
    destruct R2 as (c2 & id2 & E2 & I2); rewrite (eq_battery_row_at hm Hv' i Hi') in E2.
    destruct R3 as (c3 & id3 & E3 & I3);
      rewrite (limit_PV_row_at hm Hv' i) in E3 by (rewrite Hhp; lia).
    destruct R4 as (c4 & id4 & E4 & I4); rewrite (limit_battery_row_at hm Hv' i Hi') in E4.
    injection E1 as <-; injection E2 as <-; injection E3 as <-; injection E4 as <-.
    destruct (Hpin i ltac:(lia)) as [id5 I5].
    apply Hrows in I1, I2, I3, I4, I5; simpl in I1, I2, I3, I4, I5.
    rewrite Hhp in I1, I2, I3, I4.
    repeat split; try assumption.
    rewrite <- I5; reflexivity.
  - intros k Hk; exact (mid_nonneg _ H x k Hcols Hc Hk).
  - assert (Hc1' : cost_PV (hm_hp hm) = Ok cPV) by (now rewrite Hhp).
    assert (Hc2' : cost_battery (hm_hp hm) = Ok cB) by (now rewrite Hhp).
    rewrite (primal_obj_at hm Hv' cPV cB Hc1' Hc2') in Ho.
    injection Ho as <-; cbn [eval]; rewrite !eval_py_sum_seq; rewrite Hhp.
    reflexivity.
Qed.

(** The cost of a feasible assignment: investment, the bought demand and
    the margin lost on every sold unit. *)
Lemma baseline_cost x :
  feasible (hm_model hm) x ->
  eval x (m_obj (hm_model hm)) ==
    cPV * x (8*H+1)%nat + cB * x (8*H)%nat
    + cost_buy hp * qsum (fun i => nth i (demands hp) 0 * total_demand hp) H
    + (cost_buy hp - sell_price hp) * qsum (fun i => x (7*H+i)%nat) H.
Proof.
  intro Hf; destruct (baseline_feasible_facts x Hf) as (F & Bd & ->).
  assert (Hd : qsum (fun i => x (6*H+i)%nat - x (7*H+i)%nat) H ==
               qsum (fun i => nth i (demands hp) 0 * total_demand hp
                              + (x (3*H+i)%nat - x (3*H + prev H i)%nat)) H).
  { apply qsum_ext; intros i Hi; destruct (F i Hi) as (E & B & P & L & D).
    rewrite (HPV i Hi), Qmult_0_r in P.
    assert (P0 : 0 <= x (2*H+i)%nat) by (apply Bd; lia).
    rewrite D in E; lra. }
  rewrite qsum_minus, qsum_plus, qsum_minus in Hd.
  pose proof (qsum_prev (fun j => x (3*H+j)%nat) H HH) as Hp; cbv beta in Hp.
  rewrite Hp in Hd.
  assert (Hs : qsum (fun i => x (6*H+i)%nat) H ==
               qsum (fun i => nth i (demands hp) 0 * total_demand hp) H
               + qsum (fun i => x (7*H+i)%nat) H) by lra.
  rewrite Hs; ring.
Qed.

Lemma baseline_lower x :
  0 <= cPV -> 0 <= cB -> sell_price hp <= cost_buy hp ->
  feasible (hm_model hm) x ->
  cost_buy hp * qsum (fun i => nth i (demands hp) 0 * total_demand hp) H
    <= eval x (m_obj (hm_model hm)).
Proof.
  intros H1 H2 H3 Hf; rewrite (baseline_cost x Hf).
  destruct (baseline_feasible_facts x Hf) as (_ & Bd & _).
  assert (A1 : 0 <= cPV * x (8*H+1)%nat) by (apply Qmult_le_0_compat; [|apply Bd]; lia || lra).
  assert (A2 : 0 <= cB * x (8*H)%nat) by (apply Qmult_le_0_compat; [|apply Bd]; lia || lra).
  assert (A3 : 0 <= (cost_buy hp - sell_price hp) * qsum (fun i => x (7*H+i)%nat) H).
  { apply Qmult_le_0_compat; [lra|]; apply qsum_nonneg; intros; apply Bd; lia. }
  lra.
Qed.

Lemma Qmult_pos_zero a b : 0 < a -> 0 <= b -> a * b == 0 -> b == 0.
Proof.
  intros Ha Hnn Hab; apply Qmult_integral in Hab as [Hab|Hab]; [lra|exact Hab].
Qed.

Lemma baseline_unique x :
  0 < cPV -> 0 < cB -> sell_price hp < cost_buy hp ->
  feasible (hm_model hm) x ->
  eval x (m_obj (hm_model hm)) ==
    cost_buy hp * qsum (fun i => nth i (demands hp) 0 * total_demand hp) H ->
  x (8*H+1)%nat == 0 /\ x (8*H)%nat == 0 /\
  forall i, (i < H)%nat -> x (6*H+i)%nat == nth i (demands hp) 0 * total_demand hp.
Proof.
  intros H1 H2 H3 Hf Heq; rewrite (baseline_cost x Hf) in Heq.
  destruct (baseline_feasible_facts x Hf) as (F & Bd & _).
  assert (B1 : 0 <= x (8*H+1)%nat) by (apply Bd; lia).
  assert (B2 : 0 <= x (8*H)%nat) by (apply Bd; lia).
  assert (B3 : 0 <= qsum (fun i => x (7*H+i)%nat) H)
    by (apply qsum_nonneg; intros; apply Bd; lia).
  assert (A1 : 0 <= cPV * x (8*H+1)%nat) by (apply Qmult_le_0_compat; lra).
  assert (A2 : 0 <= cB * x (8*H)%nat) by (apply Qmult_le_0_compat; lra).
  assert (A3 : 0 <= (cost_buy hp - sell_price hp) * qsum (fun i => x (7*H+i)%nat) H)
    by (apply Qmult_le_0_compat; lra).
  assert (Z1 : x (8*H+1)%nat == 0) by (apply (Qmult_pos_zero cPV); lra).
  assert (Z2 : x (8*H)%nat == 0) by (apply (Qmult_pos_zero cB); lra).
  assert (Z3 : qsum (fun i => x (7*H+i)%nat) H == 0)
    by (apply (Qmult_pos_zero (cost_buy hp - sell_price hp)); lra).
  assert (Bs : forall i, (i < H)%nat -> 0 <= x (7*H+i)%nat) by (intros; apply Bd; lia).
  pose proof (qsum_zero (fun i => x (7*H+i)%nat) _ Bs Z3) as Zs.
  assert (Zb : forall j, (j < H)%nat -> x (3*H+j)%nat == 0).
  { intros j Hj; destruct (F j Hj) as (_ & _ & _ & L & _).
    assert (A4 : 0 <= x (3*H+j)%nat) by (apply Bd; lia); lra. }
  split; [exact Z1|split; [exact Z2|]]; intros i Hi.
  destruct (F i Hi) as (E & B & P & _ & D).
  rewrite (HPV i Hi), Qmult_0_r in P.
  assert (P0 : 0 <= x (2*H+i)%nat) by (apply Bd; lia).
  pose proof (Zs i Hi) as A5; pose proof (Zb i Hi) as A6;
    pose proof (Zb (prev H i) (prev_lt _ _ Hi)) as A7.
  cbv beta in *; rewrite D in E; lra.
Qed.

Lemma Ok_inj {A} (a b : A) : Ok a = Ok b -> a = b.
Proof. congruence. Qed.

Lemma qsum_zero_fun n : qsum (fun _ => 0) n == 0.
Proof. induction n as [|n IH]; simpl; [reflexivity|]; rewrite IH; reflexivity. Qed.

Lemma baseline_exists :
  (forall i, (i < H)%nat -> 0 <= nth i (demands hp) 0) -> 0 <= total_demand hp ->
  feasible (hm_model hm) (baseline_point hp) /\
  eval (baseline_point hp) (m_obj (hm_model hm)) ==
    cost_buy hp * qsum (fun i => nth i (demands hp) 0 * total_demand hp) H.
Proof.
  intros Hd HT.
  destruct (baseline_layout hp ap hm Hl Hu Hb)
    as (Hhp & Hv & Hc & _ & Ho & Hcov & _ & _).
  assert (Hv' : hm_vars hm = layout_vars (hours_num (hm_hp hm))) by (now rewrite Hhp).
  split; [split|].
  - intros [id c] Hin; apply Hcov in Hin as [(i & Hi & Hfam)|(v & Hv2 & ->)];
      cbn [snd].
    + pose proof Hi as Hi'; rewrite Hhp in Hi'; pose proof (prev_lt _ _ Hi').
      destruct Hfam as [E|[E|[E|E]]];
        [ rewrite (eq_demand_row_at hm Hv' i Hi) in E
        | rewrite (eq_battery_row_at hm Hv' i Hi) in E
        | rewrite (limit_PV_row_at hm Hv' i) in E by (rewrite Hhp; lia)
        | rewrite (limit_battery_row_at hm Hv' i Hi) in E ];
        apply Ok_inj in E; subst c; cbn [sat eval]; rewrite Hhp;
        try rewrite (baseline_point_buy hp i Hi');
        repeat rewrite (baseline_point_out hp) by lia; lra.
    + cbn [sat eval]; rewrite (baseline_point_out hp) by lia; reflexivity.
  - intros k c Hn; rewrite Hc in Hn.
    destruct (Nat.lt_ge_cases k (6 * H)) as [Hk|Hk];
      [|destruct (Nat.lt_ge_cases k (7 * H)) as [Hk'|Hk']].
    + rewrite baseline_point_out by lia.
      apply (layout_cols_bounds0 H); eapply nth_error_In; exact Hn.
    + destruct (layout_cols_mid H 0 0 k ltac:(lia)) as (c' & Hn' & Hlb & Hub & Hty).
      rewrite Hn in Hn'; injection Hn' as <-.
      replace k with (6 * H + (k - 6 * H))%nat by lia.
      rewrite baseline_point_buy by lia.
      unfold in_bounds; rewrite Hlb, Hub, Hty; split; [right|split; [left; qdec|discriminate]].
      apply Qmult_le_0_compat; [apply Hd; lia|exact HT].
    + rewrite baseline_point_out by lia.
      apply (layout_cols_bounds0 H); eapply nth_error_In; exact Hn.
  - assert (Hc1' : cost_PV (hm_hp hm) = Ok cPV) by (now rewrite Hhp).
    assert (Hc2' : cost_battery (hm_hp hm) = Ok cB) by (now rewrite Hhp).
    rewrite (primal_obj_at hm Hv' cPV cB Hc1' Hc2') in Ho.
    apply Ok_inj in Ho; rewrite <- Ho; cbn [eval]; rewrite !eval_py_sum_seq; rewrite Hhp; cbn [eval].
    assert (Q1 : qsum (fun i => baseline_point hp (6 * H + i)%nat) H ==
                 qsum (fun i => nth i (demands hp) 0 * total_demand hp) H)
      by (apply qsum_ext; intros; rewrite baseline_point_buy by lia; reflexivity).
    assert (Q2 : qsum (fun i => baseline_point hp (7 * H + i)%nat) H == 0).
    { rewrite <- (qsum_zero_fun H); apply qsum_ext; intros.
      rewrite baseline_point_out by lia; reflexivity. }
    rewrite Q1, Q2, !(baseline_point_out hp) by lia; ring.
Qed.

End BaselineOpt.

(** C3: in the regression scenario (24 hours, demand shares 1/24, total
    demand 3500, no PV, bounds lb = ub = 0, prices 0.25 and 0.05) with
    positive investment prices and lifetime, the baseline model minimises
    the primal cost; its optimum is 875, and every assignment reaching it has
    no PV and no battery capacity and buys each hour's share of 3500. *)
Theorem baseline_unique_optimum L pPV pB ap hm :
  (0 < L)%Z -> 0 < pPV -> 0 < pB ->
  lb ap = QScalar 0 -> ub ap = QScalar 0 ->
  primal_model_build (baseline_house L pPV pB) ap = Ok hm ->
  m_sense (hm_model hm) = MINIMIZE /\
  primal_obj hm = Ok (m_obj (hm_model hm)) /\
  (exists x, feasible (hm_model hm) x /\ eval x (m_obj (hm_model hm)) == 875) /\
  (forall x, feasible (hm_model hm) x -> 875 <= eval x (m_obj (hm_model hm))) /\
  (forall x, feasible (hm_model hm) x -> eval x (m_obj (hm_model hm)) == 875 ->
     x (var_s hm "primal" "capacity_PV") == 0 /\
     x (var_s hm "primal" "capacity_battery") == 0 /\
     forall i, (i < 24)%nat ->
       x (var_at hm "primal" "energy_buy" i) ==
         nth i (demands (baseline_house L pPV pB)) 0 * 3500).
Proof.
  intros HL HPV HB Hl Hu Hb.
  remember (baseline_house L pPV pB) as hp eqn:Ehp.
  assert (HLq : 0 < inject_Z L) by (unfold Qlt; simpl; lia).
  assert (Hc1 : cost_PV hp = Ok (pPV / inject_Z L)).
  { subst hp; unfold cost_PV; cbn [life_time price_PV baseline_house].
    destruct (Z.eqb_spec L 0); [lia|reflexivity]. }
  assert (Hc2 : cost_battery hp = Ok (pB / inject_Z L)).
  { subst hp; unfold cost_battery; cbn [life_time price_battery baseline_house].
    destruct (Z.eqb_spec L 0); [lia|reflexivity]. }
  assert (Hp1 : 0 < pPV / inject_Z L)
    by (apply Qmult_lt_0_compat; [exact HPV|apply Qinv_lt_0_compat; exact HLq]).
  assert (Hp2 : 0 < pB / inject_Z L)
    by (apply Qmult_lt_0_compat; [exact HB|apply Qinv_lt_0_compat; exact HLq]).
  assert (HN : hours_num hp = 24%nat) by (subst hp; reflexivity).
  assert (HH : (0 < hours_num hp)%nat) by lia.
  assert (HPVl : (hours_num hp <= length (PV_availabilities hp))%nat)
    by (subst hp; cbn; lia).
  assert (HPV0 : forall i, (i < hours_num hp)%nat -> nth i (PV_availabilities hp) 0 == 0)
    by (intros; subst hp; cbn [PV_availabilities baseline_house]; now rewrite nth_repeat).
  assert (Hd : forall i, (i < hours_num hp)%nat -> 0 <= nth i (demands hp) 0).
  { intros i Hi; rewrite HN in Hi; subst hp; cbn [demands baseline_house].
    rewrite (nth_indep _ _ (1 # 24)) by (rewrite repeat_length; exact Hi).
    rewrite nth_repeat; qdec. }
  assert (HT : 0 <= total_demand hp) by (subst hp; qdec).
  assert (HS : sell_price hp < cost_buy hp) by (subst hp; reflexivity).
  assert (H875 : cost_buy hp * qsum (fun i => nth i (demands hp) 0 * total_demand hp)
                                   (hours_num hp) == 875)
    by (subst hp; vm_compute; reflexivity).
  destruct (baseline_layout hp ap hm Hl Hu Hb)
    as (Hhp & Hv & _ & Hs & Ho & _).
  assert (Hv' : hm_vars hm = layout_vars (hours_num (hm_hp hm))) by (now rewrite Hhp).
  split; [exact Hs|split; [exact Ho|split; [|split]]].
  - edestruct (baseline_exists hp ap hm) as [F E]; try eassumption.
    exists (baseline_point hp); split; [exact F|rewrite E; exact H875].
  - intros x Hf; rewrite <- H875.
    eapply (baseline_lower hp ap hm); try eassumption; lra.
  - intros x Hf He.
    edestruct (baseline_unique hp ap hm _ _ Hl Hu Hb HH HPVl HPV0 Hc1 Hc2 x)
      as (U1 & U2 & U3); try eassumption; [rewrite He; symmetry; exact H875|].
    destruct (var_s_capacities hm Hv') as [-> ->]; rewrite Hhp.
    split; [exact U1|split; [exact U2|]].
    intros i Hi; rewrite (var_at_buy hm Hv' i) by (rewrite Hhp; lia).
    rewrite Hhp, U3 by lia; subst hp; reflexivity.
Qed.

Lemma baseline_unique_optimum_witness :
  exists hm, primal_model_build (baseline_house 10 1 1) ap_no_attack = Ok hm /\
    m_sense (hm_model hm) = MINIMIZE /\
    exists x, feasible (hm_model hm) x /\ eval x (m_obj (hm_model hm)) == 875.
Proof.
  exists baseline_model.
  assert (Hb : primal_model_build (baseline_house 10 1 1) ap_no_attack = Ok baseline_model)
    by (vm_compute; reflexivity).
  destruct (baseline_unique_optimum 10 1 1 ap_no_attack baseline_model
              ltac:(reflexivity) ltac:(reflexivity) ltac:(reflexivity) eq_refl eq_refl Hb)
    as (S & _ & X & _).
  split; [exact Hb|split; [exact S|exact X]].
Defined.

(* ================================================================== *)
(** * Duality, complementarity and the attack runs *)

(* ------------------------------------------------------------------ *)
(** *** Rows that hold, stage by stage *)

Lemma rows_sat_addConstrs m n f m' ids x :
  addConstrs m n f = Ok (m', ids) -> rows_sat m' x ->
  rows_sat m x /\ forall i, (i < n)%nat -> exists c, f i = Ok c /\ sat x c.
Proof.
  intros Ha Hs; split.
  - intros r Hr; apply Hs; apply addConstrs_spec in Ha as (cs & _ & Hrows & _).
    rewrite Hrows; apply in_or_app; now left.
  - intros i Hi; destruct (addConstrs_in _ _ _ _ _ Ha i Hi) as (c & id & Hc & Hin).
    exists c; split; [exact Hc|exact (Hs _ Hin)].
Qed.

Lemma rows_sat_addConstr m c x :
  rows_sat (fst (addConstr m c)) x -> rows_sat m x /\ sat x c.
Proof.
  intro Hs; split.
  - intros r Hr; apply Hs; cbn; apply in_or_app; now left.
  - apply (Hs (m_next m, c)); cbn; apply in_or_app; right; now left.
Qed.

Lemma rows_sat_setParam m p v x : rows_sat (setParam m p v) x -> rows_sat m x.
Proof. exact (fun H => H). Qed.

Lemma rows_sat_setObjective m e s x : rows_sat (setObjective m e s) x <-> rows_sat m x.
Proof. reflexivity. Qed.

Lemma list_at_Ok (l : list Q) i a : list_at l i = Ok a -> a = nth i l 0.
Proof.
  unfold list_at; destruct (nth_error l i) eqn:E; [|discriminate].
  intro H; injection H as <-; symmetry; now apply nth_error_nth.
Qed.

Lemma getv_var_at hm g k i v : getv hm g k i = Ok v -> v = var_at hm g k i.
Proof. unfold var_at; intros ->; reflexivity. Qed.

Lemma gets_var_s hm g k v : gets hm g k = Ok v -> v = var_s hm g k.
Proof. unfold var_s; intros ->; reflexivity. Qed.

(** Reading a row off its definition. *)
Ltac row_sat H :=
  res_crush H; subst;
  repeat match goal with
  | E : vA _ _ _ _ = Ok _ |- _ => apply vA_var_at in E; subst
  | E : vS _ _ _ = Ok _ |- _ => apply vS_var_s in E; subst
  | E : getv _ _ _ _ = Ok _ |- _ => apply getv_var_at in E; subst
  | E : gets _ _ _ = Ok _ |- _ => apply gets_var_s in E; subst
  | E : list_at _ _ = Ok _ |- _ => apply list_at_Ok in E; subst
  end;
  unfold xv, xs; cbn [sat eval].

Lemma eval_py_sum_acc x es a :
  eval x (fold_left EAdd es a) ==
  eval x a + qsum (fun i => eval x (nth i es (EConst 0))) (length es).
Proof.
  revert a; induction es as [|e es IH]; intro a; cbn [fold_left length].
  - simpl; ring.
  - rewrite IH, qsum_S_l; cbn [eval nth]; ring.
Qed.

(** [sum(g(i) for i in range(n))] evaluated term by term. *)
Lemma eval_py_sum_rmap x (f : nat -> res expr) (g : nat -> Q) n es :
  rmap f (seq 0 n) = Ok es ->
  (forall i e, (i < n)%nat -> f i = Ok e -> eval x e == g i) ->
  eval x (py_sum es) == qsum g n.
Proof.
  intros Hr Hg; apply rmap_seq_ok in Hr as [Hl Hn].
  unfold py_sum; rewrite eval_py_sum_acc, Hl; cbn [eval].
  rewrite Qplus_0_l; apply qsum_ext; intros i Hi.
  apply Hg; [exact Hi|apply Hn; exact Hi].
Qed.

(* ------------------------------------------------------------------ *)
(** *** The duality gap of the prosumer problem

    With [r i] the right-hand side of [eq_demand[i]], the primal cost minus
    [sum(eq_demand[i] * r i)] is the sum of the products of the ten
    complementarity pairs, once the demand and battery balances hold and the
    slacks are the ones [add_aux_constrs] defines.  Everything is by hour
    [i < H]; [a] are the PV availabilities. *)

Lemma qsum_telescope (h : nat -> Q) H : qsum (fun i => h i - h (prev H i)) H == 0.
Proof.
  destruct H as [|n]; [reflexivity|].
  rewrite qsum_minus, (qsum_prev h (S n)) by lia; ring.
Qed.

Section Gap.
Variable H : nat.
Variables (a : nat -> Q) (cbuy csell cPV cB capPV capB sCapPV sCapB : Q).
Variables (buy sell bout bin pv b lam mu nu rho r : nat -> Q).
Variables (auxPV auxB slPV slB sbuy ssell sbout sbin seb spv : nat -> Q).

Hypothesis E1 : forall i, (i < H)%nat -> buy i - sell i + bout i - bin i + pv i == r i.
Hypothesis E2 : forall i, (i < H)%nat -> b (prev H i) + bin i - bout i == b i.
Hypothesis A1 : forall i, (i < H)%nat -> auxPV i == - nu i.
Hypothesis A2 : forall i, (i < H)%nat -> auxB i == - rho i.
Hypothesis S1 : forall i, (i < H)%nat -> capPV * a i - pv i == slPV i.
Hypothesis S2 : forall i, (i < H)%nat -> capB - b i == slB i.
Hypothesis S3 : forall i, (i < H)%nat -> cbuy - lam i == sbuy i.
Hypothesis S4 : forall i, (i < H)%nat -> lam i - csell == ssell i.
Hypothesis S5 : forall i, (i < H)%nat -> mu i - lam i == sbout i.
Hypothesis S6 : forall i, (i < H)%nat -> lam i - mu i == sbin i.
Hypothesis S7 : forall i, (i < H)%nat -> - mu i + mu (prev H i) - rho (prev H i) == seb i.
Hypothesis S8 : forall i, (i < H)%nat -> - lam i - nu i == spv i.
Hypothesis S9 : qsum rho H + cB == sCapB.
Hypothesis S10 : qsum (fun i => nu i * a i) H + cPV == sCapPV.

Lemma duality_gap :
  cPV * capPV + cB * capB + cbuy * qsum buy H - csell * qsum sell H
  - qsum (fun i => lam i * r i) H ==
  qsum (fun i => auxPV i * slPV i + auxB i * slB i + buy i * sbuy i + sell i * ssell i
                 + bout i * sbout i + bin i * sbin i + b (prev H i) * seb i + pv i * spv i) H
  + capB * sCapB + capPV * sCapPV.
Proof.
  set (gap_terms := fun i => auxPV i * slPV i + auxB i * slB i + buy i * sbuy i
                 + sell i * ssell i + bout i * sbout i + bin i * sbin i
                 + b (prev H i) * seb i + pv i * spv i).
  set (h := fun j => b j * (rho j - mu j)).
  set (F := fun i => cbuy * buy i - csell * sell i - lam i * r i
                     - capB * rho i - capPV * (nu i * a i)).
  assert (Hi : forall i, (i < H)%nat -> gap_terms i == F i + (h i - h (prev H i))).
  { intros i Hi; unfold gap_terms, F, h.
    rewrite A1, A2, <- S1, <- S2, <- S3, <- S4, <- S5, <- S6, <- S7, <- S8 by exact Hi.
    rewrite <- (E1 i Hi), <- (E2 i Hi); ring. }
  assert (Hs : qsum gap_terms H == qsum F H).
  { rewrite (qsum_ext _ _ _ Hi), qsum_plus, qsum_telescope; ring. }
  rewrite Hs, <- S9, <- S10; unfold F.
  rewrite !qsum_minus, !qsum_scale; ring.
Qed.

End Gap.

Lemma gap_nonneg H (f g : nat -> Q) :
  (forall i, (i < H)%nat -> 0 <= f i /\ 0 <= g i) -> 0 <= qsum (fun i => f i * g i) H.
Proof.
  intro Hfg; apply qsum_nonneg; intros i Hi; destruct (Hfg i Hi).
  now apply Qmult_le_0_compat.
Qed.

(* ------------------------------------------------------------------ *)
(** *** What the rows of each stage say at an assignment *)

Section RowMeaning.
Variables (hm : house) (x : valuation) (i : nat) (c : constr).
Local Abbreviation H := (hours_num (hm_hp hm)).
Local Abbreviation hp := (hm_hp hm).

Lemma eq_demand_row_sat :
  eq_demand_row hm i = Ok c -> sat x c ->
  xv x hm "primal" "energy_buy" i - xv x hm "primal" "energy_sell" i
  + xv x hm "primal" "energy_battery_out" i - xv x hm "primal" "energy_battery_in" i
  + xv x hm "primal" "energy_PV" i
  == nth i (demands hp) 0 * total_demand hp * (1 + xv x hm "upper_level" "delta" i).
Proof. unfold eq_demand_row; intro E; row_sat E; tauto. Qed.

Lemma limit_PV_row_sat :
  limit_PV_row hm i = Ok c -> sat x c ->
  xv x hm "primal" "energy_PV" i <= xs x hm "primal" "capacity_PV" * nth i (PV_availabilities hp) 0.
Proof. unfold limit_PV_row; intro E; row_sat E; tauto. Qed.

Lemma limit_battery_row_sat :
  limit_battery_row hm i = Ok c -> sat x c ->
  xv x hm "primal" "energy_battery" i <= xs x hm "primal" "capacity_battery".
Proof. unfold limit_battery_row; intro E; row_sat E; tauto. Qed.

Lemma d_energy_buy_row_sat :
  d_energy_buy_row hm i = Ok c -> sat x c -> xv x hm "dual" "eq_demand" i <= cost_buy hp.
Proof. unfold d_energy_buy_row; intro E; row_sat E; tauto. Qed.

Lemma d_energy_sell_row_sat :
  d_energy_sell_row hm i = Ok c -> sat x c -> sell_price hp <= xv x hm "dual" "eq_demand" i.
Proof. unfold d_energy_sell_row; intro E; row_sat E; intro; lra. Qed.

Lemma d_energy_battery_out_row_sat :
  d_energy_battery_out_row hm i = Ok c -> sat x c ->
  xv x hm "dual" "eq_demand" i <= xv x hm "dual" "eq_battery" i.
Proof. unfold d_energy_battery_out_row; intro E; row_sat E; intro; lra. Qed.

Lemma d_energy_battery_in_row_sat :
  d_energy_battery_in_row hm i = Ok c -> sat x c ->
  xv x hm "dual" "eq_battery" i <= xv x hm "dual" "eq_demand" i.
Proof. unfold d_energy_battery_in_row; intro E; row_sat E; intro; lra. Qed.

Lemma d_energy_battery_row_sat :
  d_energy_battery_row hm i = Ok c -> sat x c ->
  xv x hm "dual" "eq_battery" i - xv x hm "dual" "eq_battery" (prev H i)
  + xv x hm "dual" "limit_battery" (prev H i) <= 0.
Proof. unfold d_energy_battery_row; intro E; row_sat E; tauto. Qed.

Lemma d_energy_PV_row_sat :
  d_energy_PV_row hm i = Ok c -> sat x c ->
  xv x hm "dual" "eq_demand" i + xv x hm "dual" "limit_PV" i <= 0.
Proof. unfold d_energy_PV_row; intro E; row_sat E; tauto. Qed.

Lemma aux_limit_PV_row_sat :
  aux_limit_PV_row hm i = Ok c -> sat x c ->
  xv x hm "aux" "limit_PV" i == - xv x hm "dual" "limit_PV" i.
Proof. unfold aux_limit_PV_row; intro E; row_sat E; tauto. Qed.

Lemma aux_limit_battery_row_sat :
  aux_limit_battery_row hm i = Ok c -> sat x c ->
  xv x hm "aux" "limit_battery" i == - xv x hm "dual" "limit_battery" i.
Proof. unfold aux_limit_battery_row; intro E; row_sat E; tauto. Qed.

Lemma slack_limit_PV_row_sat :
  slack_limit_PV_row hm i = Ok c -> sat x c ->
  xs x hm "primal" "capacity_PV" * nth i (PV_availabilities hp) 0 - xv x hm "primal" "energy_PV" i
  == xv x hm "aux" "slack_limit_PV" i.
Proof. unfold slack_limit_PV_row; intro E; row_sat E; tauto. Qed.

Lemma slack_limit_battery_row_sat :
  slack_limit_battery_row hm i = Ok c -> sat x c ->
  xs x hm "primal" "capacity_battery" - xv x hm "primal" "energy_battery" i
  == xv x hm "aux" "slack_limit_battery" i.
Proof. unfold slack_limit_battery_row; intro E; row_sat E; tauto. Qed.

Lemma slack_energy_buy_row_sat :
  slack_energy_buy_row hm i = Ok c -> sat x c ->
  cost_buy hp - xv x hm "dual" "eq_demand" i == xv x hm "aux" "slack_energy_buy" i.
Proof. unfold slack_energy_buy_row; intro E; row_sat E; tauto. Qed.

Lemma slack_energy_sell_row_sat :
  slack_energy_sell_row hm i = Ok c -> sat x c ->
  xv x hm "dual" "eq_demand" i - sell_price hp == xv x hm "aux" "slack_energy_sell" i.
Proof. unfold slack_energy_sell_row; intro E; row_sat E; tauto. Qed.

Lemma slack_energy_battery_out_row_sat :
  slack_energy_battery_out_row hm i = Ok c -> sat x c ->
  xv x hm "dual" "eq_battery" i - xv x hm "dual" "eq_demand" i
  == xv x hm "aux" "slack_energy_battery_out" i.
Proof. unfold slack_energy_battery_out_row; intro E; row_sat E; tauto. Qed.

Lemma slack_energy_battery_in_row_sat :
  slack_energy_battery_in_row hm i = Ok c -> sat x c ->
  xv x hm "dual" "eq_demand" i - xv x hm "dual" "eq_battery" i
  == xv x hm "aux" "slack_energy_battery_in" i.
Proof. unfold slack_energy_battery_in_row; intro E; row_sat E; tauto. Qed.

Lemma slack_energy_battery_row_sat :
  slack_energy_battery_row hm i = Ok c -> sat x c ->
  - xv x hm "dual" "eq_battery" i + xv x hm "dual" "eq_battery" (prev H i)
  - xv x hm "dual" "limit_battery" (prev H i)
  == xv x hm "aux" "slack_energy_battery" i.
Proof. unfold slack_energy_battery_row; intro E; row_sat E; tauto. Qed.

Lemma slack_energy_PV_row_sat :
  slack_energy_PV_row hm i = Ok c -> sat x c ->
  - xv x hm "dual" "eq_demand" i - xv x hm "dual" "limit_PV" i
  == xv x hm "aux" "slack_energy_PV" i.
Proof. unfold slack_energy_PV_row; intro E; row_sat E; tauto. Qed.

End RowMeaning.

Section ObjMeaning.
Variables (hm : house) (x : valuation).
Local Abbreviation H := (hours_num (hm_hp hm)).
Local Abbreviation hp := (hm_hp hm).

Lemma vA_eval g k i e : vA hm g k i = Ok e -> eval x e == xv x hm g k i.
Proof. intro E; apply vA_var_at in E; subst; reflexivity. Qed.

Lemma primal_obj_eval o :
  primal_obj hm = Ok o ->
  exists cPV cB, cost_PV hp = Ok cPV /\ cost_battery hp = Ok cB /\
  eval x o == cPV * xs x hm "primal" "capacity_PV" + cB * xs x hm "primal" "capacity_battery"
              + cost_buy hp * qsum (xv x hm "primal" "energy_buy") H
              - sell_price hp * qsum (xv x hm "primal" "energy_sell") H.
Proof.
  unfold primal_obj; intro E; res_crush E; subst.
  exists a, a1; split; [reflexivity|split; [reflexivity|]].
  apply vS_var_s in E1; apply vS_var_s in E3; subst; cbn [eval]; unfold xs.
  rewrite (eval_py_sum_rmap x _ _ _ _ E4 (fun i e _ Hi => vA_eval _ _ _ _ Hi)).
  rewrite (eval_py_sum_rmap x _ _ _ _ E5 (fun i e _ Hi => vA_eval _ _ _ _ Hi)).
  reflexivity.
Qed.

Lemma dual_obj_eval o :
  dual_obj hm = Ok o ->
  eval x o == qsum (fun i => xv x hm "dual" "eq_demand" i *
                      (nth i (demands hp) 0 * total_demand hp
                       * (1 + xv x hm "upper_level" "delta" i))) H.
Proof.
  unfold dual_obj; intro E; res_crush E; subst.
  match goal with R : rmap _ _ = Ok _ |- _ => apply (eval_py_sum_rmap x _ _ _ _ R) end.
  intros i e Hi Hf.
  apply rbind_ok in Hf as (dv & Hdv & Hf); apply vA_var_at in Hdv; subst dv.
  unfold dual_obj_term in Hf; row_sat Hf; ring.
Qed.

Lemma upper_level_obj_eval o :
  upper_level_obj hm = Ok o -> eval x o == qsum (xv x hm "upper_level" "abs") H.
Proof.
  unfold upper_level_obj; intro E; res_crush E; subst.
  match goal with R : rmap _ _ = Ok _ |- _ =>
    exact (eval_py_sum_rmap x _ _ _ _ R (fun i e _ Hi => vA_eval _ _ _ _ Hi)) end.
Qed.

End ObjMeaning.

Lemma rows_sat_app m m' rs x :
  m_rows m' = m_rows m ++ rs -> rows_sat m' x ->
  rows_sat m x /\ forall r, In r rs -> sat x (snd r).
Proof.
  intros Hr Hs; split; intros r Hin; apply Hs; rewrite Hr; apply in_or_app; auto.
Qed.

(** Peeling the rows of a stage off, last added first. *)
Ltac peel Hs :=
  repeat match type of Hs with
  | rows_sat ?m' ?x =>
      match goal with
      | E : addConstrs ?m _ _ = Ok (m', _) |- _ =>
          let R := fresh "R" in
          apply (rows_sat_addConstrs _ _ _ _ _ _ E) in Hs as [Hs R]
      end
  | rows_sat (mkmodel _ (m_rows ?m) _ _ _ _) ?x => change (rows_sat m x) in Hs
  | rows_sat (mkmodel ?cs (?rs ++ [(?id, ?c)]) ?n ?o ?s ?p) ?x =>
      let R := fresh "R" in
      apply (rows_sat_app (mkmodel cs rs n o s p) _ [(id, c)]) in Hs as [Hs R];
      [|reflexivity];
      specialize (R _ (or_introl eq_refl)); cbn [snd] in R
  end.

(** Instantiating every family of rows at hour [i] and reading it. *)
Ltac rows_at i Hi :=
  repeat match goal with
  | R : forall j, (j < _)%nat -> exists c, _ /\ sat _ c |- _ =>
      let c := fresh "c" in let Hc := fresh "Hc" in let Hs := fresh "Hs" in
      destruct (R i Hi) as (c & Hc & Hs); clear R;
      first [ pose proof (eq_demand_row_sat _ _ _ _ Hc Hs)
            | pose proof (eq_battery_row_sat _ _ _ _ Hc Hs)
            | pose proof (limit_PV_row_sat _ _ _ _ Hc Hs)
            | pose proof (limit_battery_row_sat _ _ _ _ Hc Hs)
            | pose proof (d_energy_buy_row_sat _ _ _ _ Hc Hs)
            | pose proof (d_energy_sell_row_sat _ _ _ _ Hc Hs)
            | pose proof (d_energy_battery_out_row_sat _ _ _ _ Hc Hs)
            | pose proof (d_energy_battery_in_row_sat _ _ _ _ Hc Hs)
            | pose proof (d_energy_battery_row_sat _ _ _ _ Hc Hs)
            | pose proof (d_energy_PV_row_sat _ _ _ _ Hc Hs)
            | pose proof (aux_limit_PV_row_sat _ _ _ _ Hc Hs)
            | pose proof (aux_limit_battery_row_sat _ _ _ _ Hc Hs)
            | pose proof (slack_limit_PV_row_sat _ _ _ _ Hc Hs)
            | pose proof (slack_limit_battery_row_sat _ _ _ _ Hc Hs)
            | pose proof (slack_energy_buy_row_sat _ _ _ _ Hc Hs)
            | pose proof (slack_energy_sell_row_sat _ _ _ _ Hc Hs)
            | pose proof (slack_energy_battery_out_row_sat _ _ _ _ Hc Hs)
            | pose proof (slack_energy_battery_in_row_sat _ _ _ _ Hc Hs)
            | pose proof (slack_energy_battery_row_sat _ _ _ _ Hc Hs)
            | pose proof (slack_energy_PV_row_sat _ _ _ _ Hc Hs) ];
      clear Hc Hs c
  end.

Lemma add_primal_constrs_sat hm hm' x :
  add_primal_constrs hm = Ok hm' -> rows_sat (hm_model hm') x ->
  rows_sat (hm_model hm) x /\
  forall i, (i < hours_num (hm_hp hm))%nat ->
    xv x hm "primal" "energy_buy" i - xv x hm "primal" "energy_sell" i
    + xv x hm "primal" "energy_battery_out" i - xv x hm "primal" "energy_battery_in" i
    + xv x hm "primal" "energy_PV" i
    == nth i (demands (hm_hp hm)) 0 * total_demand (hm_hp hm)
       * (1 + xv x hm "upper_level" "delta" i) /\
    xv x hm "primal" "energy_battery" (prev (hours_num (hm_hp hm)) i)
    + xv x hm "primal" "energy_battery_in" i - xv x hm "primal" "energy_battery_out" i
    == xv x hm "primal" "energy_battery" i /\
    xv x hm "primal" "energy_PV" i
    <= xs x hm "primal" "capacity_PV" * nth i (PV_availabilities (hm_hp hm)) 0 /\
    xv x hm "primal" "energy_battery" i <= xs x hm "primal" "capacity_battery".
Proof.
  intros E Hs; unfold add_primal_constrs in E; res_crush E; subst hm'.
  cbn [hm_model with_obj] in Hs; peel Hs.
  split; [exact Hs|]; intros i Hi; rows_at i Hi.
  unfold xv in *; repeat split; lra.
Qed.

Lemma rows_sat_grows m m' x : grows m m' -> rows_sat m' x -> rows_sat m x.
Proof. intros G Hs r Hr; apply Hs; exact (grows_rows_incl _ _ _ G Hr). Qed.

Lemma add_dual_constrs_sat hm hm' x :
  add_dual_constrs hm = Ok hm' -> rows_sat (hm_model hm') x ->
  let H := hours_num (hm_hp hm) in
  rows_sat (hm_model hm) x /\
  (forall i, (i < H)%nat ->
    xv x hm "dual" "eq_demand" i <= cost_buy (hm_hp hm) /\
    sell_price (hm_hp hm) <= xv x hm "dual" "eq_demand" i /\
    xv x hm "dual" "eq_demand" i <= xv x hm "dual" "eq_battery" i /\
    xv x hm "dual" "eq_battery" i <= xv x hm "dual" "eq_demand" i /\
    xv x hm "dual" "eq_battery" i - xv x hm "dual" "eq_battery" (prev H i)
    + xv x hm "dual" "limit_battery" (prev H i) <= 0 /\
    xv x hm "dual" "eq_demand" i + xv x hm "dual" "limit_PV" i <= 0) /\
  (exists cB, cost_battery (hm_hp hm) = Ok cB /\
     qsum (fun i => - xv x hm "dual" "limit_battery" i) H <= cB) /\
  (exists cPV, cost_PV (hm_hp hm) = Ok cPV /\
     qsum (fun i => - xv x hm "dual" "limit_PV" i * nth i (PV_availabilities (hm_hp hm)) 0) H
     <= cPV).
Proof.
  intros E Hs H; unfold add_dual_constrs in E; res_crush E; subst hm'.
  cbn [hm_model with_obj] in Hs; peel Hs.
  split; [exact Hs|split; [|split]].
  - intros i Hi; rows_at i Hi; repeat split; assumption.
  - exists a0; split; [reflexivity|].
    match goal with R : sat x (CLe (py_sum a) _) |- _ => cbn [sat eval] in R; revert R end.
    rewrite (eval_py_sum_rmap x _ (fun i => - xv x hm "dual" "limit_battery" i) _ _ E6); [exact (fun R => R)|].
    intros i e _ Hf; unfold neg_limit_battery_term in Hf; row_sat Hf; reflexivity.
  - exists a2; split; [reflexivity|].
    match goal with R : sat x (CLe (py_sum a1) _) |- _ => cbn [sat eval] in R; revert R end.
    rewrite (eval_py_sum_rmap x _ (fun i => - xv x hm "dual" "limit_PV" i
                                           * nth i (PV_availabilities (hm_hp hm)) 0) _ _ E8); [exact (fun R => R)|].
    intros i e _ Hf; unfold neg_limit_PV_term in Hf; row_sat Hf; reflexivity.
Qed.

Lemma add_aux_constrs_sat hm hm' x :
  add_aux_constrs hm = Ok hm' -> rows_sat (hm_model hm') x ->
  let H := hours_num (hm_hp hm) in
  let hp := hm_hp hm in
  rows_sat (hm_model hm) x /\
  (forall i, (i < H)%nat ->
    xv x hm "aux" "limit_PV" i == - xv x hm "dual" "limit_PV" i /\
    xv x hm "aux" "limit_battery" i == - xv x hm "dual" "limit_battery" i /\
    xs x hm "primal" "capacity_PV" * nth i (PV_availabilities hp) 0
      - xv x hm "primal" "energy_PV" i == xv x hm "aux" "slack_limit_PV" i /\
    xs x hm "primal" "capacity_battery" - xv x hm "primal" "energy_battery" i
      == xv x hm "aux" "slack_limit_battery" i /\
    cost_buy hp - xv x hm "dual" "eq_demand" i == xv x hm "aux" "slack_energy_buy" i /\
    xv x hm "dual" "eq_demand" i - sell_price hp == xv x hm "aux" "slack_energy_sell" i /\
    xv x hm "dual" "eq_battery" i - xv x hm "dual" "eq_demand" i
      == xv x hm "aux" "slack_energy_battery_out" i /\
    xv x hm "dual" "eq_demand" i - xv x hm "dual" "eq_battery" i
      == xv x hm "aux" "slack_energy_battery_in" i /\
    - xv x hm "dual" "eq_battery" i + xv x hm "dual" "eq_battery" (prev H i)
      - xv x hm "dual" "limit_battery" (prev H i) == xv x hm "aux" "slack_energy_battery" i /\
    - xv x hm "dual" "eq_demand" i - xv x hm "dual" "limit_PV" i
      == xv x hm "aux" "slack_energy_PV" i) /\
  (exists cB, cost_battery hp = Ok cB /\
     qsum (xv x hm "dual" "limit_battery") H + cB == xs x hm "aux" "slack_capacity_battery") /\
  (exists cPV, cost_PV hp = Ok cPV /\
     qsum (fun i => xv x hm "dual" "limit_PV" i * nth i (PV_availabilities hp) 0) H + cPV
     == xs x hm "aux" "slack_capacity_PV").
Proof.
  intros E Hs H hp; unfold add_aux_constrs in E; res_crush E; subst hm'.
  cbn [hm_model with_model] in Hs; peel Hs.
  split; [exact Hs|split; [|split]].
  - intros i Hi; rows_at i Hi; repeat split; assumption.
  - exists a0; split; [exact E11|].
    apply vS_var_s in E12; subst a1.
    match goal with R : sat x (CEq (py_sum a + _)%E _) |- _ => cbn [sat eval] in R; revert R end.
    rewrite (eval_py_sum_rmap x _ (xv x hm "dual" "limit_battery") _ _ E10);
      [exact (fun R => R)|].
    intros i e _ Hf; exact (vA_eval _ _ _ _ _ _ Hf).
  - exists a3; split; [exact E14|].
    apply vS_var_s in E15; subst a4.
    match goal with R : sat x (CEq (py_sum a2 + _)%E _) |- _ => cbn [sat eval] in R; revert R end.
    rewrite (eval_py_sum_rmap x _ (fun i => xv x hm "dual" "limit_PV" i
                                           * nth i (PV_availabilities (hm_hp hm)) 0) _ _ E13);
      [exact (fun R => R)|].
    intros i e _ Hf; unfold limit_PV_term in Hf; row_sat Hf; reflexivity.
Qed.

Lemma cs_gap_sum x hm :
  let H := hours_num (hm_hp hm) in
  cs_gap x hm ==
  qsum (fun i => xv x hm "aux" "limit_PV" i * xv x hm "aux" "slack_limit_PV" i
         + xv x hm "aux" "limit_battery" i * xv x hm "aux" "slack_limit_battery" i
         + xv x hm "primal" "energy_buy" i * xv x hm "aux" "slack_energy_buy" i
         + xv x hm "primal" "energy_sell" i * xv x hm "aux" "slack_energy_sell" i
         + xv x hm "primal" "energy_battery_out" i * xv x hm "aux" "slack_energy_battery_out" i
         + xv x hm "primal" "energy_battery_in" i * xv x hm "aux" "slack_energy_battery_in" i
         + xv x hm "primal" "energy_battery" (prev H i) * xv x hm "aux" "slack_energy_battery" i
         + xv x hm "primal" "energy_PV" i * xv x hm "aux" "slack_energy_PV" i) H
  + xs x hm "primal" "capacity_battery" * xs x hm "aux" "slack_capacity_battery"
  + xs x hm "primal" "capacity_PV" * xs x hm "aux" "slack_capacity_PV".
Proof.
  intro H; unfold cs_gap, cs_pairs, pair_product; cbn [fold_right]; fold H.
  rewrite !qsum_plus; ring.
Qed.

Lemma xv_with_obj x h m o : xv x (with_obj h m o) = xv x h.
Proof. reflexivity. Qed.
Lemma xv_with_model x h m : xv x (with_model h m) = xv x h.
Proof. reflexivity. Qed.
Lemma xs_with_obj x h m o : xs x (with_obj h m o) = xs x h.
Proof. reflexivity. Qed.
Lemma xs_with_model x h m : xs x (with_model h m) = xs x h.
Proof. reflexivity. Qed.

(** The duality gap on the rows of the KKT reformulation. *)
Lemma kkt_gap_eq hp ap hm x :
  kkt_build hp ap = Ok hm -> rows_sat (hm_model hm) x ->
  exists p d, dict_get "primal" (hm_obj hm) = Some p /\ dict_get "dual" (hm_obj hm) = Some d /\
  eval x p - eval x d == cs_gap x hm.
Proof.
  unfold kkt_build; intros E Hs.
  apply rbind_ok in E as [h0 [E0 E]]; apply rbind_ok in E as [h1 [E1 E]].
  apply rbind_ok in E as [h2 [E2 E]]; apply rbind_ok in E as [h3 [E3 E4]].
  destruct (add_aux_constrs_sat _ _ _ E4 Hs) as (Hs3 & AUX & (cB & HcB & SB) & (cPV & HcPV & SP)).
  destruct (add_dual_constrs_sat _ _ _ E3 Hs3) as (Hs2 & _).
  destruct (add_primal_constrs_sat _ _ _ E2 Hs2) as (Hs1 & PRI).
  apply add_upper_level_constrs_shape in E1 as (m1 & o1 & -> & _ & _).
  apply add_primal_constrs_shape in E2 as (m2 & o2 & -> & Ho2 & _).
  apply add_dual_constrs_shape in E3 as (m3 & o3 & -> & Ho3 & _).
  apply add_aux_constrs_shape in E4 as (m4 & -> & _).
  exists o2, o3; cbn [hm_obj with_obj with_model].
  split; [rewrite dict_get_set_other, dict_get_set_same; [reflexivity|discriminate]|].
  split; [rewrite dict_get_set_same; reflexivity|].
  destruct (primal_obj_eval _ x _ Ho2) as (cPV' & cB' & HcPV' & HcB' & ->).
  rewrite (dual_obj_eval _ x _ Ho3), cs_gap_sum.
  cbn [hm_hp with_obj with_model] in *.
  rewrite ?xv_with_obj, ?xv_with_model, ?xs_with_obj, ?xs_with_model in *.
  rewrite ?xv_with_obj, ?xv_with_model, ?xs_with_obj, ?xs_with_model.
  rewrite HcB in HcB'; rewrite HcPV in HcPV'; apply Ok_inj in HcB', HcPV'; subst cB' cPV'.
  set (H := hours_num (hm_hp h0)) in *.
  apply (duality_gap H (fun i => nth i (PV_availabilities (hm_hp h0)) 0)
    (cost_buy (hm_hp h0)) (sell_price (hm_hp h0)) cPV cB
    (xs x h0 "primal" "capacity_PV") (xs x h0 "primal" "capacity_battery")
    (xs x h0 "aux" "slack_capacity_PV") (xs x h0 "aux" "slack_capacity_battery")
    (xv x h0 "primal" "energy_buy") (xv x h0 "primal" "energy_sell")
    (xv x h0 "primal" "energy_battery_out") (xv x h0 "primal" "energy_battery_in")
    (xv x h0 "primal" "energy_PV") (xv x h0 "primal" "energy_battery")
    (xv x h0 "dual" "eq_demand") (xv x h0 "dual" "eq_battery")
    (xv x h0 "dual" "limit_PV") (xv x h0 "dual" "limit_battery")
    (fun i => nth i (demands (hm_hp h0)) 0 * total_demand (hm_hp h0)
              * (1 + xv x h0 "upper_level" "delta" i))
    (xv x h0 "aux" "limit_PV") (xv x h0 "aux" "limit_battery")
    (xv x h0 "aux" "slack_limit_PV") (xv x h0 "aux" "slack_limit_battery")
    (xv x h0 "aux" "slack_energy_buy") (xv x h0 "aux" "slack_energy_sell")
    (xv x h0 "aux" "slack_energy_battery_out") (xv x h0 "aux" "slack_energy_battery_in")
    (xv x h0 "aux" "slack_energy_battery") (xv x h0 "aux" "slack_energy_PV"));
    try (intros i Hi; apply (PRI i Hi)); try (intros i Hi; apply (AUX i Hi)); assumption.
Qed.

(* ------------------------------------------------------------------ *)
(** *** The SOS1 rows close the gap *)

Lemma sos1_pair_zero x a s : sat x (CSOS1 [a; s]) -> x a * x s == 0.
Proof.
  cbn [sat filter]; destruct (Qeq_bool (x a) 0) eqn:Ea, (Qeq_bool (x s) 0) eqn:Es;
    cbn; intro H.
  - apply Qeq_bool_iff in Ea; rewrite Ea; ring.
  - apply Qeq_bool_iff in Ea; rewrite Ea; ring.
  - apply Qeq_bool_iff in Es; rewrite Es; ring.
  - lia.
Qed.

Lemma sos_pair_sat hm m p m' x :
  sos_pair hm m p = Ok m' -> rows_sat m' x -> rows_sat m x /\ pair_product x hm p == 0.
Proof.
  destruct p as [key ga ka pr ks|key ga ka ks]; unfold sos_pair, pair_product; intros E Hs.
  - apply rbind_ok in E as [[m0 ids] [E1 E2]]; injection E2 as <-.
    destruct (rows_sat_addConstrs _ _ _ _ _ _ E1 Hs) as [Hm R]; split; [exact Hm|].
    rewrite <- (qsum_zero_fun (hours_num (hm_hp hm))); apply qsum_ext; intros i Hi.
    destruct (R i Hi) as (c & Hc & Hsat).
    apply rbind_ok in Hc as [a [Ha Hc]]; apply rbind_ok in Hc as [s [Hs' Hc]].
    injection Hc as <-; apply getv_var_at in Ha, Hs'; subst a s.
    exact (sos1_pair_zero _ _ _ Hsat).
  - apply rbind_ok in E as [a [Ha E]]; apply rbind_ok in E as [s [Hs' E]].
    injection E as <-; apply rows_sat_addConstr in Hs as [Hm Hsat]; split; [exact Hm|].
    apply gets_var_s in Ha, Hs'; subst a s.
    exact (sos1_pair_zero _ _ _ Hsat).
Qed.

Lemma fold_pairs_sos_sat hm m ps m' x :
  fold_pairs (sos_pair hm) m ps = Ok m' -> rows_sat m' x ->
  rows_sat m x /\ forall p, In p ps -> pair_product x hm p == 0.
Proof.
  revert m; induction ps as [|p ps IH]; cbn [fold_pairs]; intros m E Hs.
  - injection E as <-; split; [exact Hs|intros p []].
  - apply rbind_ok in E as [m1 [E1 E2]].
    destruct (IH _ E2 Hs) as [Hs1 Hp].
    destruct (sos_pair_sat _ _ _ _ _ E1 Hs1) as [Hs0 H0].
    split; [exact Hs0|]; intros q [<-|Hq]; [exact H0|exact (Hp q Hq)].
Qed.

Lemma cs_gap_zero x hm :
  (forall p, In p cs_pairs -> pair_product x hm p == 0) -> cs_gap x hm == 0.
Proof.
  unfold cs_gap; induction cs_pairs as [|p ps IH]; cbn [fold_right]; intro Hp;
    [reflexivity|].
  rewrite (Hp p (or_introl eq_refl)), IH by (intros q Hq; apply Hp; now right); ring.
Qed.

Lemma sos_gap_zero hp ap hm x :
  sos_attack_build hp ap = Ok hm -> rows_sat (hm_model hm) x ->
  exists p d, dict_get "primal" (hm_obj hm) = Some p /\
              dict_get "dual" (hm_obj hm) = Some d /\ eval x p == eval x d.
Proof.
  unfold sos_attack_build; intros E Hs.
  apply rbind_ok in E as [hk [Ek E]]; apply rbind_ok in E as [hs [Es E]].
  apply set_obj_shape in E as (s & o & _ & -> & _).
  unfold add_sos_constrs in Es; apply rbind_ok in Es as [m [Em Es]]; injection Es as <-.
  cbn [hm_model hm_obj with_model] in *.
  apply rows_sat_setObjective, rows_sat_setParam in Hs.
  destruct (fold_pairs_sos_sat _ _ _ _ _ Em Hs) as [Hk Hp].
  destruct (kkt_gap_eq _ _ _ _ Ek Hk) as (p & d & Hpd & Hd & Hg).
  exists p, d; split; [exact Hpd|split; [exact Hd|]].
  rewrite cs_gap_zero in Hg by exact Hp; lra.
Qed.

(* ------------------------------------------------------------------ *)
(** *** Column bounds of the layout *)

Lemma nth_error_block_mid {A} (pre mid tl : list A) (P : A -> Prop) k :
  (forall c, In c mid -> P c) -> (length pre <= k < length pre + length mid)%nat ->
  exists c, nth_error (pre ++ mid ++ tl) k = Some c /\ P c.
Proof.
  intros HP Hk.
  destruct (nth_error mid (k - length pre)) as [c|] eqn:E;
    [|apply nth_error_None in E; lia].
  exists c; split; [|apply HP; eapply nth_error_In; exact E].
  rewrite nth_error_app2 by lia; rewrite nth_error_app1 by lia; exact E.
Qed.

Lemma layout_cols_aux H l u k :
  (12 * H + 2 <= k < 22 * H + 4)%nat ->
  exists c, nth_error (layout_cols H l u) k = Some c /\ c_lb c = 0 /\ c_type c = CONTINUOUS.
Proof.
  intro Hk.
  set (NI := (- GRB_INFINITY)%Q); set (I := GRB_INFINITY).
  set (pre := block "delta" H l u CONTINUOUS ++ block "abs" H NI I CONTINUOUS ++
    block "energy_PV" H 0 I CONTINUOUS ++ block "energy_battery" H 0 I CONTINUOUS ++
    block "energy_battery_in" H 0 I CONTINUOUS ++ block "energy_battery_out" H 0 I CONTINUOUS ++
    block "energy_buy" H 0 I CONTINUOUS ++ block "energy_sell" H 0 I CONTINUOUS ++
    single "capacity_battery" 0 I CONTINUOUS ++ single "capacity_PV" 0 I CONTINUOUS ++
    block "limit_battery" H NI 0 CONTINUOUS ++ block "limit_PV" H NI 0 CONTINUOUS ++
    block "eq_battery" H NI I CONTINUOUS ++ block "eq_demand" H NI I CONTINUOUS).
  set (mid := block "aux_limit_PV" H 0 I CONTINUOUS ++ block "aux_limit_battery" H 0 I CONTINUOUS ++
    block "slack_limit_PV" H 0 I CONTINUOUS ++ block "slack_limit_battery" H 0 I CONTINUOUS ++
    block "slack_energy_buy" H 0 I CONTINUOUS ++ block "slack_energy_sell" H 0 I CONTINUOUS ++
    block "slack_energy_battery_out" H 0 I CONTINUOUS ++
    block "slack_energy_battery_in" H 0 I CONTINUOUS ++
    block "slack_energy_battery" H 0 I CONTINUOUS ++ block "slack_energy_PV" H 0 I CONTINUOUS ++
    single "slack_capacity_PV" 0 I CONTINUOUS ++ single "slack_capacity_battery" 0 I CONTINUOUS).
  assert (Hsplit : exists tl, layout_cols H l u = pre ++ mid ++ tl).
  { eexists; unfold layout_cols, pre, mid; cbv zeta; rewrite <- !app_assoc; reflexivity. }
  destruct Hsplit as [tl ->]; apply nth_error_block_mid.
  - intros c Hin; unfold mid, block, single in Hin.
    repeat (apply in_app_or in Hin; destruct Hin as [Hin|Hin]);
      try (apply in_map_iff in Hin as (j & <- & _));
      try (destruct Hin as [<-|[]]); simpl; auto.
  - unfold pre, mid, block, single; rewrite ?length_app, ?length_map, ?length_seq; simpl; lia.
Qed.

Lemma layout_cols_cs H l u k :
  (22 * H + 4 <= k < 30 * H + 6)%nat ->
  exists c, nth_error (layout_cols H l u) k = Some c /\ c_type c = BINARY.
Proof.
  intro Hk.
  set (NI := (- GRB_INFINITY)%Q); set (I := GRB_INFINITY).
  set (pre := block "delta" H l u CONTINUOUS ++ block "abs" H NI I CONTINUOUS ++
    block "energy_PV" H 0 I CONTINUOUS ++ block "energy_battery" H 0 I CONTINUOUS ++
    block "energy_battery_in" H 0 I CONTINUOUS ++ block "energy_battery_out" H 0 I CONTINUOUS ++
    block "energy_buy" H 0 I CONTINUOUS ++ block "energy_sell" H 0 I CONTINUOUS ++
    single "capacity_battery" 0 I CONTINUOUS ++ single "capacity_PV" 0 I CONTINUOUS ++
    block "limit_battery" H NI 0 CONTINUOUS ++ block "limit_PV" H NI 0 CONTINUOUS ++
    block "eq_battery" H NI I CONTINUOUS ++ block "eq_demand" H NI I CONTINUOUS ++
    block "aux_limit_PV" H 0 I CONTINUOUS ++ block "aux_limit_battery" H 0 I CONTINUOUS ++
    block "slack_limit_PV" H 0 I CONTINUOUS ++ block "slack_limit_battery" H 0 I CONTINUOUS ++
    block "slack_energy_buy" H 0 I CONTINUOUS ++ block "slack_energy_sell" H 0 I CONTINUOUS ++
    block "slack_energy_battery_out" H 0 I CONTINUOUS ++
    block "slack_energy_battery_in" H 0 I CONTINUOUS ++
    block "slack_energy_battery" H 0 I CONTINUOUS ++ block "slack_energy_PV" H 0 I CONTINUOUS ++
    single "slack_capacity_PV" 0 I CONTINUOUS ++ single "slack_capacity_battery" 0 I CONTINUOUS).
  set (mid := block "cs_limit_PV" H 0 1 BINARY ++ block "cs_limit_battery" H 0 1 BINARY ++
    block "cs_energy_buy" H 0 1 BINARY ++ block "cs_energy_sell" H 0 1 BINARY ++
    block "cs_energy_battery_out" H 0 1 BINARY ++ block "cs_energy_battery_in" H 0 1 BINARY ++
    block "cs_energy_battery" H 0 1 BINARY ++ block "cs_energy_PV" H 0 1 BINARY ++
    single "cs_limit_PV" 0 1 BINARY ++ single "cs_limit_battery" 0 1 BINARY).
  assert (Hsplit : exists tl, layout_cols H l u = pre ++ mid ++ tl).
  { exists []; unfold layout_cols, pre, mid; cbv zeta; rewrite <- !app_assoc; reflexivity. }
  destruct Hsplit as [tl ->]; apply nth_error_block_mid.
  - intros c Hin; unfold mid, block, single in Hin.
    repeat (apply in_app_or in Hin; destruct Hin as [Hin|Hin]);
      try (apply in_map_iff in Hin as (j & <- & _));
      try (destruct Hin as [<-|[]]); simpl; auto.
  - unfold pre, mid, block, single; rewrite ?length_app, ?length_map, ?length_seq; simpl; lia.
Qed.

(* ------------------------------------------------------------------ *)
(** *** The big-M rows close the gap on feasible points *)

Lemma kkt_build_layout hp ap l u hk :
  lb ap = QScalar l -> ub ap = QScalar u -> kkt_build hp ap = Ok hk ->
  hm_hp hk = hp /\ hm_vars hk = layout_vars (hours_num hp) /\
  exists tl, m_cols (hm_model hk) = layout_cols (hours_num hp) l u ++ tl.
Proof.
  intros Hl Hu E; unfold kkt_build in E.
  rewrite (add_vars_layout ap hp l u Hl Hu) in E; cbn [rbind] in E.
  apply rbind_ok in E as [h1 [E1 E]].
  apply rbind_ok in E as [h2 [E2 E]]; apply rbind_ok in E as [h3 [E3 E4]].
  apply add_upper_level_constrs_shape in E1 as (m1 & o1 & -> & _ & G1).
  apply add_primal_constrs_shape in E2 as (m2 & o2 & -> & _ & G2).
  apply add_dual_constrs_shape in E3 as (m3 & o3 & -> & _ & G3).
  apply add_aux_constrs_shape in E4 as (m4 & -> & G4).
  cbn [hm_hp hm_vars hm_model with_obj with_model] in *.
  split; [reflexivity|split; [reflexivity|]].
  destruct (grows_trans _ _ _ (grows_trans _ _ _ G1 G2) (grows_trans _ _ _ G3 G4))
    as (_ & [tl Htl] & _).
  exists tl; exact Htl.
Qed.

Lemma nth_error_app_Some {A} (l tl : list A) k c :
  nth_error l k = Some c -> nth_error (l ++ tl) k = Some c.
Proof.
  intro E; rewrite nth_error_app1; [exact E|].
  apply nth_error_Some; congruence.
Qed.

Section LayoutBounds.
Variables (m : gmodel) (H : nat) (l u : Q) (tl : list column) (x : valuation).
Hypothesis Hc : m_cols m = layout_cols H l u ++ tl.
Hypothesis Hb : forall k c, nth_error (m_cols m) k = Some c -> in_bounds c (x k).

Lemma layout_nonneg k :
  (2 * H <= k < 8 * H + 2 \/ 12 * H + 2 <= k < 22 * H + 4)%nat -> 0 <= x k.
Proof.
  intro Hk; assert (Hl : exists c, nth_error (layout_cols H l u) k = Some c /\ c_lb c = 0).
  { destruct Hk as [Hk|Hk];
      [destruct (layout_cols_mid H l u k Hk) as (c & ? & ? & _)
      |destruct (layout_cols_aux H l u k Hk) as (c & ? & ? & _)]; eauto. }
  destruct Hl as (c & Hn & Hlb).
  apply (nth_error_app_Some _ tl) in Hn; rewrite <- Hc in Hn.
  destruct (Hb _ _ Hn) as [[Hl|Hl] _]; rewrite Hlb in Hl;
    [exfalso; exact (INF_BOUND_pos Hl)|exact Hl].
Qed.

Lemma layout_binary k : (22 * H + 4 <= k < 30 * H + 6)%nat -> x k == 0 \/ x k == 1.
Proof.
  intro Hk; destruct (layout_cols_cs H l u k Hk) as (c & Hn & Ht).
  apply (nth_error_app_Some _ tl) in Hn; rewrite <- Hc in Hn.
  destruct (Hb _ _ Hn) as (_ & _ & Hbin); exact (Hbin Ht).
Qed.
End LayoutBounds.

Lemma xv_layout x hm H g k grp base i :
  hm_vars hm = layout_vars H -> dict_get g (layout_vars H) = Some grp ->
  dict_get k grp = Some (VMany (seq base H)) -> (i < H)%nat ->
  xv x hm g k i = x (base + i)%nat.
Proof. intros. unfold xv, var_at; erewrite layout_getv by eassumption; reflexivity. Qed.

Lemma xs_layout x hm H g k grp v :
  hm_vars hm = layout_vars H -> dict_get g (layout_vars H) = Some grp ->
  dict_get k grp = Some (VOne v) -> xs x hm g k = x v.
Proof. intros. unfold xs, var_s; erewrite layout_gets by eassumption; reflexivity. Qed.

Lemma bigM_zero a s z M :
  0 <= a -> 0 <= s -> (z == 0 \/ z == 1) -> a <= z * M -> s <= (1 - z) * M -> a * s == 0.
Proof.
  intros Ha Hs [Hz|Hz] H1 H2; rewrite Hz in H1, H2.
  - assert (a == 0) as -> by lra; ring.
  - assert (s == 0) as -> by lra; ring.
Qed.

Lemma bigM_pair_sat hm M m p m' x :
  bigM_pair hm M m p = Ok m' -> rows_sat m' x -> rows_sat m x /\ bigM_rows_hold x hm M p.
Proof.
  destruct p as [key ga ka pr ks|key ga ka ks]; unfold bigM_pair, bigM_rows_hold; intros E Hs.
  - apply rbind_ok in E as [[m0 ids0] [E1 E]].
    apply rbind_ok in E as [[m1 ids1] [E2 E]]; injection E as <-.
    destruct (rows_sat_addConstrs _ _ _ _ _ _ E2 Hs) as [Hs1 R2].
    destruct (rows_sat_addConstrs _ _ _ _ _ _ E1 Hs1) as [Hs0 R1].
    split; [exact Hs0|]; intros i Hi.
    destruct (R1 i Hi) as (c1 & Hc1 & S1); destruct (R2 i Hi) as (c2 & Hc2 & S2).
    apply rbind_ok in Hc1 as [a [Ha Hc1]]; apply rbind_ok in Hc1 as [z [Hz Hc1]].
    apply rbind_ok in Hc2 as [s [Hs' Hc2]]; apply rbind_ok in Hc2 as [z' [Hz' Hc2]].
    injection Hc1 as <-; injection Hc2 as <-.
    apply vA_var_at in Ha, Hz, Hs', Hz'; subst a z s z'.
    unfold xv; cbn [sat eval] in S1, S2.
    split; [exact S1|exact S2].
  - apply rbind_ok in E as [a [Ha E]]; apply rbind_ok in E as [z [Hz E]].
    apply rbind_ok in E as [s [Hs' E]]; injection E as <-.
    peel Hs; split; [exact Hs|].
    apply vS_var_s in Ha, Hz, Hs'; subst a z s.
    unfold xs; cbn [sat eval] in *; split; assumption.
Qed.

Lemma fold_pairs_bigM_sat hm M m ps m' x :
  fold_pairs (bigM_pair hm M) m ps = Ok m' -> rows_sat m' x ->
  rows_sat m x /\ forall p, In p ps -> bigM_rows_hold x hm M p.
Proof.
  revert m; induction ps as [|p ps IH]; cbn [fold_pairs]; intros m E Hs.
  - injection E as <-; split; [exact Hs|intros p []].
  - apply rbind_ok in E as [m1 [E1 E2]].
    destruct (IH _ E2 Hs) as [Hs1 Hp].
    destruct (bigM_pair_sat _ _ _ _ _ _ E1 Hs1) as [Hs0 H0].
    split; [exact Hs0|]; intros q [<-|Hq]; [exact H0|exact (Hp q Hq)].
Qed.

Lemma cs_gap_nonneg x hm :
  (forall p, In p cs_pairs -> 0 <= pair_product x hm p) -> 0 <= cs_gap x hm.
Proof.
  unfold cs_gap; induction cs_pairs as [|p ps IH]; cbn [fold_right]; intro Hp;
    [apply Qle_refl|].
  pose proof (Hp p (or_introl eq_refl)).
  pose proof (IH (fun q Hq => Hp q (or_intror Hq))); lra.
Qed.

(** Rewriting the variables of a pair to their columns on the layout. *)
Ltac to_columns Hv :=
  repeat first
    [ erewrite xv_layout by first [exact Hv | reflexivity | assumption | apply prev_lt; assumption]
    | erewrite xs_layout by first [exact Hv | reflexivity] ].

Lemma kkt_pairs_nonneg hp ap l u hk x tl :
  lb ap = QScalar l -> ub ap = QScalar u -> kkt_build hp ap = Ok hk ->
  m_cols (hm_model hk) = layout_cols (hours_num hp) l u ++ tl ->
  (forall k c, nth_error (m_cols (hm_model hk)) k = Some c -> in_bounds c (x k)) ->
  forall p, In p cs_pairs -> 0 <= pair_product x hk p.
Proof.
  intros Hl Hu Ek Hc Hb.
  destruct (kkt_build_layout _ _ _ _ _ Hl Hu Ek) as (Hhp & Hv & _).
  intros p Hp; unfold pair_product; rewrite Hhp.
  repeat (destruct Hp as [<-|Hp]); [..|destruct Hp]; cbn iota zeta;
    first [ apply qsum_nonneg; intros i Hi | idtac ]; apply Qmult_le_0_compat;
    to_columns Hv; apply (layout_nonneg _ _ _ _ _ _ Hc Hb);
    try (pose proof (prev_lt _ _ Hi)); lia.
Qed.

Lemma bigM_pairs_zero hp ap l u hk x tl M :
  lb ap = QScalar l -> ub ap = QScalar u -> kkt_build hp ap = Ok hk ->
  m_cols (hm_model hk) = layout_cols (hours_num hp) l u ++ tl ->
  (forall k c, nth_error (m_cols (hm_model hk)) k = Some c -> in_bounds c (x k)) ->
  forall p, In p cs_pairs -> bigM_rows_hold x hk M p -> pair_product x hk p == 0.
Proof.
  intros Hl Hu Ek Hc Hb.
  destruct (kkt_build_layout _ _ _ _ _ Hl Hu Ek) as (Hhp & Hv & _).
  intros p Hp; unfold pair_product, bigM_rows_hold; rewrite Hhp.
  repeat (destruct Hp as [<-|Hp]); [..|destruct Hp]; cbn iota zeta; intro HB;
    first [ rewrite <- (qsum_zero_fun (hours_num hp)); apply qsum_ext; intros i Hi;
            destruct (HB i Hi) as [B1 B2]
          | destruct HB as [B1 B2] ];
    refine (bigM_zero _ _ _ M _ _ _ B1 B2);
    to_columns Hv;
    first [ apply (layout_nonneg _ _ _ _ _ _ Hc Hb)
          | apply (layout_binary _ _ _ _ _ _ Hc Hb) ];
    try (pose proof (prev_lt _ _ Hi)); lia.
Qed.

(** X2: with scalar attack bounds, every feasible point of the KKT model has a
    dual objective no larger than its primal objective. *)
Lemma kkt_build_weak_duality hp ap l u hk x :
  lb ap = QScalar l -> ub ap = QScalar u -> kkt_build hp ap = Ok hk ->
  feasible (hm_model hk) x ->
  exists p d, dict_get "primal" (hm_obj hk) = Some p /\
              dict_get "dual" (hm_obj hk) = Some d /\ eval x d <= eval x p.
Proof.
  intros Hl Hu Ek [Hs Hb].
  destruct (kkt_build_layout _ _ _ _ _ Hl Hu Ek) as (_ & _ & tl & Hc).
  destruct (kkt_gap_eq _ _ _ _ Ek Hs) as (p & d & Hp & Hd & Hg).
  exists p, d; split; [exact Hp|split; [exact Hd|]].
  pose proof (cs_gap_nonneg x hk (kkt_pairs_nonneg _ _ _ _ _ _ _ Hl Hu Ek Hc Hb)); lra.
Qed.

Lemma bigM_gap_zero hp ap bigM hm x l u :
  lb ap = QScalar l -> ub ap = QScalar u ->
  bigM_attack_build hp ap bigM = Ok hm -> feasible (hm_model hm) x ->
  exists p d, dict_get "primal" (hm_obj hm) = Some p /\
              dict_get "dual" (hm_obj hm) = Some d /\ eval x p == eval x d.
Proof.
  unfold bigM_attack_build; intros Hl Hu E [Hs Hb].
  apply rbind_ok in E as [hk [Ek E]]; apply rbind_ok in E as [hb [Eb E]].
  apply set_obj_shape in E as (s & o & _ & -> & _).
  unfold add_bigM_constrs in Eb; apply rbind_ok in Eb as [m [Em Eb]]; injection Eb as <-.
  cbn [hm_model hm_obj with_model] in *.
  assert (Hs' : rows_sat m x) by exact Hs.
  assert (Hb' : forall k c, nth_error (m_cols m) k = Some c -> in_bounds c (x k)) by exact Hb.
  clear Hs Hb.
  destruct (fold_pairs_bigM_sat _ _ _ _ _ _ Em Hs') as [Hk Hp].
  pose proof (fold_pairs_grows _ _ _ _ (fun m1 p m2 _ => bigM_pair_grows hk bigM m1 p m2) Em)
    as (_ & [cs Hcs] & _).
  destruct (kkt_build_layout _ _ _ _ _ Hl Hu Ek) as (_ & _ & tl & Hc).
  assert (Hbk : forall k c, nth_error (m_cols (hm_model hk)) k = Some c -> in_bounds c (x k)).
  { intros k c Hn; apply Hb'; rewrite Hcs; apply nth_error_app_Some; exact Hn. }
  destruct (kkt_gap_eq _ _ _ _ Ek Hk) as (p & d & Hpd & Hd & Hg).
  exists p, d; split; [exact Hpd|split; [exact Hd|]].
  rewrite cs_gap_zero in Hg; [lra|].
  intros q Hq; exact (bigM_pairs_zero _ _ _ _ _ _ _ _ Hl Hu Ek Hc Hbk q Hq (Hp q Hq)).
Qed.

(* ------------------------------------------------------------------ *)
(** *** The primal model and the dual model: weak duality *)

Lemma in_combine_r_ex {A B} (l1 : list A) (l2 : list B) b :
  length l1 = length l2 -> In b l2 -> exists a, In (a, b) (combine l1 l2).
Proof.
  revert l2; induction l1 as [|a l1 IH]; intros [|b' l2] Hl Hb; try (simpl in *; lia || tauto).
  destruct Hb as [<-|Hb]; [exists a; left; reflexivity|].
  destruct (IH l2 ltac:(simpl in Hl; lia) Hb) as [a' Ha']; exists a'; right; exact Ha'.
Qed.

Lemma fix_vars_pins hm name q hm' x :
  fix_vars hm name (Some q) = Ok hm' -> rows_sat (hm_model hm') x ->
  rows_sat (hm_model hm) x /\ hm_hp hm' = hm_hp hm /\ hm_vars hm' = hm_vars hm /\
  hm_obj hm' = hm_obj hm /\ m_cols (hm_model hm') = m_cols (hm_model hm) /\
  exists grp, dict_get name (hm_vars hm) = Some grp /\
    forall v, In v (group_vars grp) -> x v == q.
Proof.
  intros E Hs; apply fix_vars_shape in E as (grp & cs & m & ids & Hg & Hcs & Hm & ->).
  apply addConstrList_spec in Hm as (Hr & Hids & _ & Hc & _).
  cbn [hm_model hm_hp hm_vars hm_obj with_fix] in *.
  destruct (rows_sat_app (hm_model hm) m _ x Hr Hs) as [Hs0 Hin].
  split; [exact Hs0|split; [reflexivity|split; [reflexivity|split; [reflexivity|]]]].
  split; [exact Hc|]; exists grp; split; [exact Hg|]; intros v Hv.
  change (rmap (fun v => Ok (CEq (EConst q) (EVar v))) (group_vars grp) = Ok cs) in Hcs.
  rewrite rmap_ok_pure in Hcs; injection Hcs as <-.
  destruct (in_combine_r_ex ids (map (fun x : var => CEq (EConst q) (EVar x)) (group_vars grp)) (CEq (EConst q) (EVar v))) as [id Hid].
  - rewrite Hids, length_seq; reflexivity.
  - apply in_map_iff; exists v; split; [reflexivity|exact Hv].
  - specialize (Hin _ Hid); cbn [snd sat eval] in Hin; now symmetry.
Qed.

Lemma layout_cols_dual H l u k :
  (8 * H + 2 <= k < 10 * H + 2)%nat ->
  exists c, nth_error (layout_cols H l u) k = Some c /\ c_ub c = 0.
Proof.
  intro Hk.
  set (NI := (- GRB_INFINITY)%Q); set (I := GRB_INFINITY).
  set (pre := block "delta" H l u CONTINUOUS ++ block "abs" H NI I CONTINUOUS ++
    block "energy_PV" H 0 I CONTINUOUS ++ block "energy_battery" H 0 I CONTINUOUS ++
    block "energy_battery_in" H 0 I CONTINUOUS ++ block "energy_battery_out" H 0 I CONTINUOUS ++
    block "energy_buy" H 0 I CONTINUOUS ++ block "energy_sell" H 0 I CONTINUOUS ++
    single "capacity_battery" 0 I CONTINUOUS ++ single "capacity_PV" 0 I CONTINUOUS).
  set (mid := block "limit_battery" H NI 0 CONTINUOUS ++ block "limit_PV" H NI 0 CONTINUOUS).
  assert (Hsplit : exists tl, layout_cols H l u = pre ++ mid ++ tl).
  { eexists; unfold layout_cols, pre, mid; cbv zeta; rewrite <- !app_assoc; reflexivity. }
  destruct Hsplit as [tl ->]; apply nth_error_block_mid.
  - intros c Hin; unfold mid, block, single in Hin.
    repeat (apply in_app_or in Hin; destruct Hin as [Hin|Hin]);
      try (apply in_map_iff in Hin as (j & <- & _)); simpl; auto.
  - unfold pre, mid, block, single; rewrite ?length_app, ?length_map, ?length_seq; simpl; lia.
Qed.

Lemma INF_BOUND_not_nonpos : ~ (INF_BOUND <= 0).
Proof. intro H; apply Qle_bool_iff in H; vm_compute in H; discriminate H. Qed.

Lemma layout_nonpos m H l u tl x k :
  m_cols m = layout_cols H l u ++ tl ->
  (forall k c, nth_error (m_cols m) k = Some c -> in_bounds c (x k)) ->
  (8 * H + 2 <= k < 10 * H + 2)%nat -> x k <= 0.
Proof.
  intros Hc Hb Hk; destruct (layout_cols_dual H l u k Hk) as (c & Hn & Hub).
  apply (nth_error_app_Some _ tl) in Hn; rewrite <- Hc in Hn.
  destruct (Hb _ _ Hn) as [_ [[Hu|Hu] _]]; rewrite Hub in Hu;
    [exfalso; exact (INF_BOUND_not_nonpos Hu)|exact Hu].
Qed.

Ltac fold_H :=
  repeat match goal with
  | K : context [hours_num ?hp] |- _ =>
      match goal with H := hours_num hp |- _ => change (hours_num hp) with H in K end
  end;
  match goal with H := hours_num ?hp |- _ => try change (hours_num hp) with H end.

(** X5: with scalar attack bounds, the objective of [dual_model] at any of its
    feasible points is at most the objective of [primal_model] at any of its
    feasible points. *)
Lemma primal_dual_weak_duality hp ap l u hP hD x y :
  lb ap = QScalar l -> ub ap = QScalar u ->
  primal_model_build hp ap = Ok hP -> feasible (hm_model hP) x ->
  dual_model_build hp ap = Ok hD -> feasible (hm_model hD) y ->
  eval y (m_obj (hm_model hD)) <= eval x (m_obj (hm_model hP)).
Proof.
  intros Hl Hu EP [HsP HbP] ED [HsD HbD].
  unfold primal_model_build in EP; unfold dual_model_build in ED.
  rewrite (add_vars_layout ap hp l u Hl Hu) in EP, ED; cbn [rbind] in EP, ED.
  remember (mkhouse hp (mkmodel (layout_cols (hours_num hp) l u) [] 0 (EConst 0) MINIMIZE [])
              None (layout_vars (hours_num hp)) [] []) as h0 eqn:Eh0.
  set (H := hours_num hp) in *.
  assert (Hv : hm_vars h0 = layout_vars H) by (rewrite Eh0; reflexivity).
  assert (Hhp : hm_hp h0 = hp) by (rewrite Eh0; reflexivity).
  assert (Hc0 : m_cols (hm_model h0) = layout_cols H l u) by (rewrite Eh0; reflexivity).
  (* the primal model *)
  apply rbind_ok in EP as [p1 [EP1 EP]]; apply rbind_ok in EP as [p2 [EP2 EP3]].
  apply set_obj_shape in EP3 as (sP & oP & HoP & -> & _).
  cbn [hm_model with_model setObjective m_obj m_cols m_rows] in HsP, HbP |- *.
  assert (HsP2 : rows_sat (hm_model p2) x) by exact HsP.
  destruct (fix_vars_pins _ _ _ _ _ EP2 HsP2)
    as (HsP1 & _ & HvP2 & HobjP2 & HcP2 & grpP & HgP & PinP).
  destruct (add_primal_constrs_sat _ _ _ EP1 HsP1) as (_ & PRI).
  apply add_primal_constrs_shape in EP1 as (mP & oP2 & -> & HoP2 & GP).
  rewrite HobjP2 in HoP; cbn [hm_obj with_obj] in HoP.
  rewrite dict_get_set_same in HoP; injection HoP as <-.
  (* the dual model *)
  apply rbind_ok in ED as [d1 [ED1 ED]]; apply rbind_ok in ED as [d2 [ED2 ED3]].
  apply set_obj_shape in ED3 as (sD & oD & HoD & -> & _).
  cbn [hm_model with_model setObjective m_obj m_cols m_rows] in HsD, HbD |- *.
  assert (HsD2 : rows_sat (hm_model d2) y) by exact HsD.
  destruct (fix_vars_pins _ _ _ _ _ ED2 HsD2)
    as (HsD1 & _ & HvD2 & HobjD2 & HcD2 & grpD & HgD & PinD).
  destruct (add_dual_constrs_sat _ _ _ ED1 HsD1) as (_ & DU & (cB & HcB & DB) & (cPV & HcPV & DP)).
  apply add_dual_constrs_shape in ED1 as (mD & oD2 & -> & HoD2 & GD).
  rewrite HobjD2 in HoD; cbn [hm_obj with_obj] in HoD.
  rewrite dict_get_set_same in HoD; injection HoD as <-.
  rewrite Hhp in *; fold_H.
  (* the bounds of both models *)
  destruct GP as (_ & [csP HcsP] & _); destruct GD as (_ & [csD HcsD] & _).
  cbn [hm_model hm_vars with_obj] in HcP2, HcD2, HgP, HgD.
  rewrite HcsP, Hc0 in HcP2; rewrite HcsD, Hc0 in HcD2.
  pose proof (layout_nonneg _ _ _ _ _ _ HcP2 HbP) as NNx.
  pose proof (fun k => layout_nonpos _ _ _ _ _ _ k HcD2 HbD) as NPy.
  (* delta is pinned to 0 in both models *)
  rewrite Hv in HgP, HgD; cbn in HgP, HgD; injection HgP as <-; injection HgD as <-.
  assert (Dx : forall i, (i < H)%nat -> xv x h0 "upper_level" "delta" i == 0).
  { intros i Hi; to_columns Hv; apply PinP; cbn [group_vars flat_map slot_vars snd].
    apply in_or_app; left; apply in_seq; lia. }
  assert (Dy : forall i, (i < H)%nat -> xv y h0 "upper_level" "delta" i == 0).
  { intros i Hi; to_columns Hv; apply PinD; cbn [group_vars flat_map slot_vars snd].
    apply in_or_app; left; apply in_seq; lia. }
  (* the objectives *)
  destruct (primal_obj_eval h0 x oP2 HoP2) as (cPV' & cB' & HcPV' & HcB' & ->).
  rewrite Hhp in HcPV', HcB'; rewrite HcB in HcB'; rewrite HcPV in HcPV'.
  apply Ok_inj in HcB', HcPV'; subst cB' cPV'.
  rewrite (dual_obj_eval h0 y oD2 HoD2), Hhp; fold_H.
  set (a := fun i => nth i (PV_availabilities hp) 0) in *.
  set (capPV := xs x h0 "primal" "capacity_PV"); set (capB := xs x h0 "primal" "capacity_battery").
  set (buy := xv x h0 "primal" "energy_buy"); set (sell := xv x h0 "primal" "energy_sell").
  set (bout := xv x h0 "primal" "energy_battery_out").
  set (bin := xv x h0 "primal" "energy_battery_in").
  set (pv := xv x h0 "primal" "energy_PV"); set (b := xv x h0 "primal" "energy_battery").
  set (lam := xv y h0 "dual" "eq_demand"); set (mu := xv y h0 "dual" "eq_battery").
  set (nu := xv y h0 "dual" "limit_PV"); set (rho := xv y h0 "dual" "limit_battery").
  set (r := fun i => nth i (demands hp) 0 * total_demand hp * (1 + xv x h0 "upper_level" "delta" i)).
  pose proof (duality_gap H a (cost_buy hp) (sell_price hp) cPV cB capPV capB
    (qsum (fun i => nu i * a i) H + cPV) (qsum rho H + cB)
    buy sell bout bin pv b lam mu nu rho r
    (fun i => - nu i) (fun i => - rho i) (fun i => capPV * a i - pv i) (fun i => capB - b i)
    (fun i => cost_buy hp - lam i) (fun i => lam i - sell_price hp)
    (fun i => mu i - lam i) (fun i => lam i - mu i)
    (fun i => - mu i + mu (prev H i) - rho (prev H i)) (fun i => - lam i - nu i)
    (fun i Hi => proj1 (PRI i Hi)) (fun i Hi => proj1 (proj2 (PRI i Hi)))
    (fun i _ => Qeq_refl _) (fun i _ => Qeq_refl _) (fun i _ => Qeq_refl _)
    (fun i _ => Qeq_refl _) (fun i _ => Qeq_refl _) (fun i _ => Qeq_refl _)
    (fun i _ => Qeq_refl _) (fun i _ => Qeq_refl _) (fun i _ => Qeq_refl _)
    (fun i _ => Qeq_refl _) (Qeq_refl _) (Qeq_refl _)) as G.
  cbv beta in G.
  match goal with |- qsum ?F H <= _ =>
    assert (Hr : qsum F H == qsum (fun i => lam i * r i) H) end.
  { apply qsum_ext; intros i Hi; unfold r; rewrite (Dx i Hi), (Dy i Hi); reflexivity. }
  match type of G with _ == qsum ?F H + _ + _ => assert (Q1 : 0 <= qsum F H) end.
  { apply qsum_nonneg; intros i Hi; cbv beta.
    destruct (PRI i Hi) as (_ & _ & P3 & P4).
    destruct (DU i Hi) as (D1 & D2 & D3 & D4 & D5 & D6).
    pose proof (prev_lt _ _ Hi) as Hp.
    assert (Nnu : nu i <= 0) by (unfold nu; to_columns Hv; apply NPy; lia).
    assert (Nrho : rho i <= 0) by (unfold rho; to_columns Hv; apply NPy; lia).
    assert (Npv : 0 <= pv i) by (unfold pv; to_columns Hv; apply NNx; lia).
    assert (Nbp : 0 <= b (prev H i)) by (unfold b; to_columns Hv; apply NNx; lia).
    assert (Nbin : 0 <= bin i) by (unfold bin; to_columns Hv; apply NNx; lia).
    assert (Nbout : 0 <= bout i) by (unfold bout; to_columns Hv; apply NNx; lia).
    assert (Nbuy : 0 <= buy i) by (unfold buy; to_columns Hv; apply NNx; lia).
    assert (Nsell : 0 <= sell i) by (unfold sell; to_columns Hv; apply NNx; lia).
    assert (F1 : 0 <= capPV * a i - pv i) by (unfold capPV, a, pv; cbv beta; lra).
    assert (F2 : 0 <= capB - b i) by (unfold capB, b; lra).
    assert (F3 : 0 <= cost_buy hp - lam i) by (unfold lam; lra).
    assert (F4 : 0 <= lam i - sell_price hp) by (unfold lam; lra).
    assert (F5 : 0 <= mu i - lam i) by (unfold lam, mu; lra).
    assert (F6 : 0 <= lam i - mu i) by (unfold lam, mu; lra).
    assert (F7 : 0 <= - mu i + mu (prev H i) - rho (prev H i)) by (unfold mu, rho; lra).
    assert (F8 : 0 <= - lam i - nu i) by (unfold lam, nu; lra).
    assert (T1 := Qmult_le_0_compat (- nu i) _ ltac:(lra) F1).
    assert (T2 := Qmult_le_0_compat (- rho i) _ ltac:(lra) F2).
    assert (T3 := Qmult_le_0_compat _ _ Nbuy F3).
    assert (T4 := Qmult_le_0_compat _ _ Nsell F4).
    assert (T5 := Qmult_le_0_compat _ _ Nbout F5).
    assert (T6 := Qmult_le_0_compat _ _ Nbin F6).
    assert (T7 := Qmult_le_0_compat _ _ Nbp F7).
    assert (T8 := Qmult_le_0_compat _ _ Npv F8).
    lra. }
  assert (NcB : 0 <= capB) by (unfold capB; to_columns Hv; apply NNx; lia).
  assert (NcP : 0 <= capPV) by (unfold capPV; to_columns Hv; apply NNx; lia).
  assert (SB : 0 <= qsum rho H + cB).
  { assert (qsum (fun i => - rho i) H == - qsum rho H).
    { transitivity (qsum (fun i => -1 * rho i) H);
        [apply qsum_ext; intros; ring|rewrite qsum_scale; ring]. }
    unfold rho in *; lra. }
  assert (SP : 0 <= qsum (fun i => nu i * a i) H + cPV).
  { assert (qsum (fun i => - nu i * a i) H == - qsum (fun i => nu i * a i) H).
    { transitivity (qsum (fun i => -1 * (nu i * a i)) H);
        [apply qsum_ext; intros; ring|rewrite qsum_scale; ring]. }
    unfold nu, a in *; lra. }
  pose proof (Qmult_le_0_compat _ _ NcB SB).
  pose proof (Qmult_le_0_compat _ _ NcP SP).
  lra.
Qed.

(* ------------------------------------------------------------------ *)
(** *** The upper-level rows *)

Lemma add_upper_level_constrs_sat ap hm hm' x :
  add_upper_level_constrs ap hm = Ok hm' -> rows_sat (hm_model hm') x ->
  let H := hours_num (hm_hp hm) in
  rows_sat (hm_model hm) x /\
  qsum (fun i => xv x hm "upper_level" "delta" i * nth i (demands (hm_hp hm)) 0) H == 0 /\
  (forall i, (i < H)%nat ->
     xv x hm "upper_level" "abs" i == Qabs (xv x hm "upper_level" "delta" i)) /\
  (forall c, capacity_battery ap = Some c -> xs x hm "primal" "capacity_battery" == c) /\
  (forall c, capacity_PV ap = Some c -> xs x hm "primal" "capacity_PV" == c).
Proof.
  intros E Hs H; unfold add_upper_level_constrs in E; fold H in E.
  apply rbind_ok in E as [terms [Et E]].
  destruct (addConstr (hm_model hm) (CEq (py_sum terms) (EConst 0))) as [m1 id1] eqn:Ea.
  apply rbind_ok in E as [[m2 ids2] [Eabs E]].
  apply rbind_ok in E as [m3 [Eb E]]; apply rbind_ok in E as [m4 [Ep E]].
  apply rbind_ok in E as [o [_ E]]; injection E as <-; cbn [hm_model with_obj] in Hs.
  assert (Hs3 : rows_sat m3 x /\
                forall c, capacity_PV ap = Some c -> xs x hm "primal" "capacity_PV" == c).
  { destruct (capacity_PV ap) as [c|]; [|injection Ep as <-; split; [exact Hs|discriminate]].
    apply rbind_ok in Ep as [cp [Hcp Ep]]; injection Ep as <-.
    apply rows_sat_addConstr in Hs as [Hs3 Hc]; split; [exact Hs3|].
    intros c' Hc'; injection Hc' as <-; apply vS_var_s in Hcp; subst cp.
    cbn [sat eval] in Hc; unfold xs; now symmetry. }
  destruct Hs3 as [Hs3 HPV].
  assert (Hs2 : rows_sat m2 x /\
                forall c, capacity_battery ap = Some c ->
                          xs x hm "primal" "capacity_battery" == c).
  { destruct (capacity_battery ap) as [c|]; [|injection Eb as <-; split; [exact Hs3|discriminate]].
    apply rbind_ok in Eb as [cb [Hcb Eb]]; injection Eb as <-.
    apply rows_sat_addConstr in Hs3 as [Hs2 Hc]; split; [exact Hs2|].
    intros c' Hc'; injection Hc' as <-; apply vS_var_s in Hcb; subst cb.
    cbn [sat eval] in Hc; unfold xs; now symmetry. }
  destruct Hs2 as [Hs2 HB].
  destruct (rows_sat_addConstrs _ _ _ _ _ _ Eabs Hs2) as [Hs1 R].
  assert (Hs1' : rows_sat (fst (addConstr (hm_model hm) (CEq (py_sum terms) (EConst 0)))) x)
    by (rewrite Ea; exact Hs1).
  apply rows_sat_addConstr in Hs1' as [Hs0 Hsum].
  split; [exact Hs0|split; [|split; [|split; [exact HB|exact HPV]]]].
  - cbn [sat eval] in Hsum; rewrite <- Hsum; symmetry.
    apply (eval_py_sum_rmap x _ _ _ _ Et); intros i e _ Hf.
    unfold demand_change_term in Hf; row_sat Hf; reflexivity.
  - intros i Hi; destruct (R i Hi) as (c & Hc & Hsat).
    unfold abs_row in Hc; apply rbind_ok in Hc as [a [Ha Hc]]; apply rbind_ok in Hc as [d [Hd Hc]].
    injection Hc as <-; apply getv_var_at in Ha, Hd; subst a d.
    exact Hsat.
Qed.

Lemma kkt_upper_level_rows hp ap hm x :
  kkt_build hp ap = Ok hm -> rows_sat (hm_model hm) x ->
  let H := hours_num hp in
  (exists o, dict_get "upper_level" (hm_obj hm) = Some o /\
     eval x o == qsum (fun i => Qabs (xv x hm "upper_level" "delta" i)) H) /\
  qsum (fun i => xv x hm "upper_level" "delta" i * nth i (demands hp) 0) H == 0 /\
  (forall c, capacity_battery ap = Some c -> xs x hm "primal" "capacity_battery" == c) /\
  (forall c, capacity_PV ap = Some c -> xs x hm "primal" "capacity_PV" == c).
Proof.
  intros E Hs H; pose proof (kkt_build_shape _ _ _ E) as (_ & _ & Hhp & _).
  unfold kkt_build in E.
  apply rbind_ok in E as [h0 [E0 E]]; apply rbind_ok in E as [h1 [E1 E]].
  apply rbind_ok in E as [h2 [E2 E]]; apply rbind_ok in E as [h3 [E3 E4]].
  destruct (add_aux_constrs_sat _ _ _ E4 Hs) as (Hs3 & _).
  destruct (add_dual_constrs_sat _ _ _ E3 Hs3) as (Hs2 & _).
  destruct (add_primal_constrs_sat _ _ _ E2 Hs2) as (Hs1 & _).
  destruct (add_upper_level_constrs_sat _ _ _ _ E1 Hs1) as (_ & Hsum & Habs & HB & HPV).
  apply add_upper_level_constrs_shape in E1 as (m1 & o1 & -> & Ho1 & _).
  apply add_primal_constrs_shape in E2 as (m2 & o2 & -> & _ & _).
  apply add_dual_constrs_shape in E3 as (m3 & o3 & -> & _ & _).
  apply add_aux_constrs_shape in E4 as (m4 & -> & _).
  cbn [hm_obj hm_hp with_obj with_model] in *; subst hp H.
  rewrite ?xv_with_obj, ?xv_with_model, ?xs_with_obj, ?xs_with_model.
  split; [|split; [exact Hsum|split; [exact HB|exact HPV]]].
  exists o1; split.
  - rewrite !dict_get_set_other, dict_get_set_same by discriminate; reflexivity.
  - rewrite (upper_level_obj_eval _ x _ Ho1); apply qsum_ext; exact Habs.
Qed.

(* ------------------------------------------------------------------ *)
(** *** What an attack run returns *)

Lemma fold_right_qsum (ys : list Q) :
  fold_right Qplus 0 ys == qsum (fun i => nth i ys 0) (length ys).
Proof.
  induction ys as [|y ys IH]; [reflexivity|].
  cbn [fold_right length]; rewrite qsum_S_l, IH; reflexivity.
Qed.

Lemma sum_rmap (f : nat -> res Q) (g : nat -> Q) n ys :
  rmap f (seq 0 n) = Ok ys ->
  (forall i y, (i < n)%nat -> f i = Ok y -> y == g i) ->
  fold_right Qplus 0 ys == qsum g n.
Proof.
  intros Hr Hg; apply rmap_seq_ok in Hr as [Hl Hn].
  rewrite fold_right_qsum, Hl; apply qsum_ext; intros i Hi.
  apply Hg; [exact Hi|apply Hn; exact Hi].
Qed.

Lemma mbind_Ok {A B} (m : M A) (k : A -> M B) w b w' :
  mbind m k w = Ok (b, w') -> exists a w1, m w = Ok (a, w1) /\ k a w1 = Ok (b, w').
Proof.
  unfold mbind; destruct (m w) as [[a w1]|e]; [|discriminate]; eauto.
Qed.

Lemma lift_Ok {A} (r : res A) w a w' : lift r w = Ok (a, w') -> r = Ok a /\ w' = w.
Proof. unfold lift; destruct r; intro H; [injection H as <- <-; auto|discriminate]. Qed.

Lemma sos_attack_build_kkt hp ap hm x :
  sos_attack_build hp ap = Ok hm -> rows_sat (hm_model hm) x ->
  exists hk, kkt_build hp ap = Ok hk /\ rows_sat (hm_model hk) x /\
    hm_vars hm = hm_vars hk /\ hm_hp hm = hm_hp hk /\ hm_obj hm = hm_obj hk.
Proof.
  unfold sos_attack_build; intros E Hs.
  apply rbind_ok in E as [hk [Ek E]]; apply rbind_ok in E as [hs [Es E]].
  apply set_obj_shape in E as (s & o & _ & -> & _).
  unfold add_sos_constrs in Es; apply rbind_ok in Es as [m [Em Es]]; injection Es as <-.
  cbn [hm_model hm_obj hm_vars hm_hp with_model] in *.
  apply rows_sat_setObjective, rows_sat_setParam in Hs.
  destruct (fold_pairs_sos_sat _ _ _ _ _ Em Hs) as [Hk _].
  exists hk; auto.
Qed.

(** X6: when the solver returns a solution satisfying the rows, [sos_attack]
    prints two equal objective values (primal, dual) and returns changed
    demands with the same total as the demands. *)
Lemma sos_attack_run solver hp ap w out w' hm x :
  sos_attack_build hp ap = Ok hm -> snd (solver (hm_model hm)) = Some x ->
  rows_sat (hm_model hm) x ->
  sos_attack solver hp ap w = Ok (out, w') ->
  exists qp qd ds cds,
    w_out w' = w_out w ++ [PrVal (PFloat qp); PrVal (PFloat qd)] /\ qp == qd /\
    dict_get "demands" out = Some (PList ds) /\
    dict_get "changed_demands" out = Some (PList cds) /\
    fold_right Qplus 0 cds == fold_right Qplus 0 ds.
Proof.
  intros Eb Hx Hs Hrun; unfold sos_attack in Hrun.
  apply mbind_Ok in Hrun as (hm1 & w1 & R1 & Hrun); apply lift_Ok in R1 as [R1 ->].
  rewrite Eb in R1; injection R1 as <-.
  apply mbind_Ok in Hrun as ([hs st] & w2 & R2 & Hrun); unfold solve in R2.
  injection R2 as <- <- <-; rewrite Hx in Hrun; cbv beta iota in Hrun.
  remember (mkhouse (hm_hp hm) (hm_model hm) (Some x) (hm_vars hm) (hm_obj hm) (hm_fix hm))
    as hs eqn:Ehs.
  destruct (sos_attack_build_kkt _ _ _ _ Eb Hs) as (hk & Ek & Hk & Hvk & Hhk & Hok).
  destruct (sos_gap_zero _ _ _ _ Eb Hs) as (p & d & Hp & Hd & Hpd).
  assert (Gp : get_obj_value hs (Some "primal") = Ok (eval x p))
    by (subst hs; unfold get_obj_value, dict_at; cbn [hm_obj hm_sol]; rewrite Hp; reflexivity).
  assert (Gd : get_obj_value hs (Some "dual") = Ok (eval x d))
    by (subst hs; unfold get_obj_value, dict_at; cbn [hm_obj hm_sol]; rewrite Hd; reflexivity).
  apply mbind_Ok in Hrun as ([] & w3 & R3 & Hrun).
  unfold print_val in R3; rewrite Gp in R3; cbn in R3; injection R3 as <-.
  apply mbind_Ok in Hrun as ([] & w4 & R4 & Hrun).
  unfold print_val in R4; rewrite Gd in R4; cbn in R4; injection R4 as <-.
  apply mbind_Ok in Hrun as (ds & w5 & R5 & Hrun); apply lift_Ok in R5 as [R5 ->].
  apply mbind_Ok in Hrun as (cds & w6 & R6 & Hrun); apply lift_Ok in R6 as [R6 ->].
  do 3 (apply mbind_Ok in Hrun as (? & ? & R & Hrun); apply lift_Ok in R as [_ ->]).
  unfold mret in Hrun; injection Hrun as <- <-.
  exists (eval x p), (eval x d), ds, cds; cbn [w_out].
  split; [rewrite <- app_assoc; reflexivity|split; [exact Hpd|split; [reflexivity|split; [reflexivity|]]]].
  pose proof (kkt_build_shape _ _ _ Ek) as (_ & _ & Hhp & _).
  destruct (kkt_upper_level_rows _ _ _ _ Ek Hk) as (_ & Hsum & _).
  set (T := total_demand hp); set (H := hours_num hp) in *.
  assert (Hhs : hm_hp hs = hp) by (subst hs; cbn; congruence).
  unfold get_demands in R5; unfold get_changed_demands in R6; rewrite Hhs in R5, R6.
  rewrite (sum_rmap _ (fun i => T * nth i (demands hp) 0) _ _ R5).
  2: { intros i y _ Hf; apply rbind_ok in Hf as [dd [Hdd Hf]]; injection Hf as <-.
       apply list_at_Ok in Hdd; subst dd; reflexivity. }
  rewrite (sum_rmap _ (fun i => T * (nth i (demands hp) 0 *
                                      (1 + xv x hk "upper_level" "delta" i))) _ _ R6).
  2: { intros i y _ Hf; apply rbind_ok in Hf as [dd [Hdd Hf]].
       apply rbind_ok in Hf as [v [Hv Hf]]; apply rbind_ok in Hf as [xq [Hxq Hf]].
       injection Hf as <-; apply list_at_Ok in Hdd; subst dd.
       assert (Hv' : v = var_at hk "upper_level" "delta" i).
       { unfold var_at, getv in *; subst hs; cbn [hm_vars] in Hv; rewrite <- Hvk, Hv; reflexivity. }
       subst v hs; unfold var_X in Hxq; cbn [hm_sol] in Hxq; injection Hxq as <-.
       reflexivity. }
  transitivity (qsum (fun i => T * nth i (demands hp) 0) H
                + T * qsum (fun i => xv x hk "upper_level" "delta" i * nth i (demands hp) 0) H).
  - change (hours_num hp) with H; rewrite <- qsum_scale, <- qsum_plus; apply qsum_ext; intros; ring.
  - rewrite Hsum; change (hours_num hp) with H; ring.
Qed.

Lemma bigM_attack_build_kkt hp ap M hm x :
  bigM_attack_build hp ap M = Ok hm -> rows_sat (hm_model hm) x ->
  exists hk, kkt_build hp ap = Ok hk /\ rows_sat (hm_model hk) x /\
    hm_vars hm = hm_vars hk /\ hm_hp hm = hm_hp hk /\ hm_obj hm = hm_obj hk.
Proof.
  unfold bigM_attack_build; intros E Hs.
  apply rbind_ok in E as [hk [Ek E]]; apply rbind_ok in E as [hb [Eb E]].
  apply set_obj_shape in E as (s & o & _ & -> & _).
  unfold add_bigM_constrs in Eb; apply rbind_ok in Eb as [m [Em Eb]]; injection Eb as <-.
  cbn [hm_model hm_obj hm_vars hm_hp with_model] in *.
  apply rows_sat_setObjective, rows_sat_setParam in Hs.
  destruct (fold_pairs_bigM_sat _ _ _ _ _ _ Em Hs) as [Hk _].
  exists hk; auto.
Qed.

(** X7: with scalar attack bounds, when the solver returns a feasible
    solution, [bigM_attack] prints equal primal and dual objective values
    first and returns changed demands with the same total as the demands. *)
Lemma bigM_attack_run solver hp ap M w out w' hm x l u :
  lb ap = QScalar l -> ub ap = QScalar u ->
  bigM_attack_build hp ap M = Ok hm -> snd (solver (hm_model hm)) = Some x ->
  feasible (hm_model hm) x ->
  bigM_attack solver hp ap M w = Ok (out, w') ->
  exists qp qd vb vp ds cds,
    w_out w' = w_out w ++ [PrVal (PFloat qp); PrVal (PFloat qd); PrVal vb; PrVal vp] /\
    qp == qd /\
    dict_get "demands" out = Some (PList ds) /\
    dict_get "changed_demands" out = Some (PList cds) /\
    fold_right Qplus 0 cds == fold_right Qplus 0 ds.
Proof.
  intros Hl Hu Eb Hx Hf Hrun; unfold bigM_attack in Hrun.
  apply mbind_Ok in Hrun as (hm1 & w1 & R1 & Hrun); apply lift_Ok in R1 as [R1 ->].
  rewrite Eb in R1; injection R1 as <-.
  apply mbind_Ok in Hrun as ([hs st] & w2 & R2 & Hrun); unfold solve in R2.
  injection R2 as <- <- <-; rewrite Hx in Hrun; cbv beta iota in Hrun.
  remember (mkhouse (hm_hp hm) (hm_model hm) (Some x) (hm_vars hm) (hm_obj hm) (hm_fix hm))
    as hs eqn:Ehs.
  destruct (bigM_attack_build_kkt _ _ _ _ _ Eb (proj1 Hf)) as (hk & Ek & Hk & Hvk & Hhk & Hok).
  destruct (bigM_gap_zero _ _ _ _ _ _ _ Hl Hu Eb Hf) as (p & d & Hp & Hd & Hpd).
  assert (Gp : get_obj_value hs (Some "primal") = Ok (eval x p))
    by (subst hs; unfold get_obj_value, dict_at; cbn [hm_obj hm_sol]; rewrite Hp; reflexivity).
  assert (Gd : get_obj_value hs (Some "dual") = Ok (eval x d))
    by (subst hs; unfold get_obj_value, dict_at; cbn [hm_obj hm_sol]; rewrite Hd; reflexivity).
  apply mbind_Ok in Hrun as ([] & w3 & R3 & Hrun).
  unfold print_val in R3; rewrite Gp in R3; cbn in R3; injection R3 as <-.
  apply mbind_Ok in Hrun as ([] & w4 & R4 & Hrun).
  unfold print_val in R4; rewrite Gd in R4; cbn in R4; injection R4 as <-.
  apply mbind_Ok in Hrun as ([] & w5 & R5 & Hrun).
  unfold print_val in R5; apply mbind_Ok in R5 as (vb & w5' & R5 & R5');
    apply lift_Ok in R5 as [_ ->]; cbn in R5'; injection R5' as <-.
  apply mbind_Ok in Hrun as ([] & w6 & R6 & Hrun).
  unfold print_val in R6; apply mbind_Ok in R6 as (vp & w6' & R6 & R6');
    apply lift_Ok in R6 as [_ ->]; cbn in R6'; injection R6' as <-.
  apply mbind_Ok in Hrun as (ds & w7 & R7 & Hrun); apply lift_Ok in R7 as [R7 ->].
  apply mbind_Ok in Hrun as (cds & w8 & R8 & Hrun); apply lift_Ok in R8 as [R8 ->].
  do 4 (apply mbind_Ok in Hrun as (? & ? & R & Hrun); apply lift_Ok in R as [_ ->]).
  unfold mret in Hrun; injection Hrun as <- <-.
  exists (eval x p), (eval x d), vb, vp, ds, cds; cbn [w_out].
  split; [rewrite <- !app_assoc; reflexivity|split; [exact Hpd|split; [reflexivity|split; [reflexivity|]]]].
  pose proof (kkt_build_shape _ _ _ Ek) as (_ & _ & Hhp & _).
  destruct (kkt_upper_level_rows _ _ _ _ Ek Hk) as (_ & Hsum & _).
  set (T := total_demand hp); set (H := hours_num hp) in *.
  assert (Hhs : hm_hp hs = hp) by (subst hs; cbn; congruence).
  unfold get_demands in R7; unfold get_changed_demands in R8; rewrite Hhs in R7, R8.
  rewrite (sum_rmap _ (fun i => T * nth i (demands hp) 0) _ _ R7).
  2: { intros i y _ Hf'; apply rbind_ok in Hf' as [dd [Hdd Hf']]; injection Hf' as <-.
       apply list_at_Ok in Hdd; subst dd; reflexivity. }
  rewrite (sum_rmap _ (fun i => T * (nth i (demands hp) 0 *
                                      (1 + xv x hk "upper_level" "delta" i))) _ _ R8).
  2: { intros i y _ Hf'; apply rbind_ok in Hf' as [dd [Hdd Hf']].
       apply rbind_ok in Hf' as [v [Hv Hf']]; apply rbind_ok in Hf' as [xq [Hxq Hf']].
       injection Hf' as <-; apply list_at_Ok in Hdd; subst dd.
       assert (Hv' : v = var_at hk "upper_level" "delta" i).
       { unfold var_at, getv in *; subst hs; cbn [hm_vars] in Hv; rewrite <- Hvk, Hv; reflexivity. }
       subst v hs; unfold var_X in Hxq; cbn [hm_sol] in Hxq; injection Hxq as <-.
       reflexivity. }
  transitivity (qsum (fun i => T * nth i (demands hp) 0) H
                + T * qsum (fun i => xv x hk "upper_level" "delta" i * nth i (demands hp) 0) H).
  - change (hours_num hp) with H; rewrite <- qsum_scale, <- qsum_plus; apply qsum_ext; intros; ring.
  - rewrite Hsum; change (hours_num hp) with H; ring.
Qed.

Lemma primal_obj_costs hm o :
  primal_obj hm = Ok o -> exists c, cost_PV (hm_hp hm) = Ok c.
Proof. unfold primal_obj; intro H; res_crush H; eauto. Qed.

Lemma add_primal_constrs_costs hm hm' :
  add_primal_constrs hm = Ok hm' -> exists c, cost_PV (hm_hp hm) = Ok c.
Proof.
  intro H; apply add_primal_constrs_shape in H as (m & o & _ & Ho & _).
  exact (primal_obj_costs _ _ Ho).
Qed.

Lemma add_dual_constrs_costs hm hm' :
  add_dual_constrs hm = Ok hm' -> exists c, cost_battery (hm_hp hm) = Ok c.
Proof. unfold add_dual_constrs; intro H; res_crush H; eauto. Qed.

Lemma cost_PV_zero hp : life_time hp = 0%Z -> cost_PV hp = Err ZeroDivisionError.
Proof. unfold cost_PV; intros ->; reflexivity. Qed.

Lemma cost_battery_zero hp : life_time hp = 0%Z -> cost_battery hp = Err ZeroDivisionError.
Proof. unfold cost_battery; intros ->; reflexivity. Qed.

Lemma add_vars_hp ap hm hm' : add_vars ap hm = Ok hm' -> hm_hp hm' = hm_hp hm.
Proof. intro H; apply add_vars_shape in H as (m & vs & -> & _); reflexivity. Qed.

Lemma add_upper_level_constrs_hp ap hm hm' :
  add_upper_level_constrs ap hm = Ok hm' -> hm_hp hm' = hm_hp hm.
Proof. intro H; apply add_upper_level_constrs_shape in H as (m & o & -> & _); reflexivity. Qed.

Lemma add_primal_constrs_hp hm hm' : add_primal_constrs hm = Ok hm' -> hm_hp hm' = hm_hp hm.
Proof. intro H; apply add_primal_constrs_shape in H as (m & o & -> & _); reflexivity. Qed.

Lemma kkt_build_life_time hp ap hm : kkt_build hp ap = Ok hm -> life_time hp <> 0%Z.
Proof.
  unfold kkt_build; intros E Hz.
  apply rbind_ok in E as [h1 [E1 E]]; apply rbind_ok in E as [h2 [E2 E]].
  apply rbind_ok in E as [h3 [E3 _]].
  apply add_primal_constrs_costs in E3 as [c Hc].
  rewrite (add_upper_level_constrs_hp _ _ _ E2), (add_vars_hp _ _ _ E1) in Hc.
  cbn in Hc; rewrite cost_PV_zero in Hc by exact Hz; discriminate.
Qed.

Lemma primal_model_build_life_time hp ap hm :
  primal_model_build hp ap = Ok hm -> life_time hp <> 0%Z.
Proof.
  unfold primal_model_build; intros E Hz.
  apply rbind_ok in E as [h1 [E1 E]]; apply rbind_ok in E as [h2 [E2 _]].
  apply add_primal_constrs_costs in E2 as [c Hc].
  rewrite (add_vars_hp _ _ _ E1) in Hc.
  cbn in Hc; rewrite cost_PV_zero in Hc by exact Hz; discriminate.
Qed.

Lemma dual_model_build_life_time hp ap hm :
  dual_model_build hp ap = Ok hm -> life_time hp <> 0%Z.
Proof.
  unfold dual_model_build; intros E Hz.
  apply rbind_ok in E as [h1 [E1 E]]; apply rbind_ok in E as [h2 [E2 _]].
  apply add_dual_constrs_costs in E2 as [c Hc].
  rewrite (add_vars_hp _ _ _ E1) in Hc.
  cbn in Hc; rewrite cost_battery_zero in Hc by exact Hz; discriminate.
Qed.

Lemma PADM_start_life_time hp ap hm :
  PADM_start hp ap = Ok hm -> life_time hp <> 0%Z.
Proof.
  unfold PADM_start; intros E Hz.
  apply rbind_ok in E as [h1 [E1 E]]; apply rbind_ok in E as [h2 [E2 E]].
  apply rbind_ok in E as [h3 [E3 _]].
  apply add_primal_constrs_costs in E3 as [c Hc].
  rewrite (add_upper_level_constrs_hp _ _ _ E2), (add_vars_hp _ _ _ E1) in Hc.
  cbn in Hc; rewrite cost_PV_zero in Hc by exact Hz; discriminate.
Qed.

Lemma zero_life_time_builds hp ap :
  life_time hp = 0%Z ->
  (forall hm, primal_model_build hp ap <> Ok hm) /\
  (forall hm, dual_model_build hp ap <> Ok hm) /\
  (forall bigM hm, bigM_attack_build hp ap bigM <> Ok hm) /\
  (forall hm, sos_attack_build hp ap <> Ok hm) /\
  (forall hm, PADM_start hp ap <> Ok hm).
Proof.
  intro Hz; split; [|split; [|split; [|split]]]; intros.
  - intro E; exact (primal_model_build_life_time _ _ _ E Hz).
  - intro E; exact (dual_model_build_life_time _ _ _ E Hz).
  - unfold bigM_attack_build; intro E; apply rbind_ok in E as [hk [Ek _]].
    exact (kkt_build_life_time _ _ _ Ek Hz).
  - unfold sos_attack_build; intro E; apply rbind_ok in E as [hk [Ek _]].
    exact (kkt_build_life_time _ _ _ Ek Hz).
  - intro E; exact (PADM_start_life_time _ _ _ E Hz).
Qed.

Lemma ub_model_build_life_time hp ap hm :
  ub_model_build hp ap = Ok hm -> life_time hp <> 0%Z.
Proof.
  unfold ub_model_build; intros E Hz.
  apply rbind_ok in E as [h1 [E1 E]]; apply rbind_ok in E as [h2 [E2 E]].
  apply add_primal_constrs_costs in E as [c Hc].
  rewrite (add_upper_level_constrs_hp _ _ _ E2), (add_vars_hp _ _ _ E1) in Hc.
  cbn in Hc; rewrite cost_PV_zero in Hc by exact Hz; discriminate.
Qed.

Lemma mbind_lift_fail {A B} (r : res A) (k : A -> M B) w :
  (forall a, r <> Ok a) -> exists e, mbind (lift r) k w = Err e.
Proof.
  intro H; destruct r as [a|e]; [exfalso; exact (H a eq_refl)|exists e; reflexivity].
Qed.

(** X8: with [life_time = 0] every method of [Control] raises: building its
    model needs [cost_PV] or [cost_battery], which divide by [life_time]. *)
Theorem zero_life_time_raises solver pp hp ap bigM w :
  life_time hp = 0%Z ->
  (exists e, primal_model solver hp ap w = Err e) /\
  (exists e, dual_model solver hp ap w = Err e) /\
  (exists e, bigM_attack solver hp ap bigM w = Err e) /\
  (exists e, sos_attack solver hp ap w = Err e) /\
  (exists e, get_ub_valid_ineq solver hp ap w = Err e) /\
  (exists e, sos_valid_ineq_attack solver hp ap w = Err e) /\
  (exists e, PADM_attack solver pp hp ap w = Err e).
Proof.
  intro Hz; destruct (zero_life_time_builds hp ap Hz) as (HP & HD & HB & HS & HA).
  repeat split.
  - apply mbind_lift_fail; exact HP.
  - apply mbind_lift_fail; exact HD.
  - apply mbind_lift_fail; exact (HB bigM).
  - apply mbind_lift_fail; exact HS.
  - apply mbind_lift_fail; intros hm E; exact (ub_model_build_life_time _ _ _ E Hz).
  - apply mbind_lift_fail; unfold sos_valid_ineq_build; intros hm E.
    apply rbind_ok in E as [hk [Ek _]]; exact (kkt_build_life_time _ _ _ Ek Hz).
  - apply mbind_lift_fail; exact HA.
Qed.

(** X9: comparing a snapshot with distinct keys with itself, [diff_values]
    gives minus infinity when the snapshot is empty and 0 otherwise. *)
Theorem diff_values_self A r :
  NoDup (map fst A) -> diff_values A A = Ok r ->
  (A = [] /\ r = NegInf) \/ (A <> [] /\ exists q, r = Fin q /\ q == 0).
Proof.
  intros Hnd H.
  destruct A as [|[k a] A'] eqn:EA.
  { left; split; [reflexivity|]; cbn in H; injection H as <-; reflexivity. }
  rewrite <- EA in H, Hnd.
  assert (Hu0 : exists u, nth_error (as_array a) 0 = Some u).
  { destruct (as_array a) as [|u us] eqn:Ea; [|exists u; reflexivity].
    exfalso; revert H; subst A; unfold diff_values; cbn [fold_left].
    unfold dict_at; cbn [fst snd dict_get]; rewrite String.eqb_refl; cbn [rbind].
    unfold array_sub; rewrite Ea; cbn.
    match goal with |- fold_left ?f ?l (Err ?e) = _ -> False =>
      assert (Z : forall l0, fold_left f l0 (Err e) = Err e)
        by (intro l0; induction l0; cbn; auto);
      rewrite Z; discriminate end. }
  destruct Hu0 as [u Hu0].
  apply diff_values_spec in H.
  assert (HS : forall q, decrease_of A A q -> q == 0).
  { intros q (k0 & a0 & b & j & u0 & v & Hin & Hb & Hu & Hv & ->).
    assert (Hab : dict_get k0 A = Some a0).
    { clear -Hnd Hin; induction A as [|[k' a'] A IH]; [destruct Hin|].
      cbn in Hnd |- *; inversion Hnd as [|? ? Hn Hnd']; subst.
      destruct Hin as [E|Hin].
      - injection E as <- <-; rewrite String.eqb_refl; reflexivity.
      - destruct (String.eqb_spec k0 k') as [<-|]; [|exact (IH Hnd' Hin)].
        exfalso; apply Hn; change k0 with (fst (k0, a0)); apply in_map, Hin. }
    rewrite Hab in Hb; injection Hb as <-; rewrite Hu in Hv; injection Hv as <-; ring. }
  assert (D0 : decrease_of A A (u - u)).
  { exists k, a, a, 0%nat, u, u; subst A; cbn; rewrite String.eqb_refl.
    split; [now left|split; [reflexivity|split; [exact Hu0|split; [exact Hu0|reflexivity]]]]. }
  right; split; [subst A; discriminate|].
  destruct r as [|q]; [exact (False_ind _ (H _ D0))|exists q; split; [reflexivity|apply HS, H]].
Qed.

Lemma in_boundsb_sound c q : in_boundsb c q = true -> in_bounds c q.
Proof.
  unfold in_boundsb, in_bounds; rewrite !andb_true_iff, !orb_true_iff, !Qle_bool_iff.
  intros [[H1 H2] H3]; split; [exact H1|split; [exact H2|]].
  intros Ht; rewrite Ht, orb_true_iff, !Qeq_bool_iff in H3; exact H3.
Qed.

Lemma cols_boundsb_sound x cs : forall k0, cols_boundsb x k0 cs = true ->
  forall k c, nth_error cs k = Some c -> in_bounds c (x (k0 + k)%nat).
Proof.
  induction cs as [|c0 cs IH]; intros k0 Hb k c Hk; [destruct k; discriminate|].
  cbn [cols_boundsb] in Hb; apply andb_true_iff in Hb as [H0 Hb].
  destruct k as [|k]; cbn in Hk.
  - injection Hk as <-; rewrite Nat.add_0_r; apply in_boundsb_sound; exact H0.
  - rewrite <- Nat.add_succ_comm; exact (IH _ Hb k c Hk).
Qed.

Lemma feasibleb_feasible m x : feasibleb m x = true -> feasible m x.
Proof.
  unfold feasibleb; rewrite andb_true_iff; intros [Hr Hc]; split.
  - exact (rows_satb_sat _ _ Hr).
  - intros k c Hk; exact (cols_boundsb_sound x _ 0 Hc k c Hk).
Qed.

(** X1: on every assignment satisfying the rows of the KKT model, the primal
    objective minus the dual objective is the sum of the products of the ten
    complementarity pairs (a variable times its dual slack). *)
Theorem kkt_build_gap hp ap hm x :
  kkt_build hp ap = Ok hm -> rows_sat (hm_model hm) x ->
  exists p d, dict_get "primal" (hm_obj hm) = Some p /\ dict_get "dual" (hm_obj hm) = Some d /\
  eval x p - eval x d == cs_gap x hm.
Proof. exact (kkt_gap_eq hp ap hm x). Qed.

(** X3: in the model of [sos_attack], every assignment satisfying the rows
    (the SOS1 rows included) has equal primal and dual objectives. *)
Theorem sos_attack_build_zero_gap hp ap hm x :
  sos_attack_build hp ap = Ok hm -> rows_sat (hm_model hm) x ->
  exists p d, dict_get "primal" (hm_obj hm) = Some p /\
              dict_get "dual" (hm_obj hm) = Some d /\ eval x p == eval x d.
Proof. exact (sos_gap_zero hp ap hm x). Qed.

(** X4: with scalar attack bounds, every feasible point of the model of
    [bigM_attack(M)] has equal primal and dual objectives, whatever [M]. *)
Theorem bigM_attack_build_zero_gap hp ap bigM hm x l u :
  lb ap = QScalar l -> ub ap = QScalar u ->
  bigM_attack_build hp ap bigM = Ok hm -> feasible (hm_model hm) x ->
  exists p d, dict_get "primal" (hm_obj hm) = Some p /\
              dict_get "dual" (hm_obj hm) = Some d /\ eval x p == eval x d.
Proof. exact (bigM_gap_zero hp ap bigM hm x l u). Qed.

Lemma kkt_build_gap_witness :
  kkt_build hp_two default_attack = Ok hp_two_kkt /\ rows_sat (hm_model hp_two_kkt) x_kkt /\
  exists p d, dict_get "primal" (hm_obj hp_two_kkt) = Some p /\
    dict_get "dual" (hm_obj hp_two_kkt) = Some d /\
    eval x_kkt p - eval x_kkt d == cs_gap x_kkt hp_two_kkt.
Proof.
  assert (E : kkt_build hp_two default_attack = Ok hp_two_kkt) by (vm_compute; reflexivity).
  assert (R : rows_sat (hm_model hp_two_kkt) x_kkt) by (unfold rows_sat; apply rows_satb_sat; vm_compute; reflexivity).
  split; [exact E|split; [exact R|exact (kkt_build_gap _ _ _ _ E R)]].
Defined.

Lemma kkt_build_weak_duality_witness :
  kkt_build hp_two default_attack = Ok hp_two_kkt /\ feasible (hm_model hp_two_kkt) x_kkt /\
  exists p d, dict_get "primal" (hm_obj hp_two_kkt) = Some p /\
    dict_get "dual" (hm_obj hp_two_kkt) = Some d /\ eval x_kkt d <= eval x_kkt p.
Proof.
  assert (E : kkt_build hp_two default_attack = Ok hp_two_kkt) by (vm_compute; reflexivity).
  assert (F : feasible (hm_model hp_two_kkt) x_kkt) by (apply feasibleb_feasible; vm_compute; reflexivity).
  split; [exact E|split; [exact F|]].
  exact (kkt_build_weak_duality hp_two default_attack (- GRB_INFINITY) GRB_INFINITY _ _ eq_refl eq_refl E F).
Defined.

Lemma sos_attack_build_zero_gap_witness :
  sos_attack_build hp_two default_attack = Ok hp_two_sos /\
  rows_sat (hm_model hp_two_sos) x_kkt /\
  exists p d, dict_get "primal" (hm_obj hp_two_sos) = Some p /\
    dict_get "dual" (hm_obj hp_two_sos) = Some d /\ eval x_kkt p == eval x_kkt d.
Proof.
  assert (E : sos_attack_build hp_two default_attack = Ok hp_two_sos) by (vm_compute; reflexivity).
  assert (R : rows_sat (hm_model hp_two_sos) x_kkt) by (unfold rows_sat; apply rows_satb_sat; vm_compute; reflexivity).
  split; [exact E|split; [exact R|exact (sos_attack_build_zero_gap _ _ _ _ E R)]].
Defined.

Lemma bigM_attack_build_zero_gap_witness :
  bigM_attack_build hp_two default_attack 10000 = Ok hp_two_bigM /\
  feasible (hm_model hp_two_bigM) x_kkt /\
  exists p d, dict_get "primal" (hm_obj hp_two_bigM) = Some p /\
    dict_get "dual" (hm_obj hp_two_bigM) = Some d /\ eval x_kkt p == eval x_kkt d.
Proof.
  assert (E : bigM_attack_build hp_two default_attack 10000 = Ok hp_two_bigM)
    by (vm_compute; reflexivity).
  assert (F : feasible (hm_model hp_two_bigM) x_kkt)
    by (apply feasibleb_feasible; vm_compute; reflexivity).
  split; [exact E|split; [exact F|]].
  exact (bigM_attack_build_zero_gap hp_two default_attack 10000 _ _ (- GRB_INFINITY) GRB_INFINITY eq_refl eq_refl E F).
Defined.

Lemma primal_dual_weak_duality_witness :
  primal_model_build hp_two default_attack = Ok hp_two_P /\ feasible (hm_model hp_two_P) x_kkt /\
  dual_model_build hp_two default_attack = Ok hp_two_D /\ feasible (hm_model hp_two_D) x_kkt /\
  eval x_kkt (m_obj (hm_model hp_two_D)) <= eval x_kkt (m_obj (hm_model hp_two_P)).
Proof.
  assert (EP : primal_model_build hp_two default_attack = Ok hp_two_P) by (vm_compute; reflexivity).
  assert (FP : feasible (hm_model hp_two_P) x_kkt)
    by (apply feasibleb_feasible; vm_compute; reflexivity).
  assert (ED : dual_model_build hp_two default_attack = Ok hp_two_D) by (vm_compute; reflexivity).
  assert (FD : feasible (hm_model hp_two_D) x_kkt)
    by (apply feasibleb_feasible; vm_compute; reflexivity).
  split; [exact EP|split; [exact FP|split; [exact ED|split; [exact FD|]]]].
  exact (primal_dual_weak_duality hp_two default_attack (- GRB_INFINITY) GRB_INFINITY _ _ _ _
           eq_refl eq_refl EP FP ED FD).
Defined.

Lemma sos_attack_run_witness :
  exists out w', sos_attack solver_kkt hp_two default_attack world0 = Ok (out, w') /\
  exists qp qd ds cds,
    w_out w' = (w_out world0 ++ [PrVal (PFloat qp); PrVal (PFloat qd)])%list /\ qp == qd /\
    dict_get "demands" out = Some (PList ds) /\
    dict_get "changed_demands" out = Some (PList cds) /\
    fold_right Qplus 0 cds == fold_right Qplus 0 ds.
Proof.
  assert (E : sos_attack_build hp_two default_attack = Ok hp_two_sos) by (vm_compute; reflexivity).
  assert (R : rows_sat (hm_model hp_two_sos) x_kkt) by (unfold rows_sat; apply rows_satb_sat; vm_compute; reflexivity).
  destruct (sos_attack solver_kkt hp_two default_attack world0) as [[out w']|e] eqn:Run;
    [|vm_compute in Run; discriminate].
  exists out, w'; split; [reflexivity|].
  exact (sos_attack_run solver_kkt hp_two default_attack _ _ _ _ _ E eq_refl R Run).
Defined.

Lemma bigM_attack_run_witness :
  exists out w', bigM_attack solver_kkt hp_two default_attack 10000 world0 = Ok (out, w') /\
  exists qp qd vb vp ds cds,
    w_out w' = (w_out world0 ++ [PrVal (PFloat qp); PrVal (PFloat qd); PrVal vb; PrVal vp])%list /\
    qp == qd /\
    dict_get "demands" out = Some (PList ds) /\
    dict_get "changed_demands" out = Some (PList cds) /\
    fold_right Qplus 0 cds == fold_right Qplus 0 ds.
Proof.
  assert (E : bigM_attack_build hp_two default_attack 10000 = Ok hp_two_bigM)
    by (vm_compute; reflexivity).
  assert (F : feasible (hm_model hp_two_bigM) x_kkt)
    by (apply feasibleb_feasible; vm_compute; reflexivity).
  destruct (bigM_attack solver_kkt hp_two default_attack 10000 world0) as [[out w']|e] eqn:Run;
    [|vm_compute in Run; discriminate].
  exists out, w'; split; [reflexivity|].
  exact (bigM_attack_run solver_kkt hp_two default_attack 10000 _ _ _ _ _ (- GRB_INFINITY) GRB_INFINITY
           eq_refl eq_refl E eq_refl F Run).
Defined.

Lemma zero_life_time_raises_witness :
  life_time hp_zero_life = 0%Z /\
  (exists e, primal_model (solver_zero OPTIMAL) hp_zero_life default_attack world0 = Err e) /\
  (exists e, PADM_attack (solver_zero OPTIMAL) PADM_three hp_zero_life default_attack world0 = Err e).
Proof.
  assert (Hz : life_time hp_zero_life = 0%Z) by reflexivity.
  destruct (zero_life_time_raises (solver_zero OPTIMAL) PADM_three hp_zero_life default_attack
              10000 world0 Hz) as (HP & _ & _ & _ & _ & _ & HA).
  split; [exact Hz|split; [exact HP|exact HA]].
Defined.

Lemma diff_values_self_witness :
  NoDup (map fst snap_upper) /\
  exists r, diff_values snap_upper snap_upper = Ok r /\
    ((snap_upper = [] /\ r = NegInf) \/ (snap_upper <> [] /\ exists q, r = Fin q /\ q == 0)).
Proof.
  assert (N : NoDup (map fst snap_upper)).
  { cbn; constructor; [cbn; intros [E|[]]; discriminate|constructor; [intros []|constructor]]. }
  split; [exact N|].
  destruct (diff_values snap_upper snap_upper) as [r|e] eqn:E; [|vm_compute in E; discriminate].
  exists r; split; [reflexivity|exact (diff_values_self _ _ N E)].
Defined.
